(** * pymediawiki: request orchestration, memoization and category trees

    A shallow embedding of [mediawiki/utilities.py] (the [memoize]
    decorator) and of the request, pagination, validation, configuration
    and category-tree code of [mediawiki/mediawiki.py], followed by the
    properties of that code.

    Conventions of the embedding.
    - Python [int]s are [Z]; [None]-able values are [option]s.
    - Python [str]s are Rocq [string]s (bytes; the case and whitespace
      functions below are the ASCII ones).
    - Python [dict]s are [gmap]s: equality of [gmap]s is the
      order-insensitive [==] of Python dictionaries.
    - Wall-clock time ([time.time()], [datetime.now()]) is a [Z] number of
      ticks read from the modelled world; [time.sleep] advances it.
    - A method is a function from the state (the client object [self] and
      the outside world) to an outcome and a new state.  An outcome is a
      returned value, a raised exception, or [Diverge] when the fuel that
      bounds a [while] loop or a recursion of the source ran out. *)

From Stdlib Require Import ZArith String Ascii List Bool Lia Sorted.
From stdpp Require Import base option list strings gmap pretty.
Import ListNotations.

#[local] Open Scope string_scope.
#[local] Open Scope Z_scope.

(** ** Python values and strings *)

Module Py.

(** The values that occur as call arguments and request parameters. *)
Inductive PyVal :=
| PyNone
| PyBool (b : bool)
| PyInt (z : Z)
| PyStr (s : string).

#[global] Instance PyVal_eq_dec : EqDecision PyVal.
Proof. solve_decision. Defined.

(** [str(x)] *)
Definition str (v : PyVal) : string :=
  match v with
  | PyNone => "None"
  | PyBool true => "True"
  | PyBool false => "False"
  | PyInt z => pretty z
  | PyStr s => s
  end.

(** [bool(x)] *)
Definition truthy (v : PyVal) : bool :=
  match v with
  | PyNone => false
  | PyBool b => b
  | PyInt z => negb (Z.eqb z 0)
  | PyStr s => negb (String.eqb s "")
  end.

Definition is_upper (c : ascii) : bool :=
  let n := nat_of_ascii c in (Nat.leb 65 n && Nat.leb n 90)%bool.

Definition lower_ascii (c : ascii) : ascii :=
  if is_upper c then ascii_of_nat (nat_of_ascii c + 32) else c.

(** [s.lower()] *)
Fixpoint lower (s : string) : string :=
  match s with
  | EmptyString => EmptyString
  | String c s' => String (lower_ascii c) (lower s')
  end.

(** The whitespace characters [str.strip()] removes: space, tab, line
    feed, vertical tab, form feed, carriage return and the separators
    FS, GS, RS, US. *)
Definition is_space (c : ascii) : bool :=
  let n := nat_of_ascii c in
  (Nat.eqb n 32 || (Nat.leb 9 n && Nat.leb n 13) || (Nat.leb 28 n && Nat.leb n 31))%bool.

Fixpoint lstrip (s : string) : string :=
  match s with
  | EmptyString => EmptyString
  | String c s' => if is_space c then lstrip s' else s
  end.

Fixpoint rstrip (s : string) : string :=
  match s with
  | EmptyString => EmptyString
  | String c s' =>
      match rstrip s' with
      | EmptyString => if is_space c then EmptyString else String c EmptyString
      | r => String c r
      end
  end.

(** [s.strip()] *)
Definition strip (s : string) : string := rstrip (lstrip s).

(** [s.startswith(p)] *)
Definition startswith (s p : string) : bool := String.prefix p s.

(** [s[n:]] *)
Fixpoint drop_chars (n : nat) (s : string) : string :=
  match n, s with
  | O, _ => s
  | S k, EmptyString => EmptyString
  | S k, String _ s' => drop_chars k s'
  end.

(** [s.replace(old, new)] for a non-empty [old]: the occurrences are
    replaced left to right and do not overlap.  [skip] counts the
    characters of a matched occurrence that are still to be dropped. *)
Fixpoint replace_from (old new s : string) (skip : nat) : string :=
  match s with
  | EmptyString => EmptyString
  | String c s' =>
      match skip with
      | S k => replace_from old new s' k
      | O =>
          if String.prefix old s
          then new +:+ replace_from old new s' (String.length old - 1)%nat
          else String c (replace_from old new s' O)
      end
  end.

(** With an empty [old] Python inserts [new] around every character; the
    code below never does that (its patterns start with a slash). *)
Fixpoint intersperse (new s : string) : string :=
  match s with
  | EmptyString => new
  | String c s' => new +:+ String c (intersperse new s')
  end.

Definition replace (s old new : string) : string :=
  match old with
  | EmptyString => intersperse new s
  | _ => replace_from old new s O
  end.

(** [sep.join(l)] *)
Fixpoint join (sep : string) (l : list string) : string :=
  match l with
  | [] => ""
  | [x] => x
  | x :: rest => x +:+ sep +:+ join sep rest
  end.

(** [s.split(sep)] for a one-character separator. *)
Fixpoint split_on (sep : ascii) (s : string) : list string :=
  match s with
  | EmptyString => [EmptyString]
  | String c s' =>
      if Ascii.eqb c sep then EmptyString :: split_on sep s'
      else match split_on sep s' with
           | [] => [String c EmptyString]
           | w :: ws => String c w :: ws
           end
  end.

Definition digit_of (c : ascii) : option Z :=
  let n := nat_of_ascii c in
  if (Nat.leb 48 n && Nat.leb n 57)%bool then Some (Z.of_nat (n - 48)) else None.

Fixpoint digits_from (acc : Z) (s : string) : option Z :=
  match s with
  | EmptyString => Some acc
  | String c s' =>
      match digit_of c with
      | Some d => digits_from (10 * acc + d) s'
      | None => None
      end
  end.

(** [int(s)] on a string of decimal digits; anything else is the
    [ValueError] case ([None] here). *)
Definition parse_int (s : string) : option Z :=
  match s with
  | EmptyString => None
  | _ => digits_from 0 s
  end.

(** [sorted(l)] on strings (insertion sort on the code-point order). *)
Fixpoint insert_sorted (x : string) (l : list string) : list string :=
  match l with
  | [] => [x]
  | y :: l' => if String.leb x y then x :: l else y :: insert_sorted x l'
  end.

Definition sorted (l : list string) : list string :=
  fold_right insert_sorted [] l.

(** [sorted(list(set(l)))] *)
Fixpoint dedup_sorted (l : list string) : list string :=
  match l with
  | x :: (y :: _) as l' => if String.eqb x y then dedup_sorted l' else x :: dedup_sorted l'
  | _ => l
  end.

Definition sorted_set (l : list string) : list string := dedup_sorted (sorted l).

End Py.

Export Py.

(** ** Exceptions *)

(** The exception classes that the modelled code raises, catches or lets
    through.  [ConnectTimeout], [ConnectionError] and [ReadTimeout] are
    those of the [requests] package; the [MediaWiki...] classes,
    [PageError] and [HTTPTimeoutError] are the library's own (module
    [mediawiki.exceptions], which is outside this development: wherever
    a handler depends on its class hierarchy, the hierarchy is a
    parameter).  [KeyboardInterrupt] is the only one that is not a
    subclass of [Exception]. *)
Inductive exn :=
| ValueError (msg : string)
| KeyError (key : string)
| IndexError
| TypeError
| AttributeError (attr : string)
| UnboundLocalError (var : string)
| KeyboardInterrupt
| ConnectTimeout
| ConnectionError
| ReadTimeout
| MediaWikiException (error : string)
| PageError (title : string)
| HTTPTimeoutError (query : option string)
| MediaWikiAPIURLError (api_url : string)
| MediaWikiGeoCoordError (error : string)
| MediaWikiCategoryTreeError (category : string)
| MediaWikiLoginError (error : string)
| OtherException (name : string).

#[global] Instance exn_eq_dec : EqDecision exn.
Proof. solve_decision. Defined.

(** [isinstance(e, PageError)] *)
Definition is_PageError (e : exn) : bool :=
  match e with PageError _ => true | _ => false end.

(** [isinstance(e, KeyboardInterrupt)] *)
Definition is_KeyboardInterrupt (e : exn) : bool :=
  match e with KeyboardInterrupt => true | _ => false end.

(** [isinstance(e, Exception)] *)
Definition is_Exception (e : exn) : bool := negb (is_KeyboardInterrupt e).

(** The classes defined by [mediawiki.exceptions]. *)
Definition is_library_exn (e : exn) : bool :=
  match e with
  | MediaWikiException _ | PageError _ | HTTPTimeoutError _
  | MediaWikiAPIURLError _ | MediaWikiGeoCoordError _
  | MediaWikiCategoryTreeError _ | MediaWikiLoginError _ => true
  | _ => false
  end.

(** ** Outcomes and the state monad *)

Inductive Outcome (A : Type) :=
| Ok (a : A)
| Raise (e : exn)
| Diverge.

Arguments Ok {A} a.
Arguments Raise {A} e.
Arguments Diverge {A}.

Definition M (S A : Type) : Type := S -> Outcome A * S.

Definition ret {S A} (a : A) : M S A := fun s => (Ok a, s).

Definition raise {S A} (e : exn) : M S A := fun s => (Raise e, s).

Definition bind {S A B} (m : M S A) (k : A -> M S B) : M S B :=
  fun s =>
    match m s with
    | (Ok a, s') => k a s'
    | (Raise e, s') => (Raise e, s')
    | (Diverge, s') => (Diverge, s')
    end.

Definition get {S} : M S S := fun s => (Ok s, s).

Definition gets {S A} (f : S -> A) : M S A := fun s => (Ok (f s), s).

Definition modify {S} (f : S -> S) : M S unit := fun s => (Ok tt, f s).

(** [e] when it is not [None], [KeyError k] otherwise: a subscript [d[k]]. *)
Definition subscript {S A} (k : string) (o : option A) : M S A :=
  match o with
  | Some a => ret a
  | None => raise (KeyError k)
  end.

Declare Scope py_scope.
Delimit Scope py_scope with py.
Notation "'let*' x ':=' m 'in' k" := (bind m (fun x => k))
  (at level 10, x name, m at level 100, k at level 200, only parsing) : py_scope.
Notation "'let*' ' pat ':=' m 'in' k" := (bind m (fun x => match x with pat => k end))
  (at level 10, pat pattern, m at level 100, k at level 200, only parsing) : py_scope.
#[local] Open Scope py_scope.

(** ** Data model *)

(** Request parameters and continuation tokens are flat dictionaries. *)
Abbreviation Params := (gmap string PyVal).
Abbreviation Token := (gmap string PyVal).

(** What the memoized operations return. *)
Inductive Value :=
| VNone
| VStr (s : string)
| VList (l : list string)
| VPair (pages subcats : list string)
| VRows (rows : list (string * string * string)).

(** The memoization cache [self._cache]: one partition per operation name
    (key |-> (timestamp, value)) and the partition ["defaults"], which
    holds for every operation the defaults of its named parameters. *)
Inductive Partition :=
| Entries (m : gmap string (Z * Value))
| Defaults (d : gmap string (gmap string PyVal)).

Abbreviation Cache := (gmap string Partition).

(** Site information filled in by [_get_site_info]. *)
Record SiteInfo := {
  _extensions : option (list string);
  _api_version : option (list Z);
  _api_version_str : option string;
  _base_url : option string
}.

(** The attributes of a [MediaWiki] instance that the modelled code reads
    or writes.  [_cache = None] is the attribute not assigned yet (during
    [__init__]); the timeout, user agent, proxies, TLS setting and the
    [requests] session only parameterize the transport and are left to
    it. *)
Record Client := {
  _lang : string;
  _api_url : string;
  _cat_prefix : string;
  _rate_limit : bool;
  _rate_limit_last_call : option Z;
  _min_wait : Z;
  _site : SiteInfo;
  __supported_languages : option (gmap string string);
  __available_languages : option (gmap string bool);
  _cache : option Cache;
  _refresh_interval : option Z;
  _use_cache : bool;
  _is_logged_in : bool
}.

Definition with_lang (v : string) (c : Client) : Client :=
  {| _lang := v; _api_url := _api_url c; _cat_prefix := _cat_prefix c;
     _rate_limit := _rate_limit c; _rate_limit_last_call := _rate_limit_last_call c;
     _min_wait := _min_wait c; _site := _site c;
     __supported_languages := __supported_languages c;
     __available_languages := __available_languages c;
     _cache := _cache c; _refresh_interval := _refresh_interval c;
     _use_cache := _use_cache c; _is_logged_in := _is_logged_in c |}.

Definition with_api_url (v : string) (c : Client) : Client :=
  {| _lang := _lang c; _api_url := v; _cat_prefix := _cat_prefix c;
     _rate_limit := _rate_limit c; _rate_limit_last_call := _rate_limit_last_call c;
     _min_wait := _min_wait c; _site := _site c;
     __supported_languages := __supported_languages c;
     __available_languages := __available_languages c;
     _cache := _cache c; _refresh_interval := _refresh_interval c;
     _use_cache := _use_cache c; _is_logged_in := _is_logged_in c |}.

Definition with_cat_prefix (v : string) (c : Client) : Client :=
  {| _lang := _lang c; _api_url := _api_url c; _cat_prefix := v;
     _rate_limit := _rate_limit c; _rate_limit_last_call := _rate_limit_last_call c;
     _min_wait := _min_wait c; _site := _site c;
     __supported_languages := __supported_languages c;
     __available_languages := __available_languages c;
     _cache := _cache c; _refresh_interval := _refresh_interval c;
     _use_cache := _use_cache c; _is_logged_in := _is_logged_in c |}.

Definition with_rate_limit (v : bool) (c : Client) : Client :=
  {| _lang := _lang c; _api_url := _api_url c; _cat_prefix := _cat_prefix c;
     _rate_limit := v; _rate_limit_last_call := _rate_limit_last_call c;
     _min_wait := _min_wait c; _site := _site c;
     __supported_languages := __supported_languages c;
     __available_languages := __available_languages c;
     _cache := _cache c; _refresh_interval := _refresh_interval c;
     _use_cache := _use_cache c; _is_logged_in := _is_logged_in c |}.

Definition with_rate_limit_last_call (v : option Z) (c : Client) : Client :=
  {| _lang := _lang c; _api_url := _api_url c; _cat_prefix := _cat_prefix c;
     _rate_limit := _rate_limit c; _rate_limit_last_call := v;
     _min_wait := _min_wait c; _site := _site c;
     __supported_languages := __supported_languages c;
     __available_languages := __available_languages c;
     _cache := _cache c; _refresh_interval := _refresh_interval c;
     _use_cache := _use_cache c; _is_logged_in := _is_logged_in c |}.

Definition with_min_wait (v : Z) (c : Client) : Client :=
  {| _lang := _lang c; _api_url := _api_url c; _cat_prefix := _cat_prefix c;
     _rate_limit := _rate_limit c; _rate_limit_last_call := _rate_limit_last_call c;
     _min_wait := v; _site := _site c;
     __supported_languages := __supported_languages c;
     __available_languages := __available_languages c;
     _cache := _cache c; _refresh_interval := _refresh_interval c;
     _use_cache := _use_cache c; _is_logged_in := _is_logged_in c |}.

Definition with_site (v : SiteInfo) (c : Client) : Client :=
  {| _lang := _lang c; _api_url := _api_url c; _cat_prefix := _cat_prefix c;
     _rate_limit := _rate_limit c; _rate_limit_last_call := _rate_limit_last_call c;
     _min_wait := _min_wait c; _site := v;
     __supported_languages := __supported_languages c;
     __available_languages := __available_languages c;
     _cache := _cache c; _refresh_interval := _refresh_interval c;
     _use_cache := _use_cache c; _is_logged_in := _is_logged_in c |}.

Definition with_languages_reset (c : Client) : Client :=
  {| _lang := _lang c; _api_url := _api_url c; _cat_prefix := _cat_prefix c;
     _rate_limit := _rate_limit c; _rate_limit_last_call := _rate_limit_last_call c;
     _min_wait := _min_wait c; _site := _site c;
     __supported_languages := None;
     __available_languages := None;
     _cache := _cache c; _refresh_interval := _refresh_interval c;
     _use_cache := _use_cache c; _is_logged_in := _is_logged_in c |}.

Definition with_cache (v : option Cache) (c : Client) : Client :=
  {| _lang := _lang c; _api_url := _api_url c; _cat_prefix := _cat_prefix c;
     _rate_limit := _rate_limit c; _rate_limit_last_call := _rate_limit_last_call c;
     _min_wait := _min_wait c; _site := _site c;
     __supported_languages := __supported_languages c;
     __available_languages := __available_languages c;
     _cache := v; _refresh_interval := _refresh_interval c;
     _use_cache := _use_cache c; _is_logged_in := _is_logged_in c |}.

Definition with_refresh_interval (v : option Z) (c : Client) : Client :=
  {| _lang := _lang c; _api_url := _api_url c; _cat_prefix := _cat_prefix c;
     _rate_limit := _rate_limit c; _rate_limit_last_call := _rate_limit_last_call c;
     _min_wait := _min_wait c; _site := _site c;
     __supported_languages := __supported_languages c;
     __available_languages := __available_languages c;
     _cache := _cache c; _refresh_interval := v;
     _use_cache := _use_cache c; _is_logged_in := _is_logged_in c |}.

Definition with_use_cache (v : bool) (c : Client) : Client :=
  {| _lang := _lang c; _api_url := _api_url c; _cat_prefix := _cat_prefix c;
     _rate_limit := _rate_limit c; _rate_limit_last_call := _rate_limit_last_call c;
     _min_wait := _min_wait c; _site := _site c;
     __supported_languages := __supported_languages c;
     __available_languages := __available_languages c;
     _cache := _cache c; _refresh_interval := _refresh_interval c;
     _use_cache := v; _is_logged_in := _is_logged_in c |}.

Definition with_is_logged_in (v : bool) (c : Client) : Client :=
  {| _lang := _lang c; _api_url := _api_url c; _cat_prefix := _cat_prefix c;
     _rate_limit := _rate_limit c; _rate_limit_last_call := _rate_limit_last_call c;
     _min_wait := _min_wait c; _site := _site c;
     __supported_languages := __supported_languages c;
     __available_languages := __available_languages c;
     _cache := _cache c; _refresh_interval := _refresh_interval c;
     _use_cache := _use_cache c; _is_logged_in := v |}.

(** *** The API as the client sees it *)

Inductive Method := GET | POST.

Record Request := {
  req_method : Method;
  req_url : string;
  req_params : Params
}.

(** One record of [query.categorymembers]. *)
Record Member := {
  m_type : string;
  m_title : string
}.

Record General := {
  g_generator : option string;
  g_server : option string;
  g_base : option string
}.

Record Query := {
  q_categorymembers : option (list Member);
  q_general : option General;
  q_extensions : option (list string);
  q_tokens : option (option string)
}.

Record Login := {
  lg_result : string;
  lg_reason : option string
}.

(** A decoded JSON object, as far as the code looks into it. [r_error] is
    the ["error"] object, holding its ["info"] when it has one. *)
Record Response := {
  r_error : option (option string);
  r_query : option Query;
  r_query_continue : option (gmap string Token);
  r_continue : option Token;
  r_login : option Login
}.

(** The empty dictionary [{}]. *)
Definition empty_response : Response :=
  {| r_error := None; r_query := None; r_query_continue := None;
     r_continue := None; r_login := None |}.

(** An element of a decoded JSON array (the opensearch answer). *)
Inductive Item :=
| IStr (s : string)
| IList (l : list string).

Inductive Body :=
| Dict (r : Response)
| Array (items : list Item).

(** What [session.get(...).json()] does: raises, fails to decode, or
    yields a body. *)
Inductive TransportResult :=
| Fails (e : exn)
| NotJson
| Json (b : Body).

(** The world outside the client: the requests sent so far (oldest
    first), the clock, the sleeps taken, and the notes left by the mocks
    of a test (see [counted]). *)
Record World := {
  sent : list Request;
  clock : Z;
  slept : list Z;
  noted : list string
}.

Record St := {
  self : Client;
  world : World
}.

Definition on_self (f : Client -> Client) (s : St) : St :=
  {| self := f (self s); world := world s |}.

Definition on_world (f : World -> World) (s : St) : St :=
  {| self := self s; world := f (world s) |}.

(** [time.time()] and [datetime.now()] *)
Definition now : M St Z := gets (fun s => clock (world s)).

(** [time.sleep(d)] *)
Definition sleep (d : Z) : M St unit :=
  modify (on_world (fun w =>
    {| sent := sent w; clock := clock w + d; slept := (slept w ++ [d])%list;
       noted := noted w |})).

Definition record_request (r : Request) (w : World) : World :=
  {| sent := (sent w ++ [r])%list; clock := clock w; slept := slept w;
     noted := noted w |}.

(** A mock notes that it was called. *)
Definition noted_state (x : string) (s : St) : St :=
  on_world (fun w =>
    {| sent := sent w; clock := clock w; slept := slept w;
       noted := (noted w ++ [x])%list |}) s.

Definition note (x : string) : M St unit := modify (noted_state x).

(** The mock of a test that counts calls: it notes one invocation under
    the name [x] and then runs [f]. *)
Definition counted {A} (x : string) (f : M St A) : M St A :=
  let* _ := note x in f.

(** How often [x] was noted. *)
Definition calls (x : string) (s : St) : nat :=
  length (filter (fun y => y = x) (noted (world s))).

(** ** Configuration (properties and setters of [MediaWiki]) *)

(** [clear_memoized]: [if hasattr(self, "_cache"): self._cache.clear()] *)
Definition clear_memoized (c : Client) : Client :=
  match _cache c with
  | Some _ => with_cache (Some ∅) c
  | None => c
  end.

(** The [rate_limit] setter; [rate_limit] is [bool(rate_limit)] of the
    assigned value. *)
Definition set_rate_limit (rate_limit : bool) (c : Client) : Client :=
  clear_memoized (with_rate_limit_last_call None (with_rate_limit rate_limit c)).

(** The [use_cache] setter. *)
Definition set_use_cache (use_cache : bool) (c : Client) : Client :=
  with_use_cache use_cache c.

(** The [rate_limit_min_wait] setter. *)
Definition set_rate_limit_min_wait (min_wait : Z) (c : Client) : Client :=
  with_rate_limit_last_call None (with_min_wait min_wait c).

(** The [refresh_interval] setter; the argument is [Some n] for an [int]
    and [None] for anything else. *)
Definition set_refresh_interval (refresh_interval : option Z) (c : Client) : Client :=
  match refresh_interval with
  | Some n => if 0 <? n then with_refresh_interval (Some n) c
              else with_refresh_interval None c
  | None => with_refresh_interval None c
  end.

(** The [language] setter. *)
Definition set_language (lang : string) (c : Client) : Client :=
  let lang := lower lang in
  if String.eqb (_lang c) lang then c
  else
    let url := _api_url c in
    let tmp := replace url ("/" +:+ _lang c +:+ ".") ("/" +:+ lang +:+ ".") in
    clear_memoized (with_lang lang (with_api_url tmp c)).

(** [s[-1:]] *)
Fixpoint last_char (s : string) : string :=
  match s with
  | EmptyString => EmptyString
  | String c EmptyString => s
  | String _ s' => last_char s'
  end.

(** [s[:-1]] *)
Fixpoint drop_last (s : string) : string :=
  match s with
  | EmptyString => EmptyString
  | String c EmptyString => EmptyString
  | String c s' => String c (drop_last s')
  end.

(** The [category_prefix] setter. *)
Definition set_category_prefix (prefix : string) (c : Client) : Client :=
  let prefix := if String.eqb (last_char prefix) ":" then drop_last prefix else prefix in
  with_cat_prefix prefix c.

(** ** Static checks *)

(** [_check_error_response(response, query)] *)
Definition http_error : list string :=
  ["HTTP request timed out."; "Pool queue is full"].

Definition geo_error : list string :=
  ["Page coordinates unknown.";
   "One of the parameters gscoord, gspage, gsbbox is required";
   "Invalid coordinate provided"].

Definition str_in (x : string) (l : list string) : bool :=
  existsb (String.eqb x) l.

Definition item_is (x : string) (i : Item) : bool :=
  match i with IStr s => String.eqb s x | IList _ => false end.

Definition _check_error_response {S} (response : Body) (query : option string) : M S unit :=
  match response with
  | Dict r =>
      match r_error r with
      | Some error =>
          let* err := subscript "info" error in
          if str_in err http_error then raise (HTTPTimeoutError query)
          else if str_in err geo_error then raise (MediaWikiGeoCoordError err)
          else raise (MediaWikiException err)
      | None => ret tt
      end
  | Array items =>
      (* ["error" in response] on a list is element membership, and the
         subscript [response["error"]] that follows is a type error *)
      if existsb (item_is "error") items then raise TypeError else ret tt
  end.

(** [_check_query(value, message)] *)
Definition _check_query {S} (value : option string) (message : string) : M S unit :=
  match value with
  | None => raise (ValueError message)
  | Some v => if String.eqb (strip v) "" then raise (ValueError message) else ret tt
  end.

(** [__category_parameter_verification(cats, depth, category)]; the
    message of the first error embeds the caller's argument, rendered by
    [shown]. *)
Definition category_msg (shown : string) : string :=
  "CategoryTree: Parameter 'category' must either be a list of one or more categories or a string; provided: '"
  +:+ shown +:+ "'".

Definition depth_msg : string :=
  "CategoryTree: Parameter 'depth' must be either None (for the full tree) or be greater than 0".

Definition is_none_or_empty (x : option string) : bool :=
  match x with
  | None => true
  | Some s => String.eqb s ""
  end.

Definition __category_parameter_verification {S}
    (cats : list (option string)) (depth : option Z) (shown : string) : M S unit :=
  match cats with
  | [c0] =>
      if is_none_or_empty c0 then raise (ValueError (category_msg shown))
      else match depth with
           | Some d => if d <? 1 then raise (ValueError depth_msg) else ret tt
           | None => ret tt
           end
  | _ =>
      match depth with
      | Some d => if d <? 1 then raise (ValueError depth_msg) else ret tt
      | None => ret tt
      end
  end.

(** [for x in l: acc = f(acc, x)] with effects. *)
Fixpoint foldM {S A B} (f : A -> B -> M S A) (l : list B) (a : A) : M S A :=
  match l with
  | [] => ret a
  | x :: l' => let* a' := f a x in foldM f l' a'
  end.

(** ** The request executor *)

Section Requests.

(** The HTTP session: what a request answers in a given world. *)
Variable transport : World -> Request -> TransportResult.

(** [_get_response] and [_post_response]: a JSON decoding failure gives
    the empty dictionary, any other exception of the transport goes
    through. *)
Definition send (m : Method) (params : Params) : M St Body :=
  fun s =>
    let req := {| req_method := m; req_url := _api_url (self s); req_params := params |} in
    let s' := on_world (record_request req) s in
    match transport (world s) req with
    | Fails e => (Raise e, s')
    | NotJson => (Ok (Dict empty_response), s')
    | Json b => (Ok b, s')
    end.

Definition _get_response (params : Params) : M St Body := send GET params.

Definition _post_response (params : Params) : M St Body := send POST params.

(** [wiki_request(params)] *)
Definition wiki_request (params : Params) : M St Body :=
  let params := <["format" := PyStr "json"]> params in
  let params :=
    match params !! "action" with
    | Some _ => params
    | None => <["action" := PyStr "query"]> params
    end in
  let* c := gets self in
  let* _ :=
    (if _rate_limit c then
       match _rate_limit_last_call c with
       | Some last_call =>
           let* t := now in
           if t <? last_call + _min_wait c then
             let* t' := now in sleep ((last_call + _min_wait c) - t')
           else ret tt
       | None => ret tt
       end
     else ret tt) in
  let* req := _get_response params in
  let* c' := gets self in
  let* _ :=
    (if _rate_limit c' then
       let* t := now in modify (on_self (with_rate_limit_last_call (Some t)))
     else ret tt) in
  ret req.

(** ** [utilities.memoize] *)

Section Memoize.

(** [func.__name__], the defaults of the named parameters of [func]
    ([parse_all_arguments(func)]), and [func] itself, which receives
    [args[1:]] and [kwargs]; [args[0]] is the client in the state. *)
Variable name : string.
Variable signature : gmap string PyVal.
Variable func : list PyVal -> list (string * PyVal) -> M St Value.

(** [args[0].memoized].  The dictionary is only ever mutated in place, so
    the local alias [cache] of the source is the current [_cache]. *)
Definition memoized : M St Cache :=
  fun s =>
    match _cache (self s) with
    | Some c => (Ok c, s)
    | None => (Raise (AttributeError "_cache"), s)
    end.

Definition set_memoized (c : Cache) : M St unit :=
  modify (on_self (with_cache (Some c))).

(** The block run when [func.__name__ not in cache].  The typed cache
    cannot hold an operation called ["defaults"]; none is. *)
Definition init_partitions (cache : Cache) : M St unit :=
  let c1 := <[name := Entries ∅]> cache in
  let c2 :=
    match c1 !! "defaults" with
    | Some _ => c1
    | None => <["defaults" := Defaults ∅]> c1
    end in
  match c2 !! "defaults" with
  | Some (Defaults d) => set_memoized (<["defaults" := Defaults (<[name := signature]> d)]> c2)
  | _ => raise TypeError
  end.

(** [cache["defaults"][func.__name__].copy()] *)
Definition lookup_defaults : M St (gmap string PyVal) :=
  let* cache := memoized in
  let* part := subscript "defaults" (cache !! "defaults") in
  match part with
  | Defaults d => subscript name (d !! name)
  | Entries _ => raise (KeyError name)
  end.

(** [cache[func.__name__]] *)
Definition lookup_entries : M St (gmap string (Z * Value)) :=
  let* cache := memoized in
  let* part := subscript name (cache !! name) in
  match part with
  | Entries m => ret m
  | Defaults _ => raise TypeError
  end.

(** The key: the positional arguments, then ["(k: v)"] for every named
    parameter in sorted order, all joined by [" - "]. *)
Definition update_all (d : gmap string PyVal) (kwargs : list (string * PyVal)) : gmap string PyVal :=
  fold_left (fun d kv => <[kv.1 := kv.2]> d) kwargs d.

Definition make_key (defaults : gmap string PyVal) (args : list PyVal)
    (kwargs : list (string * PyVal)) : string :=
  let defaults := update_all defaults kwargs in
  let named :=
    omap (fun k => (fun v => "(" +:+ k +:+ ": " +:+ str v +:+ ")") <$> defaults !! k)
         (sorted ((map_to_list defaults).*1)) in
  join " - " ((str <$> args) ++ named)%list.

(** [cache[func.__name__][key] = (time.time(), func(args, kwargs))] *)
Definition compute_and_store (args : list PyVal) (kwargs : list (string * PyVal))
    (key : string) : M St unit :=
  let* t := now in
  let* v := func args kwargs in
  let* cache := memoized in
  let* m := lookup_entries in
  set_memoized (<[name := Entries (<[key := (t, v)]> m)]> cache).

(** [wrapper] with [args[1:]] and [kwargs] *)
Definition wrapper (args : list PyVal) (kwargs : list (string * PyVal)) : M St Value :=
  let* cache := memoized in
  let* refresh := gets (fun s => _refresh_interval (self s)) in
  let* use_cache := gets (fun s => _use_cache (self s)) in
  if negb use_cache then func args kwargs
  else
    let* _ :=
      (match cache !! name with
       | Some _ => ret tt
       | None => init_partitions cache
       end) in
    let* defaults := lookup_defaults in
    let key := make_key defaults args kwargs in
    let* m := lookup_entries in
    let* _ :=
      (match m !! key with
       | None => compute_and_store args kwargs key
       | Some tmp =>
           match refresh with
           | Some r =>
               let* t := now in
               if r <? t - tmp.1 then compute_and_store args kwargs key else ret tt
           | None => ret tt
           end
       end) in
    let* m' := lookup_entries in
    let* entry := subscript key (m' !! key) in
    ret entry.2.

End Memoize.

(** ** [categorymembers] *)

Definition max_pull : Z := 500.

(** The variables of the pagination loop. *)
Record Paging := {
  search_params : Params;
  pages : list string;
  subcats : list string;
  returned_results : Z;
  finished : bool;
  last_cont : Token
}.

(** The [for rec in ...] loop that sorts the records of one answer. *)
Definition collect (prefix : string) (acc : list string * list string) (rec : Member)
    : list string * list string :=
  if (String.eqb (m_type rec) "page" || String.eqb (m_type rec) "file")%bool then
    ((acc.1 ++ [m_title rec])%list, acc.2)
  else if String.eqb (m_type rec) "subcat" then
    let tmp := m_title rec in
    let tmp := if startswith tmp prefix then drop_chars (String.length prefix + 1) tmp else tmp in
    (acc.1, (acc.2 ++ [tmp])%list)
  else acc.

(** The continuation token of an answer, [None] for the [False] that
    [dict.get] defaults to. *)
Definition next_cont (r : Response) : option Token :=
  match r_query_continue r with
  | Some cont =>
      match cont !! "categorymembers" with
      | Some c => Some c
      | None => r_continue r
      end
  | None => r_continue r
  end.

Inductive Ctl := Break | EndOfBody.

(** One run of the body of [while not finished]. *)
Definition paging_body (category : string) (results : option Z) (p : Paging)
    : M St (Ctl * Paging) :=
  let params := last_cont p ∪ search_params p in
  let* raw_res := wiki_request params in
  let* _ := _check_error_response raw_res (Some category) in
  match raw_res with
  | Array _ => raise TypeError
  | Dict r =>
      let* query := subscript "query" (r_query r) in
      let* members := subscript "categorymembers" (q_categorymembers query) in
      let* prefix := gets (fun s => _cat_prefix (self s)) in
      let current_pull := Z.of_nat (length members) in
      let collected := fold_left (collect prefix) members (pages p, subcats p) in
      let p1 :=
        {| search_params := search_params p; pages := collected.1; subcats := collected.2;
           returned_results := returned_results p; finished := finished p;
           last_cont := last_cont p |} in
      match next_cont r with
      | None => ret (Break, p1)
      | Some cont =>
          if decide (last_cont p = cont) then ret (Break, p1)
          else
            let returned := returned_results p + current_pull in
            let go_on :=
              match results with
              | None => true
              | Some n => 0 <? n - returned
              end in
            let limit :=
              match results with
              | Some n =>
                  if n - returned <? max_pull
                  then <["cmlimit" := PyInt (n - returned)]> (search_params p)
                  else search_params p
              | None => search_params p
              end in
            ret (EndOfBody,
                 {| search_params := limit; pages := collected.1; subcats := collected.2;
                    returned_results := returned;
                    finished := if go_on then finished p else true;
                    last_cont := if go_on then cont else last_cont p |})
      end
  end.

(** [while not finished: ...]; [fuel] bounds the number of requests. *)
Fixpoint paging_loop (fuel : nat) (category : string) (results : option Z) (p : Paging)
    : M St Paging :=
  if finished p then ret p
  else
    match fuel with
    | O => fun s => (Diverge, s)
    | S fuel' =>
        let* '(ctl, p') := paging_body category results p in
        match ctl with
        | Break => ret p'
        | EndOfBody => paging_loop fuel' category results p'
        end
    end.

Definition initial_paging (prefix category : string) (results : option Z)
    (subcategories : bool) : Paging :=
  {| search_params :=
       <["list" := PyStr "categorymembers"]>
       (<["cmprop" := PyStr "ids|title|type"]>
       (<["cmtype" := PyStr (if subcategories then "page|subcat|file" else "page|file")]>
       (<["cmlimit" := PyInt (match results with
                              | Some n => Z.min n max_pull
                              | None => max_pull
                              end)]>
       (<["cmtitle" := PyStr (prefix +:+ ":" +:+ category)]> ∅))));
     pages := []; subcats := []; returned_results := 0; finished := false;
     last_cont := ∅ |}.

(** The body of [categorymembers(category, results, subcategories)]. *)
Definition categorymembers (fuel : nat) (category : option string) (results : option Z)
    (subcategories : bool) : M St Value :=
  let* _ := _check_query category "Category must be specified" in
  match category with
  | None => raise (ValueError "Category must be specified")
  | Some cat =>
      let* prefix := gets (fun s => _cat_prefix (self s)) in
      let* p := paging_loop fuel cat results (initial_paging prefix cat results subcategories) in
      ret (if subcategories then VPair (pages p) (subcats p) else VList (pages p))
  end.

(** The binding of the positional and keyword arguments of a call to the
    parameters [(category, results=10, subcategories=True)].  An argument
    of another type than the parameter's is the [TypeError] case. *)
Definition bind_param (i : nat) (pname : string) (default : option PyVal)
    (args : list PyVal) (kwargs : list (string * PyVal)) : option PyVal :=
  match args !! i, (list_to_map kwargs : gmap string PyVal) !! pname with
  | Some v, None => Some v
  | None, Some v => Some v
  | None, None => default
  | Some _, Some _ => None
  end.

Definition as_opt_string (v : PyVal) : option (option string) :=
  match v with
  | PyNone => Some None
  | PyStr s => Some (Some s)
  | _ => None
  end.

Definition as_opt_int (v : PyVal) : option (option Z) :=
  match v with
  | PyNone => Some None
  | PyInt z => Some (Some z)
  | _ => None
  end.

Definition categorymembers_defaults : gmap string PyVal :=
  <["results" := PyInt 10]> (<["subcategories" := PyBool true]> ∅).

Definition categorymembers_call (fuel : nat) (args : list PyVal)
    (kwargs : list (string * PyVal)) : M St Value :=
  match bind_param 0 "category" None args kwargs ≫= as_opt_string,
        bind_param 1 "results" (Some (PyInt 10)) args kwargs ≫= as_opt_int,
        bind_param 2 "subcategories" (Some (PyBool true)) args kwargs with
  | Some category, Some results, Some subcategories =>
      if (Nat.leb (length args) 3) then
        categorymembers fuel category results (truthy subcategories)
      else raise TypeError
  | _, _, _ => raise TypeError
  end.

(** The public operation: [@memoize def categorymembers(...)]. *)
Definition memo_categorymembers (fuel : nat) (args : list PyVal)
    (kwargs : list (string * PyVal)) : M St Value :=
  wrapper "categorymembers" categorymembers_defaults (categorymembers_call fuel) args kwargs.

(** ** [opensearch] *)

Fixpoint chars (s : string) : list string :=
  match s with
  | EmptyString => []
  | String c s' => String c EmptyString :: chars s'
  end.

(** The elements of an item when it is iterated or indexed. *)
Definition elems (i : Item) : list string :=
  match i with
  | IStr s => chars s
  | IList l => l
  end.

(** [results[n]] *)
Definition index {S} (response : Body) (n : nat) : M S Item :=
  match response with
  | Dict _ => raise (KeyError (pretty n))
  | Array items =>
      match items !! n with
      | Some i => ret i
      | None => raise IndexError
      end
  end.

Definition elem_at {S} (i : Item) (n : nat) : M S string :=
  match elems i !! n with
  | Some x => ret x
  | None => raise IndexError
  end.

(** The body of [opensearch(query, results, redirect)]. *)
Definition opensearch (query : option string) (results : option Z) (redirect : bool)
    : M St Value :=
  let* _ := _check_query query "Query must be specified" in
  match query with
  | None => raise (ValueError "Query must be specified")
  | Some q =>
      let query_params : Params :=
        <["action" := PyStr "opensearch"]>
        (<["search" := PyStr q]>
        (<["limit" := PyInt (match results with
                             | Some n => Z.min n max_pull
                             | None => max_pull
                             end)]>
        (<["redirects" := PyStr (if redirect then "resolve" else "return")]>
        (<["warningsaserror" := PyBool true]>
        (<["namespace" := PyStr ""]> ∅))))) in
      let* results := wiki_request query_params in
      let* _ := _check_error_response results query in
      let* titles := index results 1 in
      let* rows :=
        foldM (fun acc (it : nat * string) =>
                 let* r2 := index results 2 in
                 let* d := elem_at r2 it.1 in
                 let* r3 := index results 3 in
                 let* u := elem_at r3 it.1 in
                 ret (acc ++ [(it.2, d, u)])%list)
              (imap (fun i x => (i, x)) (elems titles)) [] in
      ret (VRows rows)
  end.

Definition opensearch_defaults : gmap string PyVal :=
  <["results" := PyInt 10]> (<["redirect" := PyBool true]> ∅).

Definition opensearch_call (args : list PyVal) (kwargs : list (string * PyVal)) : M St Value :=
  match bind_param 0 "query" None args kwargs ≫= as_opt_string,
        bind_param 1 "results" (Some (PyInt 10)) args kwargs ≫= as_opt_int,
        bind_param 2 "redirect" (Some (PyBool true)) args kwargs with
  | Some query, Some results, Some redirect =>
      if (Nat.leb (length args) 3) then opensearch query results (truthy redirect)
      else raise TypeError
  | _, _, _ => raise TypeError
  end.

(** The public operation: [@memoize def opensearch(...)]. *)
Definition memo_opensearch (args : list PyVal) (kwargs : list (string * PyVal)) : M St Value :=
  wrapper "opensearch" opensearch_defaults opensearch_call args kwargs.

(** ** Logging in and site information *)

(** [login(username, password, strict)] *)
Definition login (username password : string) (strict : bool) : M St bool :=
  let params : Params :=
    <["action" := PyStr "query"]> (<["meta" := PyStr "tokens"]>
    (<["type" := PyStr "login"]> (<["format" := PyStr "json"]> ∅))) in
  let* token_res := _get_response params in
  let* token :=
    (match token_res with
     | Dict r =>
         match r_query r with
         | Some q =>
             match q_tokens q with
             | Some tokens => subscript "logintoken" tokens
             | None => raise (UnboundLocalError "token")
             end
         | None => raise (UnboundLocalError "token")
         end
     | Array items =>
         if existsb (item_is "query") items then raise TypeError
         else raise (UnboundLocalError "token")
     end) in
  let params : Params :=
    <["action" := PyStr "login"]> (<["lgname" := PyStr username]>
    (<["lgpassword" := PyStr password]> (<["lgtoken" := PyStr token]>
    (<["format" := PyStr "json"]> ∅)))) in
  let* res := _post_response params in
  match res with
  | Array _ => raise TypeError
  | Dict r =>
      let* lg := subscript "login" (r_login r) in
      if String.eqb (lg_result lg) "Success" then
        let* _ := modify (on_self (with_is_logged_in true)) in ret true
      else
        let* _ := modify (on_self (with_is_logged_in false)) in
        if strict then
          let* reason := subscript "reason" (lg_reason lg) in
          raise (MediaWikiLoginError ("MediaWiki login failure: " +:+ reason))
        else ret false
  end.

(** [[int(item) for item in major_minor]] *)
Fixpoint parse_ints {S} (l : list string) : M S (list Z) :=
  match l with
  | [] => ret []
  | x :: l' =>
      match parse_int x with
      | Some z => let* zs := parse_ints l' in ret (z :: zs)
      | None => raise (ValueError ("invalid literal for int() with base 10: '" +:+ x +:+ "'"))
      end
  end.

(** [_get_site_info()]; the attributes are assigned as the source assigns
    them, so that a failure half-way leaves the earlier ones set. *)
Definition _get_site_info : M St unit :=
  let* response :=
    wiki_request (<["meta" := PyStr "siteinfo"]> (<["siprop" := PyStr "extensions|general"]> ∅)) in
  match response with
  | Array _ => raise (AttributeError "get")
  | Dict r =>
      match r_query r ≫= (fun q => (fun g => (q, g)) <$> q_general q) with
      | None => raise (MediaWikiException "Missing query in response")
      | Some (query, gen) =>
          let* generator := subscript "generator" (g_generator gen) in
          let* second :=
            (match split_on " " generator !! 1%nat with
             | Some x => ret x
             | None => raise IndexError
             end) in
          let api_version := default "" (head (split_on "-" second)) in
          let* major_minor := parse_ints (split_on "." api_version) in
          let* _ := modify (on_self (fun c =>
            with_site {| _extensions := _extensions (_site c);
                         _api_version := Some major_minor;
                         _api_version_str := Some (join "." (pretty <$> major_minor));
                         _base_url := _base_url (_site c) |} c)) in
          let tmp := default "" (g_server gen) in
          if String.eqb tmp "" then raise (MediaWikiException "Unable to parse base url")
          else
            let* base_url :=
              (if (startswith tmp "http://" || startswith tmp "https://")%bool then ret tmp
               else
                 let* base := subscript "base" (g_base gen) in
                 if startswith base "https:" then ret ("https:" +:+ tmp)
                 else ret ("http:" +:+ tmp)) in
            let* _ := modify (on_self (fun c =>
              with_site {| _extensions := _extensions (_site c);
                           _api_version := _api_version (_site c);
                           _api_version_str := _api_version_str (_site c);
                           _base_url := Some base_url |} c)) in
            let* exts := subscript "extensions" (q_extensions query) in
            modify (on_self (fun c =>
              with_site {| _extensions := Some (sorted_set exts);
                           _api_version := _api_version (_site c);
                           _api_version_str := _api_version_str (_site c);
                           _base_url := _base_url (_site c) |} c))
      end
  end.

(** ** [set_api_url] *)

(** [isinstance(e, MediaWikiException)] for the library's other classes;
    [mediawiki/exceptions.py], which fixes it, is outside this
    development. *)
Variable derives_MediaWikiException : exn -> bool.

(** What [except (rex.ConnectTimeout, MediaWikiException)] catches. *)
Definition caught_by_set_api_url (e : exn) : bool :=
  match e with
  | ConnectTimeout => true
  | MediaWikiException _ => true
  | _ => (is_library_exn e && derives_MediaWikiException e)%bool
  end.

(** [api_url.format(lang=lang)] on a template whose only replacement
    field is the named field [lang]. *)
Definition format_lang (api_url lang : string) : string :=
  replace api_url "{lang}" lang.

(** The assignments before the [try] statement. *)
Definition switch_endpoint (api_url lang : string) (s : St) : St :=
  let s1 := on_self (with_lang (lower lang)) s in
  let s2 := on_self (with_api_url (format_lang api_url (_lang (self s1)))) s1 in
  on_self (with_is_logged_in false) s2.

(** The body of the [try] statement. *)
Definition validate_endpoint (username password : option string) : M St unit :=
  let* _ :=
    (match username, password with
     | Some u, Some p => let* _ := login u p true in ret tt
     | _, _ => ret tt
     end) in
  let* _ := _get_site_info in
  modify (on_self with_languages_reset).

(** [set_api_url(api_url, lang, username, password)] *)
Definition set_api_url (api_url lang : string) (username password : option string)
    : M St unit :=
  fun s =>
    let old_api_url := _api_url (self s) in
    let old_lang := _lang (self s) in
    match validate_endpoint username password (switch_endpoint api_url lang s) with
    | (Ok _, s4) => (Ok tt, on_self clear_memoized s4)
    | (Raise e, s4) =>
        if caught_by_set_api_url e then
          (Raise (MediaWikiAPIURLError api_url),
           on_self (with_lang old_lang) (on_self (with_api_url old_api_url) s4))
        else (Raise e, s4)
    | (Diverge, s4) => (Diverge, s4)
    end.

End Requests.

(** ** The category tree *)

(** A node of the result: [None] stands for the placeholder stored for a
    subcategory that is not expanded. *)
#[local] Unset Elimination Schemes.
Inductive Node := {
  depth : Z;
  links : list string;
  parent_categories : list string;
  sub_categories : gmap string (option Node)
}.
#[local] Set Elimination Schemes.

Abbreviation Tree := (gmap string (option Node)).

(** [category] is a string (here also [None]) or a list of them. *)
Inductive CategoryArg :=
| One (c : option string)
| Many (l : list (option string)).

Section CategoryTree.

(** The two operations that the builder calls on the client:
    [self.page(title)], which yields a page object of the class
    [MediaWikiPage] (module [mediawikipage], outside this development)
    whose only use is its property [categories]; and
    [self.categorymembers(cat, results=None, subcategories=True)]. *)
Variable Page : Type.
Variable page : string -> M St Page.
Variable page_categories : Page -> M St (list string).
Variable categorymembers_all : string -> M St (list string * list string).

(** The state of one call of [categorytree]: the client and the world, the
    two dictionaries [categories] and [links] shared by the whole
    recursion, and the list of the categories for which a fetch was
    started, one entry per attempt (kept for the statements only). *)
Record Run := {
  st : St;
  categories : gmap string Page;
  run_links : gmap string (list string * list string);
  fetches : list string
}.

Definition lift {A} (m : M St A) : M Run A :=
  fun r =>
    let '(o, s') := m (st r) in
    (o, {| st := s'; categories := categories r; run_links := run_links r;
           fetches := fetches r |}).

Definition note_fetch (cat : string) : M Run unit :=
  modify (fun r =>
    {| st := st r; categories := categories r; run_links := run_links r;
       fetches := (fetches r ++ [cat])%list |}).

Definition set_category (cat : string) (pag : Page) : M Run unit :=
  modify (fun r =>
    {| st := st r; categories := <[cat := pag]> (categories r);
       run_links := run_links r; fetches := fetches r |}).

Definition set_links (cat : string) (l : list string * list string) : M Run unit :=
  modify (fun r =>
    {| st := st r; categories := categories r;
       run_links := <[cat := l]> (run_links r); fetches := fetches r |}).

Definition prefixed (cat : string) : M Run string :=
  gets (fun r => _cat_prefix (self (st r)) +:+ ":" +:+ cat).

(** The body of the [try] statement. *)
Definition attempt (cat : string) : M Run (list string) :=
  let* _ := note_fetch cat in
  let* title := prefixed cat in
  let* pag := lift (page title) in
  let* _ := set_category cat pag in
  let* parent_cats := lift (page_categories pag) in
  let* l := lift (categorymembers_all cat) in
  let* _ := set_links cat l in
  ret parent_cats.

(** [while True: ...] around it, with the handlers in the order of the
    source.  [tries] never exceeds 11, so twelve rounds of [fuel] are
    enough. *)
Fixpoint fetch_loop (fuel : nat) (cat : string) (tries : Z) : M Run (list string) :=
  match fuel with
  | O => fun r => (Diverge, r)
  | S fuel' =>
      if 10 <? tries then raise (MediaWikiCategoryTreeError cat)
      else
        fun r =>
          match attempt cat r with
          | (Ok parent_cats, r') => (Ok parent_cats, r')
          | (Raise e, r') =>
              if is_PageError e then
                (let* title := prefixed cat in raise (PageError title)) r'
              else if is_KeyboardInterrupt e then (Raise e, r')
              else if is_Exception e then
                (let* _ := lift (sleep 1) in fetch_loop fuel' cat (tries + 1)) r'
              else (Raise e, r')
          | (Diverge, r') => (Diverge, r')
          end
  end.

(** [if depth and level >= depth] *)
Definition at_depth_limit (depth : option Z) (level : Z) : bool :=
  match depth with
  | Some d => (negb (d =? 0) && (d <=? level))%bool
  | None => false
  end.

Definition placeholders (subs : list string) : Tree :=
  fold_left (fun t ctg => <[ctg := None]> t) subs ∅.

(** [__cat_tree_rec(cat, depth, tree, level, categories, links)]: the
    dictionary [tree] is returned with the entry of [cat] set.  [fuel]
    bounds the depth of the recursion. *)
Fixpoint __cat_tree_rec (fuel : nat) (cat : string) (depth : option Z) (tree : Tree)
    (level : Z) : M Run Tree :=
  match fuel with
  | O => fun r => (Diverge, r)
  | S fuel' =>
      let* known := gets categories in
      let* parent_cats :=
        (match known !! cat with
         | None => fetch_loop 12 cat 0
         | Some pag => lift (page_categories pag)
         end) in
      let* all_links := gets run_links in
      let* l := subscript cat (all_links !! cat) in
      let* sub :=
        (if at_depth_limit depth level then ret (placeholders l.2)
         else
           foldM (fun t ctg => __cat_tree_rec fuel' ctg depth t (level + 1)) l.2 ∅) in
      ret (<[cat := Some {| depth := level; links := l.1;
                            parent_categories := parent_cats;
                            sub_categories := sub |}]> tree)
  end.

(** [str(category)] inside the error message, for a string or [None]; a
    list is shown by its elements. *)
Definition shown_one (c : option string) : string :=
  match c with
  | Some s => s
  | None => "None"
  end.

Definition shown (category : CategoryArg) : string :=
  match category with
  | One c => shown_one c
  | Many l =>
      "[" +:+ join ", " ((fun c => match c with
                                  | Some s => "'" +:+ s +:+ "'"
                                  | None => "None"
                                  end) <$> l) +:+ "]"
  end.

(** [[x for x in cats if x]] *)
Definition non_empty (cats : list (option string)) : list string :=
  omap (fun c => match c with
                 | Some s => if String.eqb s "" then None else Some s
                 | None => None
                 end) cats.

Definition new_run (s : St) : Run :=
  {| st := s; categories := ∅; run_links := ∅; fetches := [] |}.

(** [categorytree(category, depth)], together with the final state of
    the run. *)
Definition categorytree_run (fuel : nat) (category : CategoryArg) (depth : option Z)
    : M Run Tree :=
  let cats := match category with One c => [c] | Many l => l end in
  let* _ := __category_parameter_verification cats depth (shown category) in
  foldM (fun results cat => __cat_tree_rec fuel cat depth results 0) (non_empty cats) ∅.

Definition categorytree (fuel : nat) (category : CategoryArg) (depth : option Z)
    : M St Tree :=
  fun s =>
    let '(o, r) := categorytree_run fuel category depth (new_run s) in (o, st r).

End CategoryTree.

(** ** Environments for the statements *)

Definition no_site : SiteInfo :=
  {| _extensions := None; _api_version := None; _api_version_str := None;
     _base_url := None |}.

(** A freshly constructed client of the English Wikipedia. *)
Definition client_en : Client :=
  {| _lang := "en"; _api_url := "https://en.wikipedia.org/w/api.php";
     _cat_prefix := "Category"; _rate_limit := false;
     _rate_limit_last_call := None; _min_wait := 50; _site := no_site;
     __supported_languages := None; __available_languages := None;
     _cache := Some ∅; _refresh_interval := None; _use_cache := true;
     _is_logged_in := false |}.

Definition world0 : World :=
  {| sent := []; clock := 0; slept := []; noted := [] |}.

Definition state0 : St := {| self := client_en; world := world0 |}.

(** *** A wiki whose fetches always succeed *)

Record Wiki := {
  parents_of : string -> list string;
  pages_of : string -> list string;
  subcats_of : string -> list string
}.

Section StaticWiki.

Variable w : Wiki.

(** The page object is the title it was asked for. *)
Definition wiki_page (title : string) : M St string := ret title.

Definition wiki_page_categories (pag : string) : M St (list string) :=
  ret (parents_of w pag).

(** The answer of the member fetch, read from the table.  The call that
    the client makes, [categorymembers_all_of] below, also checks the
    name, goes through the cache and sends requests: the table stands
    for the answers of that call where it succeeds, and leaves out what
    the call does to the cache and to the world. *)
Definition wiki_members (cat : string) : M St (list string * list string) :=
  ret (pages_of w cat, subcats_of w cat).

Definition wiki_tree_run (fuel : nat) (category : CategoryArg) (depth : option Z)
    : M (Run string) Tree :=
  categorytree_run string wiki_page wiki_page_categories wiki_members fuel category depth.

(** What a fetch of [cat] puts in a node. *)
Definition node_of (prefix : string) (level : Z) (cat : string) (sub : Tree) : Node :=
  {| depth := level; links := pages_of w cat;
     parent_categories := parents_of w (prefix +:+ ":" +:+ cat);
     sub_categories := sub |}.

(** The node of [cat] at [level] with [n] more levels expanded below
    it. *)
Fixpoint expanded (prefix : string) (n : nat) (level : Z) (cat : string) : Node :=
  node_of prefix level cat
    match n with
    | O => placeholders (subcats_of w cat)
    | S n' =>
        fold_left (fun t ctg => <[ctg := Some (expanded prefix n' (level + 1) ctg)]> t)
                  (subcats_of w cat) ∅
    end.

(** The categories within [n] steps of [cat]. *)
Fixpoint within (n : nat) (cat : string) : list string :=
  cat ::
  match n with
  | O => []
  | S n' => flat_map (within n') (subcats_of w cat)
  end.

End StaticWiki.

(** A:B, B:C, C has no subcategory; each has one page. *)
Definition chain_wiki : Wiki :=
  {| parents_of := fun _ => [];
     pages_of := fun c => [c +:+ " page"];
     subcats_of := fun c =>
       if String.eqb c "A" then ["B"]
       else if String.eqb c "B" then ["C"]
       else [] |}.

(** *** Fetches that fail *)

(** A page fetch that raises [e] until [n] sleeps have been taken. *)
Definition flaky_page (n : nat) (e : exn) (title : string) : M St string :=
  fun s =>
    if Nat.ltb (length (slept (world s))) n then (Raise e, s) else (Ok title, s).

(** A page fetch that always raises [e]. *)
Definition failing_page (e : exn) (title : string) : M St string := raise e.

Definition flaky_tree_run (n : nat) (e : exn) (fuel : nat) (category : CategoryArg)
    (depth : option Z) : M (Run string) Tree :=
  categorytree_run string (flaky_page n e) (wiki_page_categories chain_wiki)
    (wiki_members chain_wiki) fuel category depth.

(** *** A well-behaved category listing *)

(** The server of one category that holds the records [src]: it answers
    the next [cmlimit] (at most 500) records of the requested types,
    starting at the offset of the continuation, and hands out a
    continuation exactly when records remain. *)
Definition requested (types : string) (m : Member) : bool :=
  str_in (m_type m) (split_on "|" types).

Definition offset_token (off : nat) : Token :=
  <["cmcontinue" := PyInt (Z.of_nat off)]> (<["continue" := PyStr "-||"]> ∅).

Definition listing_answer (src : list Member) (params : Params) : Response :=
  let off :=
    match params !! "cmcontinue" with
    | Some (PyInt o) => Z.to_nat o
    | _ => O
    end in
  let limit :=
    match params !! "cmlimit" with
    | Some (PyInt l) => Z.to_nat (Z.min l 500)
    | _ => 10%nat
    end in
  let types :=
    match params !! "cmtype" with
    | Some (PyStr t) => t
    | _ => "page|subcat|file"
    end in
  let visible := List.filter (requested types) src in
  let answer := take limit (drop off visible) in
  {| r_error := None;
     r_query := Some {| q_categorymembers := Some answer; q_general := None;
                        q_extensions := None; q_tokens := None |};
     r_query_continue := None;
     r_continue :=
       if Nat.ltb (off + length answer) (length visible)
       then Some (offset_token (off + length answer)) else None;
     r_login := None |}.

Definition listing_transport (src : list Member) : World -> Request -> TransportResult :=
  fun _ req => Json (Dict (listing_answer src (req_params req))).

(** The titles a listing of [l] yields. *)
Definition page_titles (l : list Member) : list string :=
  m_title <$> List.filter (fun m => (String.eqb (m_type m) "page" || String.eqb (m_type m) "file")%bool) l.

Definition subcat_names (prefix : string) (l : list Member) : list string :=
  (fun m => if startswith (m_title m) prefix
            then drop_chars (String.length prefix + 1) (m_title m)
            else m_title m)
    <$> List.filter (fun m => String.eqb (m_type m) "subcat") l.

Definition member (ty title : string) : Member := {| m_type := ty; m_title := title |}.

Definition fruit : list Member :=
  [member "page" "Apple"; member "subcat" "Category:Citrus";
   member "page" "Banana"; member "file" "File:Fruit.png";
   member "page" "Cherry"].

(** *** Transports that fail or go round in circles *)

(** No route to the host. *)
Definition unreachable : World -> Request -> TransportResult :=
  fun _ _ => Fails ConnectionError.

(** A host that does not speak JSON. *)
Definition not_a_wiki : World -> Request -> TransportResult :=
  fun _ _ => NotJson.

(** A listing that answers one record and the same continuation token
    for ever. *)
Definition stuck_answer : Response :=
  {| r_error := None;
     r_query := Some {| q_categorymembers := Some [member "page" "Apple"];
                        q_general := None; q_extensions := None; q_tokens := None |};
     r_query_continue := None;
     r_continue := Some (offset_token 1);
     r_login := None |}.

Definition stuck_transport : World -> Request -> TransportResult :=
  fun _ _ => Json (Dict stuck_answer).

(** A compute function for the memoization statements: it takes one
    time unit and returns a constant. *)
Definition constant_op (v : Value) (args : list PyVal) (kwargs : list (string * PyVal))
    : M St Value :=
  let* _ := sleep 1 in ret v.

(** The run after [time.sleep(1)]. *)
Definition slept_one {Page : Type} (r : Run Page) : Run Page :=
  {| st := on_world (fun w =>
             {| sent := sent w; clock := clock w + 1; slept := (slept w ++ [1])%list;
                noted := noted w |}) (st Page r);
     categories := categories Page r; run_links := run_links Page r;
     fetches := fetches Page r |}.

(** The number of records an answer carries ([current_pull]). *)
Definition pull (r : Response) : Z :=
  match r_query r ≫= q_categorymembers with
  | Some members => Z.of_nat (length members)
  | None => 0
  end.

(** The parameters of the request that the loop sends next. *)
Definition next_params (p : Paging) : Params := last_cont p ∪ search_params p.

(** *** The view of one operation on the cache *)

(** [cache[name]] and [cache["defaults"][name]] of a client. *)
Definition own_entries (name : string) (c : Client) : option Partition :=
  _cache c ≫= (fun cache => cache !! name).

Definition own_defaults (name : string) (c : Client) : option (gmap string PyVal) :=
  _cache c ≫= (fun cache =>
    cache !! "defaults" ≫= (fun part =>
      match part with
      | Defaults d => d !! name
      | Entries _ => None
      end)).

(** Whether the cache holds a value for the call. *)
Definition is_cached (name : string) (args : list PyVal) (kwargs : list (string * PyVal))
    (c : Client) : bool :=
  match own_entries name c, own_defaults name c with
  | Some (Entries m), Some d => bool_decide (is_Some (m !! make_key d args kwargs))
  | _, _ => false
  end.

(** A compute function that leaves alone the cache settings, the
    partition and the defaults of the operation [name], and the count of
    the calls of [name] (it does not call the operation itself).  It may
    do anything else, also use other memoized operations. *)
Definition keeps_memo_of (name : string) (f : M St Value) : Prop :=
  ∀ s,
    _use_cache (self (f s).2) = _use_cache (self s)
    ∧ _refresh_interval (self (f s).2) = _refresh_interval (self s)
    ∧ own_entries name (self (f s).2) = own_entries name (self s)
    ∧ own_defaults name (self (f s).2) = own_defaults name (self s)
    ∧ calls name (f s).2 = calls name s.

(** *** Runs over a wiki whose fetches succeed *)

(** The run after the fetch of [cat]. *)
Definition fetched (w : Wiki) (cat : string) (r : Run string) : Run string :=
  {| st := st string r;
     categories :=
       <[cat := _cat_prefix (self (st string r)) +:+ ":" +:+ cat]> (categories string r);
     run_links := <[cat := (pages_of w cat, subcats_of w cat)]> (run_links string r);
     fetches := (fetches string r ++ [cat])%list |}.

(** The invariant of such a run that started in state [s]: the state is
    [s], no category was fetched twice, and the two dictionaries hold
    exactly the fetched categories. *)
Definition consistent_run (w : Wiki) (s : St) (r : Run string) : Prop :=
  st string r = s
  ∧ NoDup (fetches string r)
  ∧ ∀ c, (c ∈ fetches string r ->
            categories string r !! c = Some (_cat_prefix (self s) +:+ ":" +:+ c)
            ∧ run_links string r !! c = Some (pages_of w c, subcats_of w c))
         ∧ (c ∉ fetches string r -> categories string r !! c = None).

(** *** Runs against the category listing *)

(** The answer of the listing server for an offset, a limit and the
    requested types. *)
Definition listing_page (src : list Member) (off limit : nat) (types : string) : Response :=
  let visible := List.filter (requested types) src in
  let answer := take limit (drop off visible) in
  {| r_error := None;
     r_query := Some {| q_categorymembers := Some answer; q_general := None;
                        q_extensions := None; q_tokens := None |};
     r_query_continue := None;
     r_continue :=
       if Nat.ltb (off + length answer) (length visible)
       then Some (offset_token (off + length answer)) else None;
     r_login := None |}.

(** The invariant of the pagination loop against that server when [n]
    results are requested: after [off] records the loop goes on, it
    holds the titles of the first [off] records, its token is the one
    for [off], and the next request asks for the smaller of 500 and what
    is still missing. *)
Definition listing_state (src : list Member) (types prefix : string) (n : Z) (off : nat)
    (p : Paging) : Prop :=
  let visible := List.filter (requested types) src in
  finished p = false
  ∧ returned_results p = Z.of_nat off
  ∧ Z.of_nat off < n
  ∧ last_cont p = (if off is O then ∅ else offset_token off)
  ∧ search_params p !! "cmlimit" = Some (PyInt (Z.min (n - Z.of_nat off) 500))
  ∧ search_params p !! "cmtype" = Some (PyStr types)
  ∧ search_params p !! "cmcontinue" = None
  ∧ pages p = page_titles (take off visible)
  ∧ subcats p = subcat_names prefix (take off visible).

(** The partitions of a cache that was empty when the operation [name]
    with the defaults [signature] was first called. *)
Definition first_partitions (name : string) (signature : gmap string PyVal) : Cache :=
  <["defaults" := Defaults (<[name := signature]> ∅)]>
    (<["defaults" := Defaults ∅]> (<[name := Entries ∅]> ∅)).

(** The call [self.categorymembers(cat, results=None, subcategories=True)]
    of the tree builder, through the memoized operation. *)
Definition categorymembers_all_of (transport : World -> Request -> TransportResult)
    (fuel : nat) (cat : string) : M St (list string * list string) :=
  let* v := memo_categorymembers transport fuel [PyStr cat]
              [("results", PyNone); ("subcategories", PyBool true)] in
  match v with
  | VPair pages subcats => ret (pages, subcats)
  | _ => raise TypeError
  end.

(** *** Caches and calls for the statements on [memoize] *)

(** A cache as the wrapper of [name] builds it: the partition of [name],
    when there is one, holds entries and comes with the defaults of
    [name]; ["defaults"] holds defaults. *)
Definition memo_invariant (name : string) (c : Client) : Prop :=
  match _cache c with
  | None => False
  | Some cache =>
      match cache !! name with
      | None => match cache !! "defaults" with Some (Entries _) => False | _ => True end
      | Some (Entries _) => is_Some (own_defaults name c)
      | Some (Defaults _) => False
      end
  end.

(** *** [utilities.is_relative_url] *)

(** [s.find(sub)]: the index of the first occurrence of [sub] in [s],
    [-1] when there is none. *)
Fixpoint find_from (sub s : string) (i : Z) : Z :=
  match s with
  | EmptyString => if String.eqb sub "" then i else -1
  | String _ s' => if String.prefix sub s then i else find_from sub s' (i + 1)
  end.

Definition find (s sub : string) : Z := find_from sub s 0.

(** [utilities.is_relative_url(url)]; the result is [None], [True] or
    [False]. *)
Definition is_relative_url (url : string) : option bool :=
  if startswith url "#" then None
  else Some ((find url "://" <=? 0) && negb (startswith url "//"))%bool.
(** A compute function that always raises [e]. *)
Definition raising_op (e : exn) (args : list PyVal) (kwargs : list (string * PyVal))
    : M St Value :=
  raise e.

(** A client whose cache holds, for the operation [name] without named
    parameters, the value [v] stored at time [t] under [key], and whose
    refresh interval is [r]; and the state of that client at time
    [time]. *)
Definition stored_client (name key : string) (t : Z) (v : Value) (r : option Z) : Client :=
  with_refresh_interval r
    (with_cache (Some (<[name := Entries {[key := (t, v)]}]>
                         (<["defaults" := Defaults {[name := ∅]}]> ∅)))
       client_en).

Definition stored_state (name key : string) (t : Z) (v : Value) (r : option Z) (time : Z)
    : St :=
  {| self := stored_client name key t v r;
     world := {| sent := []; clock := time; slept := []; noted := [] |} |}.

(** *** One request, seen from outside *)

(** The parameters that [wiki_request(params)] puts on the wire. *)
Definition sent_params (params : Params) : Params :=
  let params := <["format" := PyStr "json"]> params in
  match params !! "action" with
  | Some _ => params
  | None => <["action" := PyStr "query"]> params
  end.

Definition request_of (c : Client) (params : Params) : Request :=
  {| req_method := GET; req_url := _api_url c; req_params := sent_params params |}.

(** The world once the rate limiter has let the request through. *)
Definition waited (c : Client) (w : World) : World :=
  match _rate_limit c, _rate_limit_last_call c with
  | true, Some last_call =>
      if clock w <? last_call + _min_wait c then
        {| sent := sent w; clock := clock w + ((last_call + _min_wait c) - clock w);
           slept := (slept w ++ [(last_call + _min_wait c) - clock w])%list;
           noted := noted w |}
      else w
  | _, _ => w
  end.

(** The client once the request has been answered. *)
Definition stamped (c : Client) (w : World) : Client :=
  if _rate_limit c then with_rate_limit_last_call (Some (clock w)) c else c.

(** A transport with one answer for everything. *)
Definition constant_transport (a : TransportResult) : World -> Request -> TransportResult :=
  fun _ _ => a.

(** The error object [{"error": {"info": info}}]. *)
Definition error_answer (info : string) : Response :=
  {| r_error := Some (Some info); r_query := None; r_query_continue := None;
     r_continue := None; r_login := None |}.

(** The exception that [_check_error_response] maps an error message
    to. *)
Definition mapped_error (info : string) (query : option string) : exn :=
  if str_in info http_error then HTTPTimeoutError query
  else if str_in info geo_error then MediaWikiGeoCoordError info
  else MediaWikiException info.

(** ** The constructor *)

Section Constructor.

Variable transport : World -> Request -> TransportResult.

(** [isinstance(e, MediaWikiException)], as for [set_api_url]. *)
Variable derives_MediaWikiException : exn -> bool.

(** What [except MediaWikiException] catches. *)
Definition caught_by_init (e : exn) : bool :=
  match e with
  | MediaWikiException _ => true
  | _ => (is_library_exn e && derives_MediaWikiException e)%bool
  end.

(** [__init__(url, lang, timeout, rate_limit, rate_limit_wait, cat_prefix,
    user_agent, username, password, proxies, verify_ssl)] on the new
    object.  The timeout, the user agent, the proxies and the TLS
    setting go to the session, which is the transport here; assigning
    the proxies resets the session, and that sets [_is_logged_in].  The
    cache is assigned after the [rate_limit] setter has run. *)
Definition __init__ (url lang : string) (rate_limit : bool) (rate_limit_wait : Z)
    (cat_prefix : string) (username password : option string) : M St unit :=
  let* _ := modify (on_self (with_lang (lower lang))) in
  let* l := gets (fun s => _lang (self s)) in
  let* _ := modify (on_self (with_api_url (format_lang url l))) in
  let* _ := modify (on_self (set_category_prefix cat_prefix)) in
  let* _ := modify (on_self (with_is_logged_in false)) in
  let* _ := modify (on_self (set_rate_limit rate_limit)) in
  let* _ := modify (on_self (with_rate_limit_last_call None)) in
  let* _ := modify (on_self (with_min_wait rate_limit_wait)) in
  let* _ := modify (on_self (with_site no_site)) in
  let* _ := modify (on_self with_languages_reset) in
  let* _ := modify (on_self (with_cache (Some ∅))) in
  let* _ := modify (on_self (with_refresh_interval None)) in
  let* _ := modify (on_self (with_use_cache true)) in
  let* _ := modify (on_self (with_is_logged_in false)) in
  let* _ :=
    (match password, username with
     | Some p, Some u => let* _ := login transport u p true in ret tt
     | _, _ => ret tt
     end) in
  fun s =>
    match _get_site_info transport s with
    | (Ok _, s') => (Ok tt, s')
    | (Raise e, s') =>
        if caught_by_init e then (Raise (MediaWikiAPIURLError url), s') else (Raise e, s')
    | (Diverge, s') => (Diverge, s')
    end.

End Constructor.

(** The object before [__init__] has assigned anything: it has no
    [_cache] attribute. *)
Definition unassigned : Client :=
  {| _lang := ""; _api_url := ""; _cat_prefix := ""; _rate_limit := false;
     _rate_limit_last_call := None; _min_wait := 0; _site := no_site;
     __supported_languages := None; __available_languages := None;
     _cache := None; _refresh_interval := None; _use_cache := false;
     _is_logged_in := false |}.

Definition new_object (w : World) : St := {| self := unassigned; world := w |}.

(** *** A MediaWiki site *)

Record Site := {
  site_generator : string;
  site_server : string;
  site_base : string;
  site_extensions : list string;
  site_token : string;
  site_accounts : list (string * string)
}.

Definition token_answer (token : string) : Response :=
  {| r_error := None;
     r_query := Some {| q_categorymembers := None; q_general := None;
                        q_extensions := None; q_tokens := Some (Some token) |};
     r_query_continue := None; r_continue := None; r_login := None |}.

Definition login_result (result : string) (reason : option string) : Response :=
  {| r_error := None; r_query := None; r_query_continue := None; r_continue := None;
     r_login := Some {| lg_result := result; lg_reason := reason |} |}.

Definition site_answer (site : Site) : Response :=
  {| r_error := None;
     r_query := Some {| q_categorymembers := None;
                        q_general := Some {| g_generator := Some (site_generator site);
                                             g_server := Some (site_server site);
                                             g_base := Some (site_base site) |};
                        q_extensions := Some (site_extensions site);
                        q_tokens := None |};
     r_query_continue := None; r_continue := None; r_login := None |}.

Definition wrong_login : string := "Incorrect username or password entered".

(** The site answers a token request with its token, a login that
    carries the token and the name and password of an account with
    success, any other login with a failure, and everything else with
    its site information. *)
Definition site_transport (site : Site) : World -> Request -> TransportResult :=
  fun _ req =>
    match req_method req with
    | POST =>
        match req_params req !! "lgname", req_params req !! "lgpassword",
              req_params req !! "lgtoken" with
        | Some (PyStr u), Some (PyStr p), Some (PyStr t) =>
            if (String.eqb t (site_token site) && bool_decide ((u, p) ∈ site_accounts site))%bool
            then Json (Dict (login_result "Success" None))
            else Json (Dict (login_result "Failed" (Some wrong_login)))
        | _, _, _ => Json (Dict (login_result "Failed" (Some wrong_login)))
        end
    | GET =>
        if decide (req_params req !! "meta" = Some (PyStr "tokens"))
        then Json (Dict (token_answer (site_token site)))
        else Json (Dict (site_answer site))
    end.

(** The version that [_get_site_info] reads out of the generator
    string: the second word, up to the first dash, split at the dots. *)
Definition version_of (generator : string) : option (list Z) :=
  second ← split_on " " generator !! 1%nat;
  mapM parse_int (split_on "." (default "" (head (split_on "-" second)))).

(** The base URL that it reads out of the server and the base. *)
Definition base_url_of (server base : string) : string :=
  if (startswith server "http://" || startswith server "https://")%bool then server
  else if startswith base "https:" then "https:" +:+ server
  else "http:" +:+ server.

(** The two requests of [login]. *)
Definition token_request (c : Client) : Request :=
  {| req_method := GET; req_url := _api_url c;
     req_params := <["action" := PyStr "query"]> (<["meta" := PyStr "tokens"]>
                   (<["type" := PyStr "login"]> (<["format" := PyStr "json"]> ∅))) |}.

Definition login_request (c : Client) (username password token : string) : Request :=
  {| req_method := POST; req_url := _api_url c;
     req_params := <["action" := PyStr "login"]> (<["lgname" := PyStr username]>
                   (<["lgpassword" := PyStr password]> (<["lgtoken" := PyStr token]>
                   (<["format" := PyStr "json"]> ∅)))) |}.

Definition siteinfo_params : Params :=
  <["meta" := PyStr "siteinfo"]> (<["siprop" := PyStr "extensions|general"]> ∅).

Definition wikipedia : Site :=
  {| site_generator := "MediaWiki 1.35.0-wmf.5";
     site_server := "//en.wikipedia.org";
     site_base := "https://en.wikipedia.org/wiki/Main_Page";
     site_extensions := ["Math"; "Cite"; "Math"];
     site_token := "0123abcd";
     site_accounts := [("bot", "secret")] |}.

(** *** Whole trees *)

(** The node of [cat] at [level] with everything below it expanded, for
    a wiki in which [n] steps lead to the leaves. *)
Fixpoint full (w : Wiki) (prefix : string) (n : nat) (level : Z) (cat : string) : Node :=
  node_of w prefix level cat
    match n with
    | O => ∅
    | S n' =>
        fold_left (fun t ctg => <[ctg := Some (full w prefix n' (level + 1) ctg)]> t)
                  (subcats_of w cat) ∅
    end.

(** A:B, B:A. *)
Definition loop_wiki : Wiki :=
  {| parents_of := fun _ => [];
     pages_of := fun c => [c +:+ " page"];
     subcats_of := fun c =>
       if String.eqb c "A" then ["B"]
       else if String.eqb c "B" then ["A"]
       else [] |}.

(** *** Listings of any length *)

(** The number of records that a call with [results] is to return from
    a listing that holds [len] records of the requested types. *)
Definition wanted (results : option Z) (len : nat) : nat :=
  match results with
  | Some n => Nat.min (Z.to_nat n) len
  | None => len
  end.

(** The number of requests that [m] records take, 500 at a time; one
    request is made even for none. *)
Definition requests_for (m : nat) : nat :=
  Z.to_nat (Z.max 1 ((Z.of_nat m + 499) / 500)).

(** The invariant of the pagination loop against the listing server for
    any [results]: after [off] records the loop goes on; then more
    records are wanted and more are there. *)
Definition listing_progress (src : list Member) (types prefix : string)
    (results : option Z) (off : nat) (p : Paging) : Prop :=
  let visible := List.filter (requested types) src in
  finished p = false
  ∧ returned_results p = Z.of_nat off
  ∧ (∀ n, results = Some n -> Z.of_nat off < n)
  ∧ (off = O ∨ (off < length visible)%nat)
  ∧ last_cont p = (if off is O then ∅ else offset_token off)
  ∧ search_params p !! "cmlimit"
    = Some (PyInt (match results with
                   | Some n => Z.min (n - Z.of_nat off) 500
                   | None => 500
                   end))
  ∧ search_params p !! "cmtype" = Some (PyStr types)
  ∧ search_params p !! "cmcontinue" = None
  ∧ pages p = page_titles (take off visible)
  ∧ subcats p = subcat_names prefix (take off visible).

(** ** [random], [allpages] and [prefixsearch] *)

Section Titles.

Variable transport : World -> Request -> TransportResult.

(** [[rec["title"] for rec in query[key]]] for the listings that the
    record [Query] does not hold ([random], [allpages], [prefixsearch]);
    [None] when [query] has no such key. *)
Variable titles_of : string -> Query -> option (list string).

(** [[rec["title"] for rec in response["query"][key]]] *)
Definition titles {S} (response : Body) (key : string) : M S (list string) :=
  match response with
  | Array _ => raise TypeError
  | Dict r =>
      let* query := subscript "query" (r_query r) in
      subscript key (titles_of key query)
  end.

(** [random(pages)]; it is not memoized. *)
Definition random (pages : option Z) : M St Value :=
  match pages with
  | None => raise (ValueError "Number of pages must be greater than 0")
  | Some n =>
      if n <? 1 then raise (ValueError "Number of pages must be greater than 0")
      else
        let query_params : Params :=
          <["list" := PyStr "random"]> (<["rnnamespace" := PyInt 0]>
          (<["rnlimit" := PyInt n]> ∅)) in
        let* request := wiki_request transport query_params in
        let* l := titles request "random" in
        match l with
        | [title] => ret (VStr title)
        | _ => ret (VList l)
        end
  end.

(** The body of [allpages(query, results)]. *)
Definition allpages (query : string) (results : option Z) : M St Value :=
  let limit := match results with
               | Some n => Z.min n max_pull
               | None => max_pull
               end in
  let query_params : Params :=
    <["list" := PyStr "allpages"]> (<["aplimit" := PyInt limit]>
    (<["apfrom" := PyStr query]> ∅)) in
  let* request := wiki_request transport query_params in
  let* _ := _check_error_response request (Some query) in
  let* l := titles request "allpages" in
  ret (VList l).

(** The body of [prefixsearch(prefix, results)].  The limit is
    [("max" if (results > 500 or results is None) else results)]: the
    comparison comes first, and it is a type error on [None]. *)
Definition prefixsearch (prefix : option string) (results : option Z) : M St Value :=
  let* _ := _check_query prefix "Prefix must be specified" in
  match prefix with
  | None => raise (ValueError "Prefix must be specified")
  | Some pre =>
      let* pslimit :=
        (match results with
         | None => raise TypeError
         | Some n => ret (if 500 <? n then PyStr "max" else PyInt n)
         end) in
      let query_params : Params :=
        <["list" := PyStr "prefixsearch"]> (<["pssearch" := PyStr pre]>
        (<["pslimit" := pslimit]> (<["psnamespace" := PyInt 0]>
        (<["psoffset" := PyInt 0]> ∅)))) in
      let* raw_results := wiki_request transport query_params in
      let* _ := _check_error_response raw_results prefix in
      let* l := titles raw_results "prefixsearch" in
      ret (VList l)
  end.

Definition prefixsearch_defaults : gmap string PyVal := <["results" := PyInt 10]> ∅.

Definition prefixsearch_call (args : list PyVal) (kwargs : list (string * PyVal))
    : M St Value :=
  match bind_param 0 "prefix" None args kwargs ≫= as_opt_string,
        bind_param 1 "results" (Some (PyInt 10)) args kwargs ≫= as_opt_int with
  | Some prefix, Some results =>
      if (Nat.leb (length args) 2) then prefixsearch prefix results
      else raise TypeError
  | _, _ => raise TypeError
  end.

(** The public operation: [@memoize def prefixsearch(...)]. *)
Definition memo_prefixsearch (args : list PyVal) (kwargs : list (string * PyVal))
    : M St Value :=
  wrapper "prefixsearch" prefixsearch_defaults prefixsearch_call args kwargs.

End Titles.

(** An answer that carries a query and no error. *)
Definition query_answer (q : Query) : Response :=
  {| r_error := None; r_query := Some q; r_query_continue := None;
     r_continue := None; r_login := None |}.

Definition no_query : Query :=
  {| q_categorymembers := None; q_general := None; q_extensions := None;
     q_tokens := None |}.

(** *** Strings without a given character *)

Fixpoint free_of (c : ascii) (s : string) : bool :=
  match s with
  | EmptyString => true
  | String x s' => (negb (Ascii.eqb x c) && free_of c s')%bool
  end.

(** *** The tree builder over the client's own [categorymembers] *)

(** [categorytree] with the member fetch it really makes, the memoized
    [categorymembers] of the client with [results=None] and
    [subcategories=True]; the pages come from the table of [w]. *)
Definition client_tree_run (w : Wiki) (transport : World -> Request -> TransportResult)
    (mfuel fuel : nat) (category : CategoryArg) (depth : option Z)
    : M (Run string) Tree :=
  categorytree_run string wiki_page (wiki_page_categories w)
    (categorymembers_all_of transport mfuel) fuel category depth.

(** The state of a client after the first memoized call of [name]. *)
Definition primed (name : string) (signature : gmap string PyVal) (s : St) : St :=
  on_self (with_cache (Some (first_partitions name signature))) s.

(** A client on which [categorymembers] was called before and stored
    nothing. *)
Definition ready (s : St) : Prop :=
  _use_cache (self s) = true
  ∧ _cache (self s) = Some (first_partitions "categorymembers" categorymembers_defaults).

(** The run after an attempt on [cat] that got as far as the member
    fetch and ended in the state [s']. *)
Definition page_noted (cat : string) (s' : St) (r : Run string) : Run string :=
  {| st := s';
     categories :=
       <[cat := _cat_prefix (self (st string r)) +:+ ":" +:+ cat]> (categories string r);
     run_links := run_links string r;
     fetches := (fetches string r ++ [cat])%list |}.

(** * Properties *)

(** ** Helper lemmas *)

Lemma eqb_false_of_ne (a b : string) : a ≠ b -> String.eqb a b = false.
Proof. intros H. now apply String.eqb_neq. Qed.

Lemma eqb_true_of_eq (a b : string) : a = b -> String.eqb a b = true.
Proof. intros H. now apply String.eqb_eq. Qed.

Lemma clear_memoized_cache (c : Client) :
  _cache (clear_memoized c) = (fun _ => ∅) <$> _cache c.
Proof. unfold clear_memoized. destruct (_cache c) eqn:E; simpl; [reflexivity | exact E]. Qed.

Lemma check_error_cases {S} (r : Response) (query : option string) (s : S) :
  (r_error r = None ∧ _check_error_response (Dict r) query s = (Ok tt, s))
  ∨ (∃ e, _check_error_response (Dict r) query s = (Raise e, s)).
Proof.
  unfold _check_error_response.
  destruct (r_error r) as [[info|]|]; [right | right | left; split; reflexivity].
  - unfold bind, subscript, ret.
    destruct (str_in info http_error); [eexists; reflexivity|].
    destruct (str_in info geo_error); eexists; reflexivity.
  - eexists; reflexivity.
Qed.

Lemma verification_accepts {S} (c : string) (depth : option Z) (shown : string) (s : S) :
  c ≠ "" -> (depth = None ∨ ∃ d, depth = Some d ∧ 1 <= d) ->
  __category_parameter_verification [Some c] depth shown s = (Ok tt, s).
Proof.
  intros Hc Hd. unfold __category_parameter_verification.
  simpl. rewrite (eqb_false_of_ne c "" Hc).
  destruct Hd as [-> | (d & -> & Hd)]; [reflexivity|].
  replace (d <? 1) with false by (symmetry; apply Z.ltb_ge; lia). reflexivity.
Qed.

Lemma non_empty_single (c : string) : c ≠ "" -> non_empty [Some c] = [c].
Proof.
  intros Hc. unfold non_empty. simpl. rewrite (eqb_false_of_ne c "" Hc). reflexivity.
Qed.

(** ** Configuration *)

(** C9: assigning [rate_limit] (any value, also the current one) stores
    the flag, unsets the time of the last call and, beyond the state of
    the rate limiter, empties the memoization cache: no operation keeps a
    partition, hence no key keeps a value.  (While the constructor runs
    there is no cache yet and none is created.)  Nothing else changes. *)
Theorem rate_limit_setter_empties_cache (rate_limit : bool) (c : Client) :
  let c' := set_rate_limit rate_limit c in
  _rate_limit c' = rate_limit
  ∧ _rate_limit_last_call c' = None
  ∧ _cache c' = (fun _ => ∅) <$> _cache c
  ∧ (∀ (cache : Cache) (name : string), _cache c' = Some cache -> cache !! name = None)
  ∧ _lang c' = _lang c ∧ _api_url c' = _api_url c ∧ _min_wait c' = _min_wait c
  ∧ _use_cache c' = _use_cache c ∧ _refresh_interval c' = _refresh_interval c
  ∧ _is_logged_in c' = _is_logged_in c ∧ _site c' = _site c.
Proof.
  cbv zeta. unfold set_rate_limit.
  assert (Hc : _cache (clear_memoized (with_rate_limit_last_call None (with_rate_limit rate_limit c)))
               = (fun _ => ∅) <$> _cache c) by (rewrite clear_memoized_cache; reflexivity).
  split_and!; try (unfold clear_memoized; simpl; destruct (_cache c); reflexivity).
  - exact Hc.
  - intros cache name H. rewrite Hc in H.
    destruct (_cache c); simpl in H; [|discriminate].
    injection H as <-. apply lookup_empty.
Qed.

(** C10: assigning a language whose lower-case form is the current
    language changes nothing at all; assigning any other one rewrites the
    API URL (every ["/old."] becomes ["/new."]), stores the lower-cased
    language and empties the cache. *)
Theorem language_setter_noop_or_rewrite (lang : string) (c : Client) :
  (lower lang = _lang c -> set_language lang c = c)
  ∧ (lower lang ≠ _lang c ->
     let c' := set_language lang c in
     _lang c' = lower lang
     ∧ _api_url c' =
         replace (_api_url c) ("/" +:+ _lang c +:+ ".") ("/" +:+ lower lang +:+ ".")
     ∧ _cache c' = (fun _ => ∅) <$> _cache c).
Proof.
  unfold set_language. split.
  - intros H. rewrite (eqb_true_of_eq (_lang c) (lower lang)) by congruence. reflexivity.
  - intros H. rewrite (eqb_false_of_ne (_lang c) (lower lang)) by congruence.
    cbv zeta. rewrite clear_memoized_cache.
    split_and!; try reflexivity; unfold clear_memoized; simpl; destruct (_cache c); reflexivity.
Qed.

Lemma language_setter_noop_or_rewrite_witness :
  set_language "EN" client_en = client_en
  ∧ _lang (set_language "Fr" client_en) = "fr"
  ∧ _api_url (set_language "Fr" client_en) = "https://fr.wikipedia.org/w/api.php"
  ∧ _cache (set_language "Fr" client_en) = Some ∅.
Proof.
  split.
  - apply (proj1 (language_setter_noop_or_rewrite "EN" client_en)). reflexivity.
  - assert (H : lower "Fr" ≠ _lang client_en) by (vm_compute; discriminate).
    destruct (proj2 (language_setter_noop_or_rewrite "Fr" client_en) H) as (H1 & H2 & H3).
    split_and!; [exact H1 | rewrite H2; reflexivity | exact H3].
Defined.

(** ** Error mapping *)

(** C6: for an answer with an error object whose [info] is one of the two
    time-out phrases the time-out error (carrying the query) is raised;
    for one of the three geocoordinate phrases the geocoordinate error;
    for any other [info] the generic error carrying that message; an
    answer without an error object raises nothing.  The state is left as
    it was. *)
Theorem check_error_response_mapping (S : Type) (r : Response) (query : option string)
    (s : S) :
  (∀ info, r_error r = Some (Some info) ->
     (info = "HTTP request timed out." ∨ info = "Pool queue is full" ->
        _check_error_response (Dict r) query s = (Raise (HTTPTimeoutError query), s))
     ∧ (info = "Page coordinates unknown."
        ∨ info = "One of the parameters gscoord, gspage, gsbbox is required"
        ∨ info = "Invalid coordinate provided" ->
        _check_error_response (Dict r) query s = (Raise (MediaWikiGeoCoordError info), s))
     ∧ (info ≠ "HTTP request timed out." -> info ≠ "Pool queue is full" ->
        info ≠ "Page coordinates unknown." ->
        info ≠ "One of the parameters gscoord, gspage, gsbbox is required" ->
        info ≠ "Invalid coordinate provided" ->
        _check_error_response (Dict r) query s = (Raise (MediaWikiException info), s)))
  ∧ (r_error r = None -> _check_error_response (Dict r) query s = (Ok tt, s)).
Proof.
  split.
  - intros info E. unfold _check_error_response. rewrite E. simpl.
    unfold bind, ret. simpl. split_and!.
    + intros [-> | ->]; reflexivity.
    + intros [-> | [-> | ->]]; reflexivity.
    + intros H1 H2 H3 H4 H5. unfold str_in, http_error, geo_error. simpl.
      rewrite !eqb_false_of_ne by assumption. reflexivity.
  - intros E. unfold _check_error_response. rewrite E. reflexivity.
Qed.

Lemma check_error_response_mapping_witness :
  let answer info :=
    {| r_error := Some (Some info); r_query := None; r_query_continue := None;
       r_continue := None; r_login := None |} in
  _check_error_response (Dict (answer "Page coordinates unknown.")) (Some "Paris") tt
    = (Raise (MediaWikiGeoCoordError "Page coordinates unknown."), tt)
  ∧ _check_error_response (Dict (answer "HTTP request timed out.")) (Some "Paris") tt
    = (Raise (HTTPTimeoutError (Some "Paris")), tt)
  ∧ _check_error_response (Dict (answer "badtoken")) (Some "Paris") tt
    = (Raise (MediaWikiException "badtoken"), tt)
  ∧ _check_error_response (Dict empty_response) (Some "Paris") tt = (Ok tt, tt).
Proof.
  cbv zeta. split_and!.
  - eapply (proj1 (check_error_response_mapping unit _ (Some "Paris") tt)); [reflexivity|].
    left; reflexivity.
  - eapply (proj1 (check_error_response_mapping unit _ (Some "Paris") tt)); [reflexivity|].
    left; reflexivity.
  - eapply (proj1 (check_error_response_mapping unit _ (Some "Paris") tt));
      [reflexivity | discriminate..].
  - apply (proj2 (check_error_response_mapping unit empty_response (Some "Paris") tt)).
    reflexivity.
Defined.

(** ** Switching the endpoint *)

(** C7, as the code has it: when logging in or resolving the site
    information raises a connect time-out or a [MediaWikiException] (or
    an exception derived from it), [set_api_url] puts the API URL and the
    language back to their values from before the call and raises the
    invalid-endpoint error carrying the URL it was given; any other
    exception leaves [set_api_url] as it is.  A generic
    [MediaWikiException] and a connect time-out are caught whatever the
    class hierarchy is; a connection error, a read time-out and a
    [KeyError] never are. *)
Theorem set_api_url_rolls_back_on_caught_errors
    (transport : World -> Request -> TransportResult) (derives : exn -> bool)
    (api_url lang : string) (username password : option string) (s s' : St) (e : exn) :
  validate_endpoint transport username password (switch_endpoint api_url lang s)
    = (Raise e, s') ->
  (caught_by_set_api_url derives e = true ->
     ∃ s'', set_api_url transport derives api_url lang username password s
              = (Raise (MediaWikiAPIURLError api_url), s'')
            ∧ _api_url (self s'') = _api_url (self s)
            ∧ _lang (self s'') = _lang (self s))
  ∧ (caught_by_set_api_url derives e = false ->
     set_api_url transport derives api_url lang username password s = (Raise e, s'))
  ∧ (∀ msg, caught_by_set_api_url derives (MediaWikiException msg) = true)
  ∧ caught_by_set_api_url derives ConnectTimeout = true
  ∧ caught_by_set_api_url derives ConnectionError = false
  ∧ caught_by_set_api_url derives ReadTimeout = false
  ∧ (∀ k, caught_by_set_api_url derives (KeyError k) = false).
Proof.
  intros H. unfold set_api_url. rewrite H. split_and!; try reflexivity.
  - intros ->. eexists. split_and!; reflexivity.
  - intros ->. reflexivity.
Qed.

Lemma set_api_url_rolls_back_on_caught_errors_witness :
  ∃ s'', set_api_url not_a_wiki (fun _ => false)
           "https://{lang}.wikipedia.org/w/api.php" "fr" None None state0
         = (Raise (MediaWikiAPIURLError "https://{lang}.wikipedia.org/w/api.php"), s'')
       ∧ _api_url (self s'') = "https://en.wikipedia.org/w/api.php"
       ∧ _lang (self s'') = "en".
Proof.
  pose (r := validate_endpoint not_a_wiki None None
               (switch_endpoint "https://{lang}.wikipedia.org/w/api.php" "fr" state0)).
  assert (H : r = (Raise (MediaWikiException "Missing query in response"), r.2))
    by (vm_compute; reflexivity).
  exact (proj1 (set_api_url_rolls_back_on_caught_errors not_a_wiki (fun _ => false)
                  "https://{lang}.wikipedia.org/w/api.php" "fr" None None state0 r.2 _ H)
               eq_refl).
Defined.

(** C7 as stated fails: when the host of the new endpoint cannot be
    reached, resolving the site information raises the connection error
    of the transport; [set_api_url] then raises that error, not the
    invalid-endpoint error, and the client keeps the new URL and
    language. *)
Lemma set_api_url_unreachable_host_keeps_new_endpoint :
  let url := "https://{lang}.wikipedia.org/w/api.php" in
  let r := set_api_url unreachable (fun _ => false) url "fr" None None state0 in
  (validate_endpoint unreachable None None (switch_endpoint url "fr" state0)).1
    = Raise ConnectionError
  ∧ r.1 = Raise ConnectionError
  ∧ r.1 ≠ Raise (MediaWikiAPIURLError url)
  ∧ _api_url (self state0) = "https://en.wikipedia.org/w/api.php"
  ∧ _lang (self state0) = "en"
  ∧ _api_url (self r.2) = "https://fr.wikipedia.org/w/api.php"
  ∧ _lang (self r.2) = "fr".
Proof.
  cbv zeta. split_and!; try (vm_compute; reflexivity).
  vm_compute. discriminate.
Qed.

(** ** Failures while a category is resolved *)

Section FetchLoop.

Variable Page : Type.
Variable page : string -> M St Page.
Variable page_categories : Page -> M St (list string).
Variable categorymembers_all : string -> M St (list string * list string).

#[local] Abbreviation try_fetch := (attempt Page page page_categories categorymembers_all).
#[local] Abbreviation loop := (fetch_loop Page page page_categories categorymembers_all).

Lemma lift_fetches {A} (m : M St A) (r : Run Page) :
  fetches Page (lift Page m r).2 = fetches Page r.
Proof. unfold lift. destruct (m (st Page r)). reflexivity. Qed.

(** An attempt notes exactly one fetch, however it ends. *)
Lemma attempt_fetches (cat : string) (r : Run Page) :
  fetches Page (try_fetch cat r).2 = (fetches Page r ++ [cat])%list.
Proof.
  unfold try_fetch, attempt, bind, note_fetch, prefixed, set_category, set_links,
    modify, gets, ret, lift. simpl.
  destruct (page _ _) as [[pag| |] s1]; simpl; try reflexivity.
  destruct (page_categories _ _) as [[pc| |] s2]; simpl; try reflexivity.
  destruct (categorymembers_all _ _) as [[l| |] s3]; simpl; reflexivity.
Qed.

Lemma not_interrupt (e : exn) : e ≠ KeyboardInterrupt -> is_KeyboardInterrupt e = false.
Proof. destruct e; intros H; try reflexivity. now contradiction H. Qed.

Lemma loop_retry (fuel : nat) (cat : string) (tries : Z) (r r' : Run Page) (e : exn) :
  tries <= 10 ->
  try_fetch cat r = (Raise e, r') ->
  is_PageError e = false -> e ≠ KeyboardInterrupt ->
  loop (S fuel) cat tries r = loop fuel cat (tries + 1) (slept_one r').
Proof.
  intros Ht Ha Hp Hk. unfold loop. simpl.
  replace (10 <? tries) with false by (symmetry; apply Z.ltb_ge; lia).
  fold try_fetch. rewrite Ha, Hp. unfold is_Exception. rewrite (not_interrupt e Hk). simpl.
  unfold bind, lift, sleep, modify. simpl. reflexivity.
Qed.

(** When every attempt fails with an exception that is retried, the loop
    started with [k] tries left makes [k] attempts and gives up. *)
Lemma loop_gives_up (cat : string) :
  (∀ r0, ∃ e0 r1, try_fetch cat r0 = (Raise e0, r1)
                  ∧ is_PageError e0 = false ∧ e0 ≠ KeyboardInterrupt) ->
  ∀ (k : nat) (tries : Z) (r : Run Page),
    tries = 11 - Z.of_nat k ->
    ∃ r_end, loop (S k) cat tries r = (Raise (MediaWikiCategoryTreeError cat), r_end)
             ∧ fetches Page r_end = (fetches Page r ++ repeat cat k)%list.
Proof.
  intros Hall. induction k as [|k IH]; intros tries r Ht.
  - exists r. unfold loop. simpl.
    replace (10 <? tries) with true by (symmetry; apply Z.ltb_lt; lia).
    split; [reflexivity | now rewrite app_nil_r].
  - destruct (Hall r) as (e0 & r1 & Ha & Hp & Hk).
    rewrite (loop_retry (S k) cat tries r r1 e0) by (assumption || lia).
    destruct (IH (tries + 1) (slept_one r1)) as (r_end & Hl & Hf); [lia|].
    exists r_end. split; [exact Hl|].
    rewrite Hf. simpl. pose proof (attempt_fetches cat r) as Hfa. rewrite Ha in Hfa.
    simpl in Hfa. rewrite Hfa. rewrite <- app_assoc. reflexivity.
Qed.

(** Twelve rounds are enough: the loop itself never runs out of fuel. *)
Lemma loop_total (cat : string) :
  (∀ r0, (try_fetch cat r0).1 ≠ Diverge) ->
  ∀ (k : nat) (tries : Z) (r : Run Page),
    11 - Z.of_nat k <= tries ->
    (loop (S k) cat tries r).1 ≠ Diverge.
Proof.
  intros Hall. induction k as [|k IH]; intros tries r Ht.
  - simpl. replace (10 <? tries) with true by (symmetry; apply Z.ltb_lt; lia).
    discriminate.
  - cbn [fetch_loop]. destruct (10 <? tries); [discriminate|].
    pose proof (Hall r) as Hr.
    destruct (attempt Page page page_categories categorymembers_all cat r)
      as [[pc | e |] r1]; [discriminate | | now contradiction Hr].
    destruct (is_PageError e); [discriminate|].
    destruct (is_KeyboardInterrupt e) eqn:Hk; [discriminate|].
    unfold is_Exception. rewrite Hk. cbn [negb].
    unfold bind, lift, sleep, modify. cbn [fst snd]. apply IH. lia.
Qed.

(** C5: while category [cat] is resolved, with at most ten failures so
    far, an attempt that ends in an exception [e] is handled thus.  A
    page-not-found error ends the loop at once with a page-not-found
    error for the prefixed name; a keyboard interrupt ends it at once
    and goes through unchanged; in both cases the state is the one the
    failed attempt left: no sleep, no further fetch.  Any other
    exception makes the loop sleep one time unit, add one to the counter
    of tries and go round again.  With more than ten tries counted the
    loop raises the category-tree error that carries [cat]; so eleven
    failed attempts in a row, and as many fetches, end in that error.
    The loop always ends when the fetches do. *)
Theorem category_fetch_failure_policy (fuel : nat) (cat : string) (tries : Z)
    (r r' : Run Page) (e : exn) :
  tries <= 10 ->
  try_fetch cat r = (Raise e, r') ->
  let title := _cat_prefix (self (st Page r')) +:+ ":" +:+ cat in
  (is_PageError e = true -> loop (S fuel) cat tries r = (Raise (PageError title), r'))
  ∧ (e = KeyboardInterrupt -> loop (S fuel) cat tries r = (Raise KeyboardInterrupt, r'))
  ∧ (is_PageError e = false -> e ≠ KeyboardInterrupt ->
     loop (S fuel) cat tries r = loop fuel cat (tries + 1) (slept_one r')
     ∧ slept (world (st Page (slept_one r'))) = (slept (world (st Page r')) ++ [1])%list
     ∧ fetches Page (slept_one r') = (fetches Page r ++ [cat])%list)
  ∧ (∀ r0 t, 10 < t ->
     loop (S fuel) cat t r0 = (Raise (MediaWikiCategoryTreeError cat), r0))
  ∧ ((∀ r0, ∃ e0 r1, try_fetch cat r0 = (Raise e0, r1)
                     ∧ is_PageError e0 = false ∧ e0 ≠ KeyboardInterrupt) ->
     ∃ r_end, loop 12 cat 0 r = (Raise (MediaWikiCategoryTreeError cat), r_end)
              ∧ fetches Page r_end = (fetches Page r ++ repeat cat 11)%list)
  ∧ ((∀ r0, (try_fetch cat r0).1 ≠ Diverge) -> (loop 12 cat 0 r).1 ≠ Diverge).
Proof.
  intros Ht Ha title. split_and!.
  - intros Hp. unfold loop. simpl.
    replace (10 <? tries) with false by (symmetry; apply Z.ltb_ge; lia).
    fold try_fetch. rewrite Ha, Hp. reflexivity.
  - intros ->. unfold loop. simpl.
    replace (10 <? tries) with false by (symmetry; apply Z.ltb_ge; lia).
    fold try_fetch. rewrite Ha. reflexivity.
  - intros Hp Hk. split_and!.
    + now apply (loop_retry fuel cat tries r r' e).
    + reflexivity.
    + pose proof (attempt_fetches cat r) as Hf. rewrite Ha in Hf. exact Hf.
  - intros r0 t Hgt. unfold loop. simpl.
    replace (10 <? t) with true by (symmetry; apply Z.ltb_lt; lia). reflexivity.
  - intros Hall. apply (loop_gives_up cat Hall 11%nat 0 r). reflexivity.
  - intros Hall. apply (loop_total cat Hall 11%nat 0 r). lia.
Qed.

End FetchLoop.

Lemma category_fetch_failure_policy_witness :
  let r := new_run string state0 in
  let members := wiki_members chain_wiki in
  let parents := wiki_page_categories chain_wiki in
  (* a transient failure is retried after one sleep *)
  fetch_loop string (flaky_page 20 ConnectionError) parents members 12 "A" 0 r
    = fetch_loop string (flaky_page 20 ConnectionError) parents members 11 "A" 1
        (slept_one (attempt string (flaky_page 20 ConnectionError) parents members "A" r).2)
  (* a missing page is fatal at once *)
  ∧ fetch_loop string (failing_page (PageError "Category:A")) parents members 12 "A" 0 r
    = (Raise (PageError "Category:A"),
       (attempt string (failing_page (PageError "Category:A")) parents members "A" r).2)
  (* a failure that never goes away ends in the category-tree error *)
  ∧ ∃ r_end,
      fetch_loop string (failing_page ReadTimeout) parents members 12 "A" 0 r
        = (Raise (MediaWikiCategoryTreeError "A"), r_end)
      ∧ fetches string r_end = repeat "A" 11.
Proof.
  cbv zeta.
  assert (Ht : 0 <= 10) by lia.
  split_and!.
  - assert (H : attempt string (flaky_page 20 ConnectionError)
                  (wiki_page_categories chain_wiki) (wiki_members chain_wiki) "A"
                  (new_run string state0)
                = (Raise ConnectionError,
                   (attempt string (flaky_page 20 ConnectionError)
                      (wiki_page_categories chain_wiki) (wiki_members chain_wiki) "A"
                      (new_run string state0)).2))
      by (vm_compute; reflexivity).
    destruct (category_fetch_failure_policy string (flaky_page 20 ConnectionError)
                (wiki_page_categories chain_wiki) (wiki_members chain_wiki)
                11 "A" 0 (new_run string state0) _ ConnectionError Ht H)
      as (_ & _ & Hretry & _).
    apply Hretry; [reflexivity | discriminate].
  - assert (H : attempt string (failing_page (PageError "Category:A"))
                  (wiki_page_categories chain_wiki) (wiki_members chain_wiki) "A"
                  (new_run string state0)
                = (Raise (PageError "Category:A"),
                   (attempt string (failing_page (PageError "Category:A"))
                      (wiki_page_categories chain_wiki) (wiki_members chain_wiki) "A"
                      (new_run string state0)).2))
      by (vm_compute; reflexivity).
    destruct (category_fetch_failure_policy string (failing_page (PageError "Category:A"))
                (wiki_page_categories chain_wiki) (wiki_members chain_wiki)
                11 "A" 0 (new_run string state0) _ (PageError "Category:A") Ht H)
      as (Hfatal & _).
    apply Hfatal. reflexivity.
  - assert (H : attempt string (failing_page ReadTimeout)
                  (wiki_page_categories chain_wiki) (wiki_members chain_wiki) "A"
                  (new_run string state0)
                = (Raise ReadTimeout,
                   (attempt string (failing_page ReadTimeout)
                      (wiki_page_categories chain_wiki) (wiki_members chain_wiki) "A"
                      (new_run string state0)).2))
      by (vm_compute; reflexivity).
    destruct (category_fetch_failure_policy string (failing_page ReadTimeout)
                (wiki_page_categories chain_wiki) (wiki_members chain_wiki)
                11 "A" 0 (new_run string state0) _ ReadTimeout Ht H)
      as (_ & _ & _ & _ & Hgive_up & _).
    apply Hgive_up. intros r0. exists ReadTimeout. eexists.
    split_and!; [reflexivity | reflexivity | discriminate].
Defined.

(** ** Validation *)

Section Validation.

Variable transport : World -> Request -> TransportResult.

Lemma check_query_blank {S} (value : option string) (message : string) (s : S) :
  (value = None ∨ ∃ v, value = Some v ∧ strip v = "") ->
  _check_query value message s = (Raise (ValueError message), s).
Proof.
  intros [-> | (v & -> & Hv)]; [reflexivity|].
  unfold _check_query. rewrite Hv. reflexivity.
Qed.

Lemma categorymembers_blank (fuel : nat) (category : option string) (results : option Z)
    (subcategories : bool) (s : St) :
  (category = None ∨ ∃ v, category = Some v ∧ strip v = "") ->
  categorymembers transport fuel category results subcategories s
    = (Raise (ValueError "Category must be specified"), s).
Proof.
  intros H. unfold categorymembers, bind.
  rewrite (check_query_blank category _ s H). reflexivity.
Qed.

Lemma opensearch_blank (query : option string) (results : option Z) (redirect : bool)
    (s : St) :
  (query = None ∨ ∃ v, query = Some v ∧ strip v = "") ->
  opensearch transport query results redirect s
    = (Raise (ValueError "Query must be specified"), s).
Proof.
  intros H. unfold opensearch, bind.
  rewrite (check_query_blank query _ s H). reflexivity.
Qed.

(** A memoized operation whose body raises sends what the body sends:
    nothing here.  The cache is fresh, or caching is off. *)
Lemma wrapper_raises (name : string) (signature : gmap string PyVal)
    (func : list PyVal -> list (string * PyVal) -> M St Value)
    (args : list PyVal) (kwargs : list (string * PyVal)) (e : exn) (s : St) :
  name ≠ "defaults" ->
  (∀ s0, func args kwargs s0 = (Raise e, s0)) ->
  (_use_cache (self s) = false ∧ is_Some (_cache (self s)))
  ∨ (_use_cache (self s) = true ∧ _cache (self s) = Some ∅) ->
  ∃ s', wrapper name signature func args kwargs s = (Raise e, s')
        ∧ world s' = world s.
Proof.
  intros Hname Hf [[Hu [c Hc]] | [Hu Hc]].
  - exists s. unfold wrapper, bind, memoized, gets. rewrite Hc, Hu. simpl.
    rewrite Hf. split; reflexivity.
  - unfold wrapper, bind, memoized, gets. rewrite Hc, Hu. simpl.
    rewrite lookup_empty.
    unfold init_partitions, set_memoized, modify.
    rewrite lookup_insert_ne by congruence. rewrite lookup_empty.
    rewrite lookup_insert_eq. simpl.
    unfold lookup_defaults, lookup_entries, bind, memoized, subscript, ret. simpl.
    rewrite lookup_insert_eq. simpl. rewrite lookup_insert_eq. simpl.
    rewrite lookup_insert_ne by congruence. rewrite lookup_insert_ne by congruence.
    rewrite lookup_insert_eq. simpl. rewrite lookup_empty.
    unfold compute_and_store, bind, now, gets. simpl. rewrite Hf.
    eexists. split; reflexivity.
Qed.

End Validation.

(** X27: the validation that is done before anything is fetched or
    sent.  [categorytree] raises a [ValueError] for a single category
    name that is [None] or the empty string, and for any depth below one;
    the bodies of [categorymembers] and [opensearch] raise a [ValueError]
    for a query text that is [None], empty or made of whitespace only,
    and so do the memoized operations (with a fresh cache or with caching
    off), leaving the world as it was.  The check of [categorytree]
    accepts every other single name, a whitespace-only one included. *)
Theorem validation_precedes_requests :
  (∀ (Page : Type) page page_categories categorymembers_all fuel c depth (r : Run Page),
     c = None ∨ c = Some "" ->
     categorytree_run Page page page_categories categorymembers_all fuel (One c) depth r
       = (Raise (ValueError (category_msg (shown_one c))), r))
  ∧ (∀ (Page : Type) page page_categories categorymembers_all fuel category d (r : Run Page),
     d < 1 ->
     ∃ msg, categorytree_run Page page page_categories categorymembers_all fuel category
              (Some d) r = (Raise (ValueError msg), r))
  ∧ (∀ (S : Type) (c : string) (depth : option Z) (shown : string) (s : S),
     c ≠ "" -> (depth = None ∨ ∃ d, depth = Some d ∧ 1 <= d) ->
     __category_parameter_verification [Some c] depth shown s = (Ok tt, s))
  ∧ (∀ transport fuel category results subcategories s,
     (category = None ∨ ∃ v, category = Some v ∧ strip v = "") ->
     categorymembers transport fuel category results subcategories s
       = (Raise (ValueError "Category must be specified"), s))
  ∧ (∀ transport query results redirect s,
     (query = None ∨ ∃ v, query = Some v ∧ strip v = "") ->
     opensearch transport query results redirect s
       = (Raise (ValueError "Query must be specified"), s))
  ∧ (∀ transport fuel q s,
     strip q = "" ->
     (_use_cache (self s) = false ∧ is_Some (_cache (self s)))
     ∨ (_use_cache (self s) = true ∧ _cache (self s) = Some ∅) ->
     (∃ s', memo_categorymembers transport fuel [PyStr q] [] s
              = (Raise (ValueError "Category must be specified"), s')
            ∧ world s' = world s)
     ∧ (∃ s', memo_opensearch transport [PyStr q] [] s
                = (Raise (ValueError "Query must be specified"), s')
              ∧ world s' = world s)).
Proof.
  split_and!.
  - intros Page page pc cm fuel c depth r [-> | ->]; reflexivity.
  - intros Page page pc cm fuel category d r Hd.
    unfold categorytree_run, bind, __category_parameter_verification.
    assert (Hlt : (d <? 1) = true) by (apply Z.ltb_lt; lia).
    destruct category as [c | l].
    + destruct (is_none_or_empty c); rewrite ?Hlt; eexists; reflexivity.
    + destruct l as [|c0 [|c1 l]]; try destruct (is_none_or_empty c0);
        rewrite ?Hlt; eexists; reflexivity.
  - intros S c depth shown s Hc Hd. now apply verification_accepts.
  - intros. now apply categorymembers_blank.
  - intros. now apply opensearch_blank.
  - intros transport fuel q s Hq Hs. split.
    + apply wrapper_raises; [discriminate | | exact Hs].
      intros s0. change (categorymembers_call transport fuel [PyStr q] [] s0)
        with (categorymembers transport fuel (Some q) (Some 10) true s0).
      apply categorymembers_blank. right. now exists q.
    + apply wrapper_raises; [discriminate | | exact Hs].
      intros s0. change (opensearch_call transport [PyStr q] [] s0)
        with (opensearch transport (Some q) (Some 10) true s0).
      apply opensearch_blank. right. now exists q.
Qed.

Lemma validation_precedes_requests_witness :
  wiki_tree_run chain_wiki 6 (One (Some "")) (Some 5) (new_run string state0)
    = (Raise (ValueError (category_msg "")), new_run string state0)
  ∧ (∃ msg, wiki_tree_run chain_wiki 6 (One (Some "A")) (Some 0) (new_run string state0)
            = (Raise (ValueError msg), new_run string state0))
  ∧ categorymembers (listing_transport fruit) 10 (Some "") (Some 10) true state0
    = (Raise (ValueError "Category must be specified"), state0)
  ∧ opensearch (listing_transport fruit) (Some "  ") (Some 10) true state0
    = (Raise (ValueError "Query must be specified"), state0)
  ∧ (∃ s', memo_categorymembers (listing_transport fruit) 10 [PyStr ""] [] state0
           = (Raise (ValueError "Category must be specified"), s')
         ∧ world s' = world state0).
Proof.
  destruct validation_precedes_requests as (H1 & H2 & _ & H4 & H5 & H6).
  split_and!.
  - apply (H1 string). right; reflexivity.
  - apply (H2 string). lia.
  - apply H4. right. exists "". split; reflexivity.
  - apply H5. right. exists "  ". split; reflexivity.
  - apply (H6 (listing_transport fruit) 10%nat "" state0); [reflexivity|].
    right. split; reflexivity.
Defined.

(** ** Pagination *)

Section Pagination.

Variable transport : World -> Request -> TransportResult.

#[local] Abbreviation body := (paging_body transport).
#[local] Abbreviation ploop := (paging_loop transport).

Lemma paging_loop_step (fuel : nat) (category : string) (results : option Z)
    (p : Paging) (s : St) :
  finished p = false ->
  ploop (S fuel) category results p s =
    match body category results p s with
    | (Ok (Break, p'), s') => (Ok p', s')
    | (Ok (EndOfBody, p'), s') => ploop fuel category results p' s'
    | (Raise e, s') => (Raise e, s')
    | (Diverge, s') => (Diverge, s')
    end.
Proof.
  intros Hf. simpl. rewrite Hf. unfold bind.
  destruct (paging_body _ _ _ _ _) as [[[[|] p']| |] s']; reflexivity.
Qed.

(** The body changes the state only by its request. *)
Lemma paging_body_state (category : string) (results : option Z) (p : Paging)
    (s s1 : St) (b : Body) :
  wiki_request transport (next_params p) s = (Ok b, s1) ->
  (body category results p s).2 = s1.
Proof.
  intros H. unfold paging_body, bind. fold (next_params p). rewrite H.
  destruct b as [r | items].
  - destruct (check_error_cases r (Some category) s1) as [[_ ->] | [e ->]]; [|reflexivity].
    destruct (r_query r) as [q|]; simpl; [|reflexivity].
    destruct (q_categorymembers q) as [members|]; simpl; [|reflexivity].
    unfold gets, ret. destruct (next_cont r) as [cont|]; [|reflexivity].
    destruct (decide (last_cont p = cont)); reflexivity.
  - unfold _check_error_response.
    destruct (existsb (item_is "error") items); reflexivity.
Qed.

(** What the body yields when one of the three stop conditions holds:
    it ends the loop, by [break] or by setting [finished], unless it
    raises. *)
Lemma paging_body_stops (category : string) (results : option Z) (p : Paging)
    (s s1 : St) (r : Response) :
  wiki_request transport (next_params p) s = (Ok (Dict r), s1) ->
  next_cont r = None ∨ next_cont r = Some (last_cont p)
  ∨ (∃ n, results = Some n ∧ n <= returned_results p + pull r) ->
  (∃ e, body category results p s = (Raise e, s1))
  ∨ (∃ p', body category results p s = (Ok (Break, p'), s1))
  ∨ (∃ p', body category results p s = (Ok (EndOfBody, p'), s1) ∧ finished p' = true).
Proof.
  intros H Hstop. unfold paging_body, bind. fold (next_params p). rewrite H.
  destruct (check_error_cases r (Some category) s1) as [[_ ->] | [e ->]];
    [|left; eexists; reflexivity].
  unfold pull in Hstop.
  destruct (r_query r) as [q|]; simpl in *; [|left; eexists; reflexivity].
  destruct (q_categorymembers q) as [members|]; simpl in *; [|left; eexists; reflexivity].
  unfold gets, ret.
  destruct (next_cont r) as [cont|] eqn:Hc; [|right; left; eexists; reflexivity].
  destruct (decide (last_cont p = cont)) as [Heq | Hne]; [right; left; eexists; reflexivity|].
  destruct Hstop as [Hn | [Hs | (n & -> & Hn)]]; [discriminate | congruence |].
  right; right. eexists. split; [reflexivity|]. simpl.
  replace (0 <? n - (returned_results p + Z.of_nat (length members))) with false
    by (symmetry; apply Z.ltb_ge; lia).
  reflexivity.
Qed.

Lemma paging_loop_stops (fuel : nat) (category : string) (results : option Z)
    (p : Paging) (s s1 : St) (r : Response) :
  finished p = false ->
  wiki_request transport (next_params p) s = (Ok (Dict r), s1) ->
  next_cont r = None ∨ next_cont r = Some (last_cont p)
  ∨ (∃ n, results = Some n ∧ n <= returned_results p + pull r) ->
  ploop (S fuel) category results p s = ploop 1 category results p s
  ∧ (ploop 1 category results p s).1 ≠ Diverge
  ∧ (ploop 1 category results p s).2 = s1.
Proof.
  intros Hf H Hstop. simpl. rewrite Hf. unfold bind.
  destruct (paging_body_stops category results p s s1 r H Hstop)
    as [(e & ->) | [(p' & ->) | (p' & -> & Hp')]]; simpl.
  - split_and!; [reflexivity | discriminate | reflexivity].
  - split_and!; [reflexivity | discriminate | reflexivity].
  - destruct fuel; simpl; rewrite Hp'; split_and!; (reflexivity || discriminate).
Qed.

(** After a body that neither broke out nor finished, [last_cont] is the
    token of the answer just received. *)
Lemma paging_body_keeps_token (category : string) (results : option Z) (p p1 : Paging)
    (s s1 s1' : St) (r : Response) :
  wiki_request transport (next_params p) s = (Ok (Dict r), s1) ->
  body category results p s = (Ok (EndOfBody, p1), s1') ->
  finished p = false -> finished p1 = false ->
  next_cont r = Some (last_cont p1) ∧ s1' = s1.
Proof.
  intros H Hb Hf Hf1. revert Hb. unfold paging_body, bind. fold (next_params p).
  rewrite H.
  destruct (check_error_cases r (Some category) s1) as [[_ ->] | [e ->]]; [|discriminate].
  destruct (r_query r) as [q|]; simpl; [|discriminate].
  destruct (q_categorymembers q) as [members|]; simpl; [|discriminate].
  unfold gets, ret. destruct (next_cont r) as [cont|]; [|discriminate].
  destruct (decide (last_cont p = cont)) as [Heq | Hne]; [discriminate|].
  intros Hb. injection Hb as <- <-. simpl in Hf1. split; [|reflexivity].
  destruct results as [n|]; [|reflexivity].
  destruct (0 <? n - _); [reflexivity | discriminate].
Qed.

(** C3: an iteration of the loop of [categorymembers] whose answer omits
    the continuation token, or carries the token of the previous
    iteration, or brings the number of records received to the requested
    number, is the last one: whatever fuel is left, the loop ends with
    that request (returning, or raising what the answer makes it
    raise).  In particular, when two answers in a row carry the same
    token, the loop ends with the request that received the second. *)
Theorem pagination_loop_terminates :
  (∀ fuel category results p s s1 r,
     finished p = false ->
     wiki_request transport (next_params p) s = (Ok (Dict r), s1) ->
     next_cont r = None ∨ next_cont r = Some (last_cont p)
     ∨ (∃ n, results = Some n ∧ n <= returned_results p + pull r) ->
     ploop (S fuel) category results p s = ploop 1 category results p s
     ∧ (ploop 1 category results p s).1 ≠ Diverge
     ∧ (ploop 1 category results p s).2 = s1)
  ∧ (∀ fuel category results p p1 s s1 s1' s2 r1 r2,
     finished p = false ->
     wiki_request transport (next_params p) s = (Ok (Dict r1), s1) ->
     body category results p s = (Ok (EndOfBody, p1), s1') ->
     finished p1 = false ->
     wiki_request transport (next_params p1) s1' = (Ok (Dict r2), s2) ->
     next_cont r2 = next_cont r1 ->
     ploop (S (S fuel)) category results p s = ploop 2 category results p s
     ∧ (ploop 2 category results p s).1 ≠ Diverge
     ∧ (ploop 2 category results p s).2 = s2).
Proof.
  split.
  - intros. now apply (paging_loop_stops fuel category results p s s1 r).
  - intros fuel category results p p1 s s1 s1' s2 r1 r2 Hf H1 Hb Hf1 H2 Heq.
    destruct (paging_body_keeps_token category results p p1 s s1 s1' r1 H1 Hb Hf Hf1)
      as [Htok ->].
    assert (Hstop : next_cont r2 = None ∨ next_cont r2 = Some (last_cont p1)
                    ∨ (∃ n, results = Some n ∧ n <= returned_results p1 + pull r2))
      by (right; left; congruence).
    destruct (paging_loop_stops fuel category results p1 s1 s2 r2 Hf1 H2 Hstop)
      as (Ha & Hb' & Hc).
    rewrite !paging_loop_step by assumption. rewrite Hb.
    split_and!; [exact Ha | exact Hb' | exact Hc].
Qed.

End Pagination.

Lemma pagination_loop_terminates_witness :
  let p0 := initial_paging "Category" "Fruit" None true in
  (paging_loop (listing_transport fruit) 7 "Fruit" None p0 state0
     = paging_loop (listing_transport fruit) 1 "Fruit" None p0 state0
   ∧ (paging_loop (listing_transport fruit) 1 "Fruit" None p0 state0).1 ≠ Diverge)
  ∧ (paging_loop stuck_transport 10 "Fruit" None p0 state0
       = paging_loop stuck_transport 2 "Fruit" None p0 state0
     ∧ (paging_loop stuck_transport 2 "Fruit" None p0 state0).1 ≠ Diverge).
Proof.
  cbv zeta. split.
  - destruct (pagination_loop_terminates (listing_transport fruit)) as [H1 _].
    pose (a := wiki_request (listing_transport fruit)
                 (next_params (initial_paging "Category" "Fruit" None true)) state0).
    assert (Ha : a = (Ok (Dict (listing_answer fruit
                                  (<["action" := PyStr "query"]>
                                     (<["format" := PyStr "json"]>
                                        (next_params (initial_paging "Category" "Fruit" None true)))))),
                      a.2))
      by (vm_compute; reflexivity).
    destruct (H1 6%nat "Fruit" None (initial_paging "Category" "Fruit" None true)
                state0 _ _ eq_refl Ha) as (E1 & E2 & _).
    + left. vm_compute. reflexivity.
    + split; assumption.
  - destruct (pagination_loop_terminates stuck_transport) as [_ H2].
    pose (a := wiki_request stuck_transport
                 (next_params (initial_paging "Category" "Fruit" None true)) state0).
    assert (Ha : a = (Ok (Dict stuck_answer), a.2)) by (vm_compute; reflexivity).
    pose (b := paging_body stuck_transport "Fruit" None
                 (initial_paging "Category" "Fruit" None true) state0).
    assert (Hb : ∃ p1 s1, b = (Ok (EndOfBody, p1), s1) ∧ finished p1 = false
                          ∧ wiki_request stuck_transport (next_params p1) s1
                            = (Ok (Dict stuck_answer),
                               (wiki_request stuck_transport (next_params p1) s1).2))
      by (eexists; eexists; split_and!; vm_compute; reflexivity).
    destruct Hb as (p1 & s1 & Hb & Hf1 & Ha2).
    destruct (H2 8%nat "Fruit" None (initial_paging "Category" "Fruit" None true)
                p1 state0 _ s1 _ stuck_answer stuck_answer
                eq_refl Ha Hb Hf1 Ha2 eq_refl) as (E1 & E2 & _).
    split; assumption.
Defined.

(** ** Memoization *)

Section MemoFacts.

Variable name : string.
Variable signature : gmap string PyVal.
Variable func : list PyVal -> list (string * PyVal) -> M St Value.
Variable args : list PyVal.
Variable kwargs : list (string * PyVal).

#[local] Abbreviation op := (wrapper name signature func args kwargs).

Lemma memoized_eq (s : St) (c : Cache) :
  _cache (self s) = Some c -> memoized s = (Ok c, s).
Proof. intros H. unfold memoized. rewrite H. reflexivity. Qed.

Lemma lookup_entries_eq (s : St) (m : gmap string (Z * Value)) :
  own_entries name (self s) = Some (Entries m) -> lookup_entries name s = (Ok m, s).
Proof.
  unfold own_entries, lookup_entries, bind, memoized.
  destruct (_cache (self s)) as [c|]; simpl; [|discriminate].
  intros ->. reflexivity.
Qed.

Lemma lookup_defaults_eq (s : St) (d : gmap string PyVal) :
  own_defaults name (self s) = Some d -> lookup_defaults name s = (Ok d, s).
Proof.
  unfold own_defaults, lookup_defaults, bind, memoized.
  destruct (_cache (self s)) as [c|]; simpl; [|discriminate].
  destruct (c !! "defaults") as [[m|dd]|]; simpl; try discriminate.
  intros ->. reflexivity.
Qed.

Lemma lookup_entries_ok (s s' : St) (m : gmap string (Z * Value)) :
  lookup_entries name s = (Ok m, s') ->
  s' = s ∧ own_entries name (self s) = Some (Entries m).
Proof.
  unfold own_entries, lookup_entries, bind, memoized.
  destruct (_cache (self s)) as [c|]; simpl; [|discriminate].
  destruct (c !! name) as [[m'|dd]|]; simpl; try discriminate.
  intros H. injection H as <- <-. split; reflexivity.
Qed.

Lemma lookup_defaults_ok (s s' : St) (d : gmap string PyVal) :
  lookup_defaults name s = (Ok d, s') ->
  s' = s ∧ own_defaults name (self s) = Some d.
Proof.
  unfold own_defaults, lookup_defaults, bind, memoized.
  destruct (_cache (self s)) as [c|]; simpl; [|discriminate].
  destruct (c !! "defaults") as [[m|dd]|]; simpl; try discriminate.
  destruct (dd !! name) as [d'|]; simpl; try discriminate.
  intros H. injection H as <- <-. split; reflexivity.
Qed.

Lemma wrapper_hit (s : St) (m : gmap string (Z * Value)) (d : gmap string PyVal)
    (t : Z) (v : Value) :
  _use_cache (self s) = true -> _refresh_interval (self s) = None ->
  own_entries name (self s) = Some (Entries m) ->
  own_defaults name (self s) = Some d ->
  m !! make_key d args kwargs = Some (t, v) ->
  op s = (Ok v, s).
Proof.
  intros Hu Hr He Hd Hk.
  assert (Hc : ∃ c, _cache (self s) = Some c ∧ c !! name = Some (Entries m)).
  { unfold own_entries in He. destruct (_cache (self s)) as [c|]; [|discriminate].
    exists c. split; [reflexivity | exact He]. }
  destruct Hc as (c & Hc & Hn).
  unfold wrapper, bind, gets. rewrite (memoized_eq s c Hc), Hu, Hr. simpl.
  rewrite Hn. simpl.
  rewrite (lookup_defaults_eq s d Hd), (lookup_entries_eq s m He), Hk. simpl.
  rewrite (lookup_entries_eq s m He). simpl. rewrite Hk. reflexivity.
Qed.


Lemma wrapper_miss_inv (s s1 : St) (m : gmap string (Z * Value)) (d : gmap string PyVal)
    (v : Value) :
  _use_cache (self s) = true ->
  own_entries name (self s) = Some (Entries m) ->
  own_defaults name (self s) = Some d ->
  m !! make_key d args kwargs = None ->
  own_entries name (self (func args kwargs s).2) = own_entries name (self s) ->
  op s = (Ok v, s1) ->
  ∃ s' c', func args kwargs s = (Ok v, s')
           ∧ _cache (self s') = Some c'
           ∧ s1 = on_self (with_cache
                    (Some (<[name := Entries (<[make_key d args kwargs
                                                 := (clock (world s), v)]> m)]> c'))) s'.
Proof.
  intros Hu He Hd Hk Hframe.
  assert (Hc : ∃ c, _cache (self s) = Some c ∧ c !! name = Some (Entries m)).
  { unfold own_entries in He. destruct (_cache (self s)) as [c|]; [|discriminate].
    exists c. split; [reflexivity | exact He]. }
  destruct Hc as (c & Hc & Hn).
  unfold wrapper, bind, gets. rewrite (memoized_eq s c Hc), Hu. simpl.
  rewrite Hn. simpl.
  rewrite (lookup_defaults_eq s d Hd), (lookup_entries_eq s m He), Hk.
  unfold compute_and_store, bind, now, gets.
  destruct (func args kwargs s) as [[v'| |] s'] eqn:Hf; try discriminate.
  simpl in Hframe.
  rewrite He in Hframe.
  assert (Hc' : ∃ c', _cache (self s') = Some c').
  { unfold own_entries in Hframe. destruct (_cache (self s')) as [c'|]; [|discriminate].
    now exists c'. }
  destruct Hc' as (c' & Hc').
  rewrite (memoized_eq s' c' Hc'), (lookup_entries_eq s' m Hframe).
  unfold set_memoized, modify.
  rewrite lookup_entries_eq with (m := <[make_key d args kwargs := (clock (world s), v')]> m)
    by (unfold own_entries; simpl; now rewrite lookup_insert_eq).
  simpl. rewrite lookup_insert_eq. simpl.
  intros H. injection H as <- <-. exists s', c'.
  split_and!; [reflexivity | exact Hc' | reflexivity].
Qed.

Lemma wrapper_init_inv (s s1 : St) (c : Cache) (v : Value) :
  name ≠ "defaults" ->
  _cache (self s) = Some c -> _use_cache (self s) = true ->
  c !! name = None ->
  op s = (Ok v, s1) ->
  ∃ c_i, op (on_self (with_cache (Some c_i)) s) = (Ok v, s1)
         ∧ own_entries name (self (on_self (with_cache (Some c_i)) s)) = Some (Entries ∅)
         ∧ own_defaults name (self (on_self (with_cache (Some c_i)) s)) = Some signature.
Proof.
  intros Hname Hc Hu Hn.
  unfold wrapper at 1. unfold bind at 1 2 3 4. unfold gets.
  rewrite (memoized_eq s c Hc), Hu. simpl. rewrite Hn.
  unfold init_partitions, set_memoized, modify.
  rewrite lookup_insert_ne by congruence.
  destruct (c !! "defaults") as [[m0|d0]|] eqn:Hdef.
  - rewrite lookup_insert_ne by congruence. rewrite Hdef. discriminate.
  - rewrite lookup_insert_ne by congruence. rewrite Hdef.
    intros H.
    exists (<["defaults" := Defaults (<[name := signature]> d0)]> (<[name := Entries ∅]> c)).
    split_and!.
    + unfold wrapper, bind at 1 2 3 4, gets, memoized. simpl. rewrite Hu. simpl.
      rewrite lookup_insert_ne by congruence. rewrite lookup_insert_eq. exact H.
    + unfold own_entries. simpl. rewrite lookup_insert_ne by congruence.
      now rewrite lookup_insert_eq.
    + unfold own_defaults. simpl. rewrite lookup_insert_eq. simpl.
      now rewrite lookup_insert_eq.
  - rewrite lookup_insert_eq.
    intros H.
    exists (<["defaults" := Defaults (<[name := signature]> ∅)]>
              (<["defaults" := Defaults ∅]> (<[name := Entries ∅]> c))).
    split_and!.
    + unfold wrapper, bind at 1 2 3 4, gets, memoized. simpl. rewrite Hu. simpl.
      rewrite lookup_insert_ne by congruence. rewrite lookup_insert_ne by congruence.
      rewrite lookup_insert_eq. exact H.
    + unfold own_entries. simpl. rewrite lookup_insert_ne by congruence.
      rewrite lookup_insert_ne by congruence.
      now rewrite lookup_insert_eq.
    + unfold own_defaults. simpl. rewrite lookup_insert_eq. simpl.
      now rewrite lookup_insert_eq.
Qed.

End MemoFacts.

Lemma counted_eq {A} (x : string) (f : M St A) (s : St) :
  counted x f s = f (noted_state x s).
Proof. reflexivity. Qed.

Lemma calls_noted (x : string) (s : St) : calls x (noted_state x s) = S (calls x s).
Proof.
  unfold calls, noted_state. simpl. rewrite filter_app, length_app. simpl.
  rewrite filter_cons_True by reflexivity. simpl. lia.
Qed.

Lemma own_defaults_insert (name : string) (part : Partition) (c : Cache) (cl : Client) :
  name ≠ "defaults" -> _cache cl = Some c ->
  own_defaults name (with_cache (Some (<[name := part]> c)) cl) = own_defaults name cl.
Proof.
  intros Hn Hc. unfold own_defaults. simpl. rewrite Hc. simpl.
  now rewrite lookup_insert_ne by congruence.
Qed.

Section Once.

Variable name : string.
Variable signature : gmap string PyVal.
Variable f : list PyVal -> list (string * PyVal) -> M St Value.
Hypothesis Hname : name ≠ "defaults".
Hypothesis Hframe : ∀ a k, keeps_memo_of name (f a k).

#[local] Abbreviation mop := (wrapper name signature (fun a k => counted name (f a k))).

Lemma wrapper_ready_inv (args : list PyVal) (kwargs : list (string * PyVal))
    (s s1 : St) (c : Cache) (part : Partition) (v : Value) :
  _cache (self s) = Some c -> _use_cache (self s) = true ->
  c !! name = Some part ->
  mop args kwargs s = (Ok v, s1) ->
  ∃ m d, own_entries name (self s) = Some (Entries m)
         ∧ own_defaults name (self s) = Some d.
Proof.
  intros Hc Hu Hn.
  unfold wrapper, bind at 1 2 3 4, gets. rewrite (memoized_eq s c Hc), Hu. simpl.
  rewrite Hn. unfold ret at 1. unfold bind at 1.
  destruct (lookup_defaults name s) as [[d| |] s'] eqn:Hd; try discriminate.
  destruct (lookup_defaults_ok name s s' d Hd) as [-> Hd'].
  unfold bind at 1.
  destruct (lookup_entries name s) as [[m| |] s'] eqn:He; try discriminate.
  destruct (lookup_entries_ok name s s' m He) as [-> He'].
  intros _. now exists m, d.
Qed.

Lemma wrapper_once_ready (args : list PyVal) (kwargs : list (string * PyVal))
    (s s1 : St) (m : gmap string (Z * Value)) (d : gmap string PyVal) (v : Value) :
  _use_cache (self s) = true -> _refresh_interval (self s) = None ->
  own_entries name (self s) = Some (Entries m) ->
  own_defaults name (self s) = Some d ->
  m !! make_key d args kwargs = None ->
  mop args kwargs s = (Ok v, s1) ->
  calls name s1 = S (calls name s)
  ∧ ∀ s2, self s2 = self s1 -> mop args kwargs s2 = (Ok v, s2).
Proof.
  intros Hu Hr He Hd Hk Hcall.
  destruct (Hframe args kwargs (noted_state name s)) as (Fu & Fr & Fe & Fd & Fc).
  destruct (wrapper_miss_inv name signature (fun a k => counted name (f a k)) args kwargs
              s s1 m d v Hu He Hd Hk) as (s' & c' & Hf & Hc' & ->).
  { rewrite counted_eq. exact Fe. }
  { exact Hcall. }
  rewrite counted_eq in Hf. rewrite Hf in Fu, Fr, Fe, Fd, Fc. simpl in Fu, Fr, Fe, Fd, Fc.
  split.
  - unfold calls in *. simpl. rewrite Fc. apply (calls_noted name s).
  - intros s2 Hs2.
    apply (wrapper_hit name signature _ args kwargs s2
             (<[make_key d args kwargs := (clock (world s), v)]> m) d (clock (world s)) v);
      rewrite ?Hs2.
    + simpl. now rewrite Fu.
    + simpl. now rewrite Fr.
    + unfold own_entries. simpl. now rewrite lookup_insert_eq.
    + simpl. rewrite (own_defaults_insert name _ c' (self s') Hname Hc'). now rewrite Fd.
    + now rewrite lookup_insert_eq.
Qed.

(** C2: for a memoized operation [name] whose compute function is [f]
    (wrapped by a mock that counts its invocations; [f] is any function
    that leaves the cache settings and the cache partition of [name]
    alone).  With [use_cache] true and no refresh interval, a call whose
    result is not stored yet and which returns invokes [f] exactly once,
    and the same call made again, at once or at any later time,
    returns the stored value without invoking [f] and without changing
    the state: two successive calls, one invocation.  With [use_cache]
    false every call is one invocation of [f]. *)
Theorem memoize_computes_once :
  (∀ args kwargs s0 s1 v,
     _use_cache (self s0) = true -> _refresh_interval (self s0) = None ->
     is_cached name args kwargs (self s0) = false ->
     mop args kwargs s0 = (Ok v, s1) ->
     calls name s1 = S (calls name s0)
     ∧ mop args kwargs s1 = (Ok v, s1)
     ∧ ∀ s2, self s2 = self s1 -> mop args kwargs s2 = (Ok v, s2))
  ∧ (∀ args kwargs s,
     _use_cache (self s) = false -> is_Some (_cache (self s)) ->
     mop args kwargs s = f args kwargs (noted_state name s)
     ∧ calls name (mop args kwargs s).2 = S (calls name s)).
Proof.
  split.
  - intros args kwargs s0 s1 v Hu Hr Hnc Hcall.
    destruct (_cache (self s0)) as [c|] eqn:Hc.
    2: { unfold wrapper, bind, memoized in Hcall. rewrite Hc in Hcall. discriminate. }
    destruct (c !! name) as [part|] eqn:Hn.
    + destruct (wrapper_ready_inv args kwargs s0 s1 c part v Hc Hu Hn Hcall)
        as (m & d & He & Hd).
      destruct (wrapper_once_ready args kwargs s0 s1 m d v Hu Hr He Hd) as [H1 H2];
        [|exact Hcall|split_and!; [exact H1 | now apply H2 | exact H2]].
      unfold is_cached in Hnc. rewrite He, Hd in Hnc.
      destruct (m !! make_key d args kwargs) eqn:E; [|reflexivity].
      rewrite bool_decide_eq_false in Hnc. contradiction Hnc. eauto.
    + destruct (wrapper_init_inv name signature _ args kwargs s0 s1 c v Hname Hc Hu Hn Hcall)
        as (c_i & Hcall_i & He & Hd).
      destruct (wrapper_once_ready args kwargs (on_self (with_cache (Some c_i)) s0) s1
                  ∅ signature v Hu Hr He Hd (lookup_empty _) Hcall_i) as [H1 H2].
      split_and!; [exact H1 | now apply H2 | exact H2].
  - intros args kwargs s Hu [c Hc].
    assert (E : mop args kwargs s = f args kwargs (noted_state name s)).
    { unfold wrapper, bind, gets. rewrite (memoized_eq s c Hc), Hu. reflexivity. }
    split; [exact E|]. rewrite E.
    destruct (Hframe args kwargs (noted_state name s)) as (_ & _ & _ & _ & Fc).
    rewrite Fc. apply calls_noted.
Qed.

End Once.

Lemma constant_op_keeps_memo (name : string) (v : Value) (a : list PyVal)
    (k : list (string * PyVal)) :
  keeps_memo_of name (constant_op v a k).
Proof. intros s. split_and!; reflexivity. Qed.

Lemma memoize_computes_once_witness :
  let op := wrapper "summary" ∅ (fun a k => counted "summary" (constant_op (VStr "text") a k)) in
  let uncached := on_self (with_use_cache false) state0 in
  let s1 := (op [PyStr "Paris"] [] state0).2 in
  (calls "summary" s1 = 1%nat ∧ op [PyStr "Paris"] [] s1 = (Ok (VStr "text"), s1))
  ∧ calls "summary" (op [PyStr "Paris"] [] uncached).2 = 1%nat.
Proof.
  cbv zeta.
  destruct (memoize_computes_once "summary" ∅ (constant_op (VStr "text"))
              ltac:(discriminate) (constant_op_keeps_memo "summary" (VStr "text")))
    as [Hon Hoff].
  split.
  - destruct (Hon [PyStr "Paris"] [] state0
                (wrapper "summary" ∅
                   (fun a k => counted "summary" (constant_op (VStr "text") a k))
                   [PyStr "Paris"] [] state0).2 (VStr "text"))
      as (H1 & H2 & _); [reflexivity | reflexivity | reflexivity | | split; assumption].
    vm_compute. reflexivity.
  - apply (Hoff [PyStr "Paris"] [] (on_self (with_use_cache false) state0));
      [reflexivity | eexists; reflexivity].
Defined.

(** ** The depth of the category tree *)

Section StaticTree.

Variable w : Wiki.
Variable s : St.

#[local] Abbreviation prefix := (_cat_prefix (self s)).
#[local] Abbreviation title c := (prefix +:+ ":" +:+ c).
#[local] Abbreviation rec := (__cat_tree_rec string wiki_page (wiki_page_categories w) (wiki_members w)).

#[local] Abbreviation consistent := (consistent_run w s).

Lemma consistent_new : consistent (new_run string s).
Proof.
  split_and!; [reflexivity | constructor |]. intros c. split.
  - intros H. simpl in H. now apply elem_of_nil in H.
  - intros _. apply lookup_empty.
Qed.

Lemma fetch_new (cat : string) (r : Run string) :
  fetch_loop string wiki_page (wiki_page_categories w) (wiki_members w) 12 cat 0 r
    = (Ok (parents_of w (_cat_prefix (self (st string r)) +:+ ":" +:+ cat)), fetched w cat r).
Proof. reflexivity. Qed.

Lemma consistent_fetched (cat : string) (r : Run string) :
  consistent r -> cat ∉ fetches string r -> consistent (fetched w cat r).
Proof.
  intros (Hs & Hnd & Hc) Hnew. split_and!.
  - exact Hs.
  - simpl. apply NoDup_app. split_and!; [exact Hnd | | apply NoDup_singleton].
    intros x Hx Hx'. apply list_elem_of_singleton in Hx'. subst. contradiction.
  - intros c. simpl. rewrite Hs. split.
    + intros H. apply elem_of_app in H. destruct (decide (c = cat)) as [-> | Hne].
      * rewrite !lookup_insert_eq. split; reflexivity.
      * rewrite !lookup_insert_ne by congruence.
        destruct H as [H | H]; [now apply Hc|].
        apply list_elem_of_singleton in H. contradiction.
    + intros H. rewrite elem_of_app in H.
      rewrite lookup_insert_ne.
      * apply Hc. tauto.
      * intros ->. apply H. right. now apply list_elem_of_singleton.
Qed.

(** The first part of the recursive function: the node's own data. *)
Lemma resolve (cat : string) (r : Run string) :
  consistent r ->
  ∃ r', consistent r'
        ∧ (∀ c, c ∈ fetches string r' ↔ c ∈ fetches string r ∨ c = cat)
        ∧ ∀ fuel depth tree level,
            rec (S fuel) cat depth tree level r =
              bind (if at_depth_limit depth level then ret (placeholders (subcats_of w cat))
                    else foldM (fun t ctg => rec fuel ctg depth t (level + 1))
                               (subcats_of w cat) ∅)
                   (fun sub => ret (<[cat := Some (node_of w prefix level cat sub)]> tree)) r'.
Proof.
  intros Hr. destruct (decide (cat ∈ fetches string r)) as [Hin | Hout].
  - exists r. split_and!; [exact Hr | |].
    + intros c. split; [tauto|]. intros [H | ->]; assumption.
    + intros fuel depth tree level.
      destruct Hr as (Hs & _ & Hc). destruct (proj1 (Hc cat) Hin) as [Hk Hl].
      destruct r as [st0 cats lnk fs]. simpl in Hs, Hk, Hl. subst st0.
      cbn [__cat_tree_rec]. unfold bind at 1. unfold gets at 1. cbn [categories].
      rewrite Hk. unfold bind at 1. unfold lift, wiki_page_categories, ret at 1.
      cbn [st categories run_links fetches].
      unfold bind at 1. unfold gets at 1. cbn [run_links]. unfold bind at 1. rewrite Hl.
      unfold subscript, ret at 1. unfold node_of. reflexivity.
  - exists (fetched w cat r). split_and!.
    + now apply consistent_fetched.
    + intros c. simpl. rewrite elem_of_app, list_elem_of_singleton. tauto.
    + intros fuel depth tree level.
      destruct Hr as (Hs & _ & Hc). pose proof (proj2 (Hc cat) Hout) as Hk.
      cbn [__cat_tree_rec]. unfold bind at 1. unfold gets at 1.
      rewrite Hk. unfold bind at 1. rewrite fetch_new.
      unfold bind at 1. unfold gets at 1. unfold bind at 1.
      replace (run_links string (fetched w cat r) !! cat)
        with (Some (pages_of w cat, subcats_of w cat))
        by (simpl; now rewrite lookup_insert_eq).
      unfold subscript, ret at 1. unfold node_of. rewrite Hs. reflexivity.
Qed.


Lemma elem_of_flat_map (f : string -> list string) (l : list string) (x : string) :
  x ∈ flat_map f l ↔ ∃ y, y ∈ l ∧ x ∈ f y.
Proof.
  rewrite list_elem_of_In, in_flat_map. split.
  - intros (y & Hy & Hx). exists y. now rewrite !list_elem_of_In.
  - intros (y & Hy & Hx). exists y. now rewrite <- !list_elem_of_In.
Qed.

Lemma at_limit (d : Z) : 1 <= d -> at_depth_limit (Some d) d = true.
Proof.
  intros H. unfold at_depth_limit.
  replace (d =? 0) with false by (symmetry; apply Z.eqb_neq; lia).
  replace (d <=? d) with true by (symmetry; apply Z.leb_le; lia). reflexivity.
Qed.

Lemma below_limit (d level : Z) : level < d -> at_depth_limit (Some d) level = false.
Proof.
  intros H. unfold at_depth_limit.
  replace (d <=? level) with false by (symmetry; apply Z.leb_gt; lia).
  apply andb_false_r.
Qed.

Lemma rec_expands (d : Z) :
  1 <= d ->
  ∀ (n fuel : nat) (cat : string) (tree : Tree) (level : Z) (r : Run string),
    consistent r -> (n < fuel)%nat -> level + Z.of_nat n = d ->
    ∃ r', rec fuel cat (Some d) tree level r
            = (Ok (<[cat := Some (expanded w prefix n level cat)]> tree), r')
          ∧ consistent r'
          ∧ ∀ c, c ∈ fetches string r' ↔ c ∈ fetches string r ∨ c ∈ within w n cat.
Proof.
  intros Hd. induction n as [|n IH]; intros fuel cat tree level r Hr Hfuel Hlevel.
  - destruct fuel as [|fuel]; [lia|].
    destruct (resolve cat r Hr) as (r1 & Hr1 & Hf1 & Hrec).
    exists r1. split_and!; [|exact Hr1|].
    + rewrite Hrec. replace level with d by lia. rewrite (at_limit d Hd). reflexivity.
    + intros c. rewrite Hf1. simpl. rewrite list_elem_of_singleton. tauto.
  - destruct fuel as [|fuel]; [lia|].
    destruct (resolve cat r Hr) as (r1 & Hr1 & Hf1 & Hrec).
    assert (Hfold : ∀ (l : list string) (t : Tree) (r2 : Run string),
              consistent r2 ->
              ∃ r', foldM (fun t ctg => rec fuel ctg (Some d) t (level + 1)) l t r2
                      = (Ok (fold_left
                               (fun t ctg => <[ctg := Some (expanded w prefix n (level + 1) ctg)]> t)
                               l t), r')
                    ∧ consistent r'
                    ∧ ∀ c, c ∈ fetches string r'
                           ↔ c ∈ fetches string r2 ∨ ∃ ctg, ctg ∈ l ∧ c ∈ within w n ctg).
    { induction l as [|ctg l IHl]; intros t r2 Hr2.
      - exists r2. split_and!; [reflexivity | exact Hr2 |].
        intros c. split; [tauto|]. intros [H | (ctg & H & _)]; [exact H|].
        now apply elem_of_nil in H.
      - destruct (IH fuel ctg t (level + 1) r2 Hr2) as (r3 & E3 & Hr3 & Hf3); [lia | lia |].
        destruct (IHl (<[ctg := Some (expanded w prefix n (level + 1) ctg)]> t) r3 Hr3)
          as (r4 & E4 & Hr4 & Hf4).
        exists r4. split_and!; [|exact Hr4|].
        + cbn [foldM fold_left]. unfold bind. rewrite E3. exact E4.
        + intros c. rewrite Hf4, Hf3. split.
          * intros [[H | H] | (x & Hx & H)]; [tauto | |].
            -- right. exists ctg. split; [apply elem_of_cons; tauto | exact H].
            -- right. exists x. split; [apply elem_of_cons; tauto | exact H].
          * intros [H | (x & Hx & H)]; [tauto|].
            apply elem_of_cons in Hx. destruct Hx as [-> | Hx]; [tauto|].
            right. exists x. tauto. }
    destruct (Hfold (subcats_of w cat) ∅ r1 Hr1) as (r2 & E2 & Hr2 & Hf2).
    exists r2. split_and!; [|exact Hr2|].
    + rewrite Hrec. rewrite (below_limit d level) by lia.
      unfold bind. rewrite E2. reflexivity.
    + intros c. rewrite Hf2, Hf1. cbn [within].
      rewrite elem_of_cons, elem_of_flat_map. tauto.
Qed.

End StaticTree.

Lemma fold_insert_lookup (g : string -> option Node) (l : list string) (t : Tree)
    (x : string) :
  fold_left (fun t c => <[c := g c]> t) l t !! x
    = if decide (x ∈ l) then Some (g x) else t !! x.
Proof.
  revert t. induction l as [|c l IH]; intros t; simpl.
  - destruct (decide (x ∈ [])) as [H | H]; [now apply elem_of_nil in H | reflexivity].
  - rewrite IH. destruct (decide (x ∈ l)) as [Hl | Hl].
    + rewrite decide_True by (apply elem_of_cons; tauto). reflexivity.
    + destruct (decide (x = c)) as [-> | Hne].
      * rewrite decide_True by (apply elem_of_cons; tauto). apply lookup_insert_eq.
      * rewrite decide_False by (rewrite elem_of_cons; tauto).
        now apply lookup_insert_ne.
Qed.

(** C1, as the code has it, for a wiki whose fetches succeed.  With a
    depth limit [d >= 1] the tree of the root is expanded over the levels
    0 to [d]: the node of a category at a level below [d] maps each of
    its subcategories to that subcategory's own node, one level down,
    and the node of a category at level [d] maps each of its
    subcategories to the null placeholder.  The categories fetched are
    exactly those within [d] steps of the root, each once.  Hence with
    depth 1 the subcategories of the root are expanded nodes of level 1
    (a fetch is made for each) and it is their subcategories that are
    placeholders, not fetched on that account; with depth 2 exactly one
    more level is expanded. *)
Theorem category_tree_depth_bound (w : Wiki) (s : St) (fuel : nat) (root : string) (d : Z) :
  root ≠ "" -> 1 <= d -> (Z.to_nat d < fuel)%nat ->
  let prefix := _cat_prefix (self s) in
  (∃ r', wiki_tree_run w fuel (One (Some root)) (Some d) (new_run string s)
           = (Ok {[root := Some (expanded w prefix (Z.to_nat d) 0 root)]}, r')
         ∧ st string r' = s
         ∧ NoDup (fetches string r')
         ∧ ∀ c, c ∈ fetches string r' ↔ c ∈ within w (Z.to_nat d) root)
  ∧ (∀ n level cat sub, sub ∈ subcats_of w cat ->
       depth (expanded w prefix n level cat) = level
       ∧ sub_categories (expanded w prefix (S n) level cat) !! sub
           = Some (Some (expanded w prefix n (level + 1) sub))
       ∧ sub_categories (expanded w prefix 0 level cat) !! sub = Some None).
Proof.
  intros Hroot Hd Hfuel prefix. split.
  - destruct (rec_expands w s d Hd (Z.to_nat d) fuel root ∅ 0 (new_run string s)
                (consistent_new w s) Hfuel) as (r' & E & (Hs & Hnd & _) & Hf); [lia|].
    exists r'. split_and!; [| exact Hs | exact Hnd |].
    + unfold wiki_tree_run, categorytree_run, bind.
      rewrite (verification_accepts root (Some d) _ _ Hroot
                 (or_intror (ex_intro _ d (conj eq_refl Hd)))).
      rewrite (non_empty_single root Hroot).
      cbn [foldM]. unfold bind. rewrite E. unfold ret. now rewrite insert_empty.
    + intros c. rewrite Hf. simpl. rewrite elem_of_nil. tauto.
  - intros n level cat sub Hsub. split_and!.
    + destruct n; reflexivity.
    + cbn [expanded node_of sub_categories].
      rewrite (fold_insert_lookup (fun c => Some (expanded w prefix n (level + 1) c))).
      now rewrite decide_True.
    + cbn [expanded node_of sub_categories]. unfold placeholders.
      rewrite (fold_insert_lookup (fun _ => None)). now rewrite decide_True.
Qed.

Lemma category_tree_depth_bound_witness :
  ∃ r', wiki_tree_run chain_wiki 2 (One (Some "A")) (Some 1) (new_run string state0)
          = (Ok {["A" := Some (expanded chain_wiki "Category" 1 0 "A")]}, r')
        ∧ st string r' = state0
        ∧ NoDup (fetches string r')
        ∧ ∀ c, c ∈ fetches string r' ↔ c ∈ within chain_wiki 1 "A".
Proof.
  assert (H1 : "A" ≠ "") by discriminate.
  assert (H2 : 1 <= 1) by lia.
  assert (H3 : (Z.to_nat 1 < 2)%nat) by (simpl; lia).
  exact (proj1 (category_tree_depth_bound chain_wiki state0 2 "A" 1 H1 H2 H3)).
Defined.

(** C1 as stated fails: with depth 1 the subcategory [B] of the root [A]
    is not recorded as a null placeholder but as an expanded node of
    level 1, and a fetch is made for it; the placeholder is the entry of
    [C] one level further down. *)
Lemma depth_one_expands_root_subcategories :
  let r := wiki_tree_run chain_wiki 5 (One (Some "A")) (Some 1) (new_run string state0) in
  subcats_of chain_wiki "A" = ["B"]
  ∧ fetches string r.2 = ["A"; "B"]
  ∧ ∃ tree root_node b_node,
      r.1 = Ok tree
      ∧ tree !! "A" = Some (Some root_node)
      ∧ sub_categories root_node !! "B" = Some (Some b_node)
      ∧ sub_categories root_node !! "B" ≠ Some None
      ∧ depth b_node = 1
      ∧ links b_node = ["B page"]
      ∧ sub_categories b_node !! "C" = Some None.
Proof.
  cbv zeta. split_and!; [reflexivity | vm_compute; reflexivity |].
  eexists _, _, _. split_and!.
  - vm_compute. reflexivity.
  - vm_compute. reflexivity.
  - vm_compute. reflexivity.
  - vm_compute. discriminate.
  - reflexivity.
  - reflexivity.
  - vm_compute. reflexivity.
Qed.

(** ** The number of results *)

Lemma collect_all (prefix : string) (l : list Member) (a b : list string) :
  fold_left (collect prefix) l (a, b)
    = ((a ++ page_titles l)%list, (b ++ subcat_names prefix l)%list).
Proof.
  revert a b. induction l as [|m l IH]; intros a b.
  - simpl. now rewrite !app_nil_r.
  - cbn [fold_left]. unfold collect at 2. unfold page_titles, subcat_names. cbn [List.filter].
    destruct (String.eqb (m_type m) "page" || String.eqb (m_type m) "file")%bool eqn:Hp.
    + assert (Hs : String.eqb (m_type m) "subcat" = false).
      { apply orb_true_iff in Hp. destruct Hp as [Hp | Hp]; apply String.eqb_eq in Hp;
          rewrite Hp; reflexivity. }
      rewrite Hs. cbn [fst snd]. rewrite IH. unfold page_titles, subcat_names.
      rewrite fmap_cons. now rewrite <- app_assoc.
    + destruct (String.eqb (m_type m) "subcat") eqn:Hs.
      * cbn [fst snd]. rewrite IH. unfold page_titles, subcat_names.
        rewrite fmap_cons. now rewrite <- app_assoc.
      * rewrite IH. reflexivity.
Qed.

Lemma page_titles_app (l k : list Member) :
  page_titles (l ++ k) = (page_titles l ++ page_titles k)%list.
Proof. unfold page_titles. now rewrite List.filter_app, fmap_app. Qed.

Lemma subcat_names_app (prefix : string) (l k : list Member) :
  subcat_names prefix (l ++ k) = (subcat_names prefix l ++ subcat_names prefix k)%list.
Proof. unfold subcat_names. now rewrite List.filter_app, fmap_app. Qed.

Lemma offset_token_lookup (off : nat) :
  offset_token off !! "cmcontinue" = Some (PyInt (Z.of_nat off))
  ∧ offset_token off !! "cmlimit" = None
  ∧ offset_token off !! "cmtype" = None.
Proof.
  unfold offset_token. split_and!.
  - apply lookup_insert_eq.
  - rewrite !lookup_insert_ne by discriminate. apply lookup_empty.
  - rewrite !lookup_insert_ne by discriminate. apply lookup_empty.
Qed.

Lemma offset_token_inj (a b : nat) : offset_token a = offset_token b -> a = b.
Proof.
  intros H. pose proof (proj1 (offset_token_lookup a)) as Ha.
  rewrite H, (proj1 (offset_token_lookup b)) in Ha. injection Ha. lia.
Qed.

Lemma offset_token_not_empty (a : nat) : (∅ : Token) ≠ offset_token a.
Proof.
  intros H. pose proof (proj1 (offset_token_lookup a)) as Ha.
  rewrite <- H, lookup_empty in Ha. discriminate.
Qed.

Section Listing.

Variable src : list Member.

#[local] Abbreviation answer_of := (listing_page src).

Lemma listing_answer_eq (params : Params) (off : nat) (lim : Z) (types : string) :
  params !! "cmcontinue" = (if off is O then None else Some (PyInt (Z.of_nat off))) ->
  params !! "cmlimit" = Some (PyInt lim) ->
  params !! "cmtype" = Some (PyStr types) ->
  listing_answer src params = answer_of off (Z.to_nat (Z.min lim 500)) types.
Proof.
  intros Hc Hl Ht. unfold listing_answer, answer_of. rewrite Hc, Hl, Ht.
  destruct off as [|off]; [reflexivity|]. rewrite Nat2Z.id. reflexivity.
Qed.

Lemma listing_answer_inject (params : Params) :
  listing_answer src
    (match <["format" := PyStr "json"]> params !! "action" with
     | Some _ => <["format" := PyStr "json"]> params
     | None => <["action" := PyStr "query"]> (<["format" := PyStr "json"]> params)
     end) = listing_answer src params.
Proof.
  unfold listing_answer.
  destruct (<["format" := PyStr "json"]> params !! "action");
    rewrite !lookup_insert_ne by discriminate; reflexivity.
Qed.

Lemma wiki_request_listing (params : Params) (s : St) :
  ∃ s', wiki_request (listing_transport src) params s
          = (Ok (Dict (listing_answer src params)), s')
        ∧ _cat_prefix (self s') = _cat_prefix (self s).
Proof.
  unfold wiki_request, bind, gets, _get_response, send, listing_transport, now, sleep,
    modify, ret, gets.
  cbn [req_params self world on_world on_self].
  rewrite listing_answer_inject.
  destruct (_rate_limit (self s)) eqn:Hrl.
  - destruct (_rate_limit_last_call (self s)) as [last|].
    + destruct (clock (world s) <? last + _min_wait (self s));
        cbn [self on_world on_self]; rewrite Hrl; eexists; split; reflexivity.
    + cbn [self on_world on_self]. rewrite Hrl. eexists; split; reflexivity.
  - cbn [self on_world on_self]. rewrite Hrl. eexists; split; reflexivity.
Qed.


Variable types : string.
Variable prefix : string.
Variable category : string.
Variable n : Z.

#[local] Abbreviation visible := (List.filter (requested types) src).

#[local] Abbreviation listing_invariant := (listing_state src types prefix n).

Lemma next_params_lookup (off : nat) (p : Paging) :
  listing_invariant off p ->
  next_params p !! "cmcontinue" = (if off is O then None else Some (PyInt (Z.of_nat off)))
  ∧ next_params p !! "cmlimit" = Some (PyInt (Z.min (n - Z.of_nat off) 500))
  ∧ next_params p !! "cmtype" = Some (PyStr types).
Proof.
  intros (_ & _ & _ & Hl & Hlim & Hty & Hc & _). unfold next_params. rewrite Hl.
  destruct off as [|off].
  - rewrite !lookup_union_r by apply lookup_empty. now split_and!.
  - destruct (offset_token_lookup (S off)) as (T1 & T2 & T3).
    rewrite (lookup_union_Some_l _ _ _ _ T1), !lookup_union_r by assumption.
    now split_and!.
Qed.

Lemma paging_body_listing (off : nat) (p : Paging) (s : St) :
  listing_invariant off p ->
  n <= Z.of_nat (length visible) ->
  _cat_prefix (self s) = prefix ->
  let off' := (off + Z.to_nat (Z.min (n - Z.of_nat off) 500))%nat in
  ∃ s' ctl p',
    paging_body (listing_transport src) category (Some n) p s = (Ok (ctl, p'), s')
    ∧ _cat_prefix (self s') = prefix
    ∧ pages p' = page_titles (take off' visible)
    ∧ subcats p' = subcat_names prefix (take off' visible)
    ∧ match ctl with
      | Break => Z.of_nat off' = n
      | EndOfBody => (Z.of_nat off' = n ∧ finished p' = true) ∨ listing_invariant off' p'
      end.
Proof.
  intros Hinv Hn Hpre off'.
  destruct (next_params_lookup off p Hinv) as (Pc & Pl & Pt).
  destruct Hinv as (Hf & Hret & Hlt & Hl & Hlim & Hty & Hc & Hpages & Hsubs).
  destruct (wiki_request_listing (next_params p) s) as (s' & E & Hpre').
  rewrite (listing_answer_eq _ off _ types Pc Pl Pt) in E.
  replace (Z.to_nat (Z.min (Z.min (n - Z.of_nat off) 500) 500))
    with (Z.to_nat (Z.min (n - Z.of_nat off) 500)) in E by lia.
  set (lim := Z.to_nat (Z.min (n - Z.of_nat off) 500)) in *.
  assert (Hlen : length (take lim (drop off visible)) = lim).
  { rewrite length_take_le; [reflexivity|]. rewrite length_drop. lia. }
  assert (Htake : ∀ f : list Member -> list string,
             (∀ a b : list Member, f (a ++ b)%list = (f a ++ f b)%list) ->
             (f (take off visible) ++ f (take lim (drop off visible)))%list
               = f (take off' visible)).
  { intros f Hfapp. rewrite <- Hfapp. now rewrite take_take_drop. }
  unfold paging_body, bind. fold (next_params p). rewrite E.
  unfold _check_error_response, answer_of. cbn [r_error r_query ret].
  unfold subscript, ret. cbn [q_categorymembers]. unfold gets.
  rewrite collect_all. cbn [fst snd]. rewrite Hpre', Hpre, Hpages, Hsubs.
  rewrite (Htake page_titles page_titles_app).
  rewrite (Htake (subcat_names prefix) (subcat_names_app prefix)).
  unfold next_cont. cbn [r_query_continue r_continue]. rewrite Hlen. fold off'.
  destruct (Nat.ltb off' (length visible)) eqn:Hmore.
  - apply Nat.ltb_lt in Hmore.
    destruct (decide (last_cont p = offset_token off')) as [Heq | Hne].
    { exfalso. rewrite Hl in Heq. destruct off as [|off].
      - now apply offset_token_not_empty in Heq.
      - apply offset_token_inj in Heq. unfold off' in Heq. lia. }
    eexists s', _, _. split; [reflexivity|].
    cbn [pages subcats finished returned_results last_cont search_params].
    split_and!; [congruence | reflexivity | reflexivity |].
    rewrite Hret.
    assert (Hoff' : Z.of_nat off + Z.of_nat lim = Z.of_nat off') by (unfold off'; lia).
    rewrite Hoff'.
    destruct (0 <? n - Z.of_nat off') eqn:Hgo.
    + right. apply Z.ltb_lt in Hgo.
      assert (Hpos : off' ≠ O) by (unfold off', lim; lia).
      unfold listing_invariant.
      cbn [pages subcats finished returned_results last_cont search_params].
      split_and!; try reflexivity; try assumption; try lia.
      * destruct off'; [contradiction | reflexivity].
      * unfold max_pull. destruct (n - Z.of_nat off' <? 500) eqn:Hsmall.
        -- apply Z.ltb_lt in Hsmall. rewrite lookup_insert_eq. do 2 f_equal. lia.
        -- apply Z.ltb_ge in Hsmall. rewrite Hlim. do 2 f_equal. unfold off', lim in *. lia.
      * destruct (n - Z.of_nat off' <? max_pull);
          [rewrite lookup_insert_ne by discriminate|]; exact Hty.
      * destruct (n - Z.of_nat off' <? max_pull);
          [rewrite lookup_insert_ne by discriminate|]; exact Hc.
    + left. apply Z.ltb_ge in Hgo. split; [|reflexivity]. unfold off', lim in *. lia.
  - apply Nat.ltb_ge in Hmore.
    eexists s', _, _. split; [reflexivity|].
    cbn [pages subcats]. split_and!; [congruence | reflexivity | reflexivity |].
    unfold off', lim in *. lia.
Qed.


Lemma paging_loop_listing (fuel : nat) :
  ∀ (off : nat) (p : Paging) (s : St),
    listing_invariant off p ->
    n <= Z.of_nat (length visible) ->
    _cat_prefix (self s) = prefix ->
    (Z.to_nat n - off <= fuel)%nat ->
    ∃ s' p',
      paging_loop (listing_transport src) fuel category (Some n) p s = (Ok p', s')
      ∧ pages p' = page_titles (take (Z.to_nat n) visible)
      ∧ subcats p' = subcat_names prefix (take (Z.to_nat n) visible).
Proof.
  induction fuel as [|fuel IH]; intros off p s Hinv Hn Hpre Hfuel.
  - destruct Hinv as (_ & _ & Hlt & _). lia.
  - pose proof Hinv as (Hf & _ & Hlt & _).
    rewrite (paging_loop_step (listing_transport src) fuel category (Some n) p s Hf).
    destruct (paging_body_listing off p s Hinv Hn Hpre)
      as (s' & ctl & p' & -> & Hpre' & Hp & Hs & Hctl).
    destruct ctl.
    + exists s', p'. replace (Z.to_nat n) with (off + Z.to_nat (Z.min (n - Z.of_nat off) 500))%nat
        by lia. now split_and!.
    + destruct Hctl as [[Hend Hfin] | Hinv'].
      * exists s', p'.
        replace (Z.to_nat n) with (off + Z.to_nat (Z.min (n - Z.of_nat off) 500))%nat by lia.
        split_and!; [|exact Hp | exact Hs].
        destruct fuel; simpl; rewrite Hfin; reflexivity.
      * apply (IH _ p' s' Hinv' Hn Hpre'). lia.
Qed.

End Listing.

Lemma listed_types (subcategories : bool) (src : list Member) :
  Forall (fun m => m_type m = "page" ∨ m_type m = "file"
                   ∨ (subcategories = true ∧ m_type m = "subcat"))
    (List.filter (requested (if subcategories then "page|subcat|file" else "page|file")) src).
Proof.
  apply List.Forall_forall. intros m Hm. apply List.filter_In in Hm. destruct Hm as [_ Hm].
  unfold requested, str_in in Hm.
  destruct subcategories; simpl in Hm;
    repeat match type of Hm with
           | (_ || _)%bool = true => apply orb_true_iff in Hm; destruct Hm as [Hm | Hm]
           end;
    try discriminate; apply String.eqb_eq in Hm; auto.
Qed.

Lemma listed_count (prefix : string) (subcategories : bool) (l : list Member) :
  Forall (fun m => m_type m = "page" ∨ m_type m = "file"
                   ∨ (subcategories = true ∧ m_type m = "subcat")) l ->
  (length (page_titles l)
   + (if subcategories then length (subcat_names prefix l) else 0) = length l)%nat
  ∧ (subcategories = false -> page_titles l = m_title <$> l).
Proof.
  induction 1 as [|m l Hm Hl [IH1 IH2]].
  - destruct subcategories; split; reflexivity.
  - unfold page_titles, subcat_names in *. split.
    + rewrite !length_fmap in IH1 |- *. cbn [List.filter].
      destruct Hm as [Hm | [Hm | [Hs Hm]]]; rewrite Hm; simpl;
        destruct subcategories; simpl in *; (lia || discriminate).
    + intros E. cbn [List.filter].
      destruct Hm as [Hm | [Hm | [Hs Hm]]]; [| |congruence]; rewrite Hm; simpl;
        f_equal; apply (IH2 E).
Qed.

Lemma paging_body_adjusts_limit (transport : World -> Request -> TransportResult)
    (category : string) (n : Z) (p p' : Paging) (s s' : St) :
  paging_body transport category (Some n) p s = (Ok (EndOfBody, p'), s') ->
  (n - returned_results p' < max_pull ->
     search_params p' !! "cmlimit" = Some (PyInt (n - returned_results p')))
  ∧ (max_pull <= n - returned_results p' -> search_params p' = search_params p).
Proof.
  unfold paging_body, bind.
  destruct (wiki_request transport _ s) as [[[r | items]| |] s1]; try discriminate.
  2: { unfold _check_error_response.
       destruct (existsb (item_is "error") items); discriminate. }
  destruct (check_error_cases r (Some category) s1) as [[_ ->] | [e ->]]; [|discriminate].
  destruct (r_query r) as [q|]; simpl; [|discriminate].
  destruct (q_categorymembers q) as [members|]; simpl; [|discriminate].
  unfold gets, ret. destruct (next_cont r) as [cont|]; [|discriminate].
  destruct (decide (last_cont p = cont)) as [Heq | Hne]; [discriminate|].
  intros H. injection H as <- <-. cbn [search_params returned_results]. split.
  - intros Hlt. replace (_ <? max_pull) with true by (symmetry; apply Z.ltb_lt; lia).
    apply lookup_insert_eq.
  - intros Hge. replace (_ <? max_pull) with false by (symmetry; apply Z.ltb_ge; lia).
    reflexivity.
Qed.

Section Frame.

Variable transport : World -> Request -> TransportResult.

Lemma wiki_request_cache (params : Params) (s : St) :
  _cache (self (wiki_request transport params s).2) = _cache (self s).
Proof.
  unfold wiki_request, bind, gets, _get_response, send, now, sleep, modify, ret, gets.
  cbn [self world on_world on_self].
  destruct (_rate_limit (self s)) eqn:Hrl;
    [destruct (_rate_limit_last_call (self s)) as [last|];
       [destruct (clock (world s) <? last + _min_wait (self s))|]|];
    cbn [self world on_world on_self];
    match goal with |- context [transport ?w ?r] => destruct (transport w r) end;
    cbn [self world on_world on_self]; rewrite ?Hrl; reflexivity.
Qed.

Lemma paging_body_after_request (category : string) (results : option Z) (p : Paging)
    (s : St) :
  (paging_body transport category results p s).2
    = (wiki_request transport (next_params p) s).2.
Proof.
  unfold paging_body, bind. fold (next_params p).
  destruct (wiki_request transport (next_params p) s) as [[[r | items]| |] s1];
    try reflexivity.
  - destruct (check_error_cases r (Some category) s1) as [[_ ->] | [e ->]]; [|reflexivity].
    destruct (r_query r) as [q|]; simpl; [|reflexivity].
    destruct (q_categorymembers q) as [members|]; simpl; [|reflexivity].
    unfold gets, ret. destruct (next_cont r) as [cont|]; [|reflexivity].
    destruct (decide (last_cont p = cont)); reflexivity.
  - unfold _check_error_response.
    destruct (existsb (item_is "error") items); reflexivity.
Qed.

Lemma paging_loop_cache (fuel : nat) (category : string) (results : option Z) :
  ∀ (p : Paging) (s : St),
    _cache (self (paging_loop transport fuel category results p s).2) = _cache (self s).
Proof.
  induction fuel as [|fuel IH]; intros p s.
  - simpl. destruct (finished p); reflexivity.
  - cbn [paging_loop]. destruct (finished p); [reflexivity|].
    unfold bind.
    pose proof (paging_body_after_request category results p s) as Hb.
    pose proof (wiki_request_cache (next_params p) s) as Hc.
    destruct (paging_body transport category results p s) as [[[[|] p']| |] s1];
      simpl in Hb; subst s1; try exact Hc.
    rewrite IH. exact Hc.
Qed.

Lemma categorymembers_cache (fuel : nat) (category : option string) (results : option Z)
    (subcategories : bool) (s : St) :
  _cache (self (categorymembers transport fuel category results subcategories s).2)
    = _cache (self s).
Proof.
  unfold categorymembers, bind, _check_query.
  destruct category as [cat|]; [|reflexivity].
  destruct (String.eqb (strip cat) ""); [reflexivity|]. unfold ret at 1. unfold gets.
  pose proof (paging_loop_cache fuel cat results
                (initial_paging (_cat_prefix (self s)) cat results subcategories) s) as H.
  destruct (paging_loop _ _ _ _ _ _) as [[p'| |] s1]; exact H.
Qed.

(** The first call of a memoized operation on an empty cache, when its
    body returns and leaves the cache alone. *)
Lemma wrapper_fresh (name : string) (signature : gmap string PyVal)
    (func : list PyVal -> list (string * PyVal) -> M St Value)
    (args : list PyVal) (kwargs : list (string * PyVal)) (s s' : St) (v : Value) :
  name ≠ "defaults" ->
  _use_cache (self s) = true -> _cache (self s) = Some ∅ ->
  func args kwargs (on_self (with_cache (Some (first_partitions name signature))) s)
    = (Ok v, s') ->
  _cache (self s') = Some (first_partitions name signature) ->
  ∃ s'', wrapper name signature func args kwargs s = (Ok v, s'') ∧ world s'' = world s'.
Proof.
  intros Hname Hu Hc Hf Hc'.
  unfold wrapper, bind, memoized, gets. rewrite Hc, Hu. simpl.
  rewrite lookup_empty.
  unfold init_partitions, set_memoized, modify.
  rewrite lookup_insert_ne by congruence. rewrite lookup_empty.
  rewrite lookup_insert_eq. simpl.
  unfold lookup_defaults, lookup_entries, bind, memoized, subscript, ret. simpl.
  rewrite lookup_insert_eq. simpl. rewrite lookup_insert_eq. simpl.
  rewrite lookup_insert_ne by congruence. rewrite lookup_insert_ne by congruence.
  rewrite lookup_insert_eq. simpl. rewrite lookup_empty.
  unfold compute_and_store, bind, now, gets. simpl.
  fold (first_partitions name signature). rewrite Hf.
  unfold memoized at 1. rewrite Hc'.
  unfold lookup_entries, bind, memoized, subscript, ret. rewrite Hc'.
  assert (Hl : first_partitions name signature !! name = Some (Entries ∅)).
  { unfold first_partitions. rewrite !lookup_insert_ne by congruence.
    apply lookup_insert_eq. }
  rewrite Hl. unfold set_memoized, modify. cbn [self on_self with_cache _cache].
  rewrite lookup_insert_eq. rewrite lookup_insert_eq. cbn [snd].
  eexists. split; reflexivity.
Qed.

End Frame.

Lemma categorymembers_listing (src : list Member) (cat : string) (n : Z)
    (subcategories : bool) (fuel : nat) (s : St) :
  strip cat ≠ "" -> 1 <= n ->
  let visible :=
    List.filter (requested (if subcategories then "page|subcat|file" else "page|file")) src in
  n <= Z.of_nat (length visible) -> (Z.to_nat n <= fuel)%nat ->
  let first := take (Z.to_nat n) visible in
  let prefix := _cat_prefix (self s) in
  (categorymembers (listing_transport src) fuel (Some cat) (Some n) subcategories s).1
    = Ok (if subcategories then VPair (page_titles first) (subcat_names prefix first)
          else VList (page_titles first)).
Proof.
  intros Hcat Hn visible Hlen Hfuel first prefix.
  unfold categorymembers, bind, _check_query.
  rewrite (eqb_false_of_ne (strip cat) "" Hcat). unfold ret at 1. unfold gets at 1.
  fold prefix.
  destruct (paging_loop_listing src
              (if subcategories then "page|subcat|file" else "page|file")
              prefix cat n fuel 0%nat
              (initial_paging prefix cat (Some n) subcategories) s)
    as (s' & p' & -> & Hp & Hs); [| exact Hlen | reflexivity | lia |].
  - unfold listing_state, initial_paging.
    cbn [finished returned_results last_cont search_params pages subcats].
    split_and!; try reflexivity; try lia.
    rewrite !lookup_insert_ne by discriminate. rewrite lookup_insert_eq.
    unfold max_pull. do 2 f_equal. lia.
  - cbn [fst]. unfold ret. cbn [fst]. rewrite Hp, Hs. reflexivity.
Qed.

(** C4: against a category listing that holds at least [n >= 1] records
    of the requested types, [categorymembers] with [results = n] returns
    the titles of exactly the first [n] records, in the order of the
    listing (with subcategories: the pages and files in one list, the
    subcategory names in the other, [n] titles in all; without: one list
    of the [n] titles).  The memoized operation returns the same, with
    caching off or on a fresh cache.  Whenever fewer than 500 results are
    missing after an iteration, the iteration sets the limit of the next
    request to the number still missing; otherwise it leaves the
    parameters as they are. *)
Theorem categorymembers_returns_first_n (src : list Member) (cat : string) (n : Z)
    (subcategories : bool) (fuel : nat) (s : St) :
  strip cat ≠ "" -> 1 <= n ->
  let visible :=
    List.filter (requested (if subcategories then "page|subcat|file" else "page|file")) src in
  n <= Z.of_nat (length visible) -> (Z.to_nat n <= fuel)%nat ->
  let first := take (Z.to_nat n) visible in
  let prefix := _cat_prefix (self s) in
  let result :=
    if subcategories then VPair (page_titles first) (subcat_names prefix first)
    else VList (page_titles first) in
  (categorymembers (listing_transport src) fuel (Some cat) (Some n) subcategories s).1
    = Ok result
  ∧ ((_use_cache (self s) = false ∧ is_Some (_cache (self s)))
     ∨ (_use_cache (self s) = true ∧ _cache (self s) = Some ∅) ->
     (memo_categorymembers (listing_transport src) fuel
        [PyStr cat; PyInt n; PyBool subcategories] [] s).1 = Ok result)
  ∧ (length (page_titles first)
     + (if subcategories then length (subcat_names prefix first) else 0) = Z.to_nat n)%nat
  ∧ (subcategories = false -> page_titles first = m_title <$> first)
  ∧ (∀ transport category p p' s0 s',
       paging_body transport category (Some n) p s0 = (Ok (EndOfBody, p'), s') ->
       (n - returned_results p' < max_pull ->
          search_params p' !! "cmlimit" = Some (PyInt (n - returned_results p')))
       ∧ (max_pull <= n - returned_results p' -> search_params p' = search_params p)).
Proof.
  intros Hcat Hn visible Hlen Hfuel first prefix result. split_and!.
  - now apply categorymembers_listing.
  - intros [[Hu [c Hc]] | [Hu Hc]].
    + unfold memo_categorymembers, wrapper, bind, memoized, gets. rewrite Hc, Hu. simpl.
      change (categorymembers_call (listing_transport src) fuel
                [PyStr cat; PyInt n; PyBool subcategories] [] s)
        with (categorymembers (listing_transport src) fuel (Some cat) (Some n)
                subcategories s).
      now apply categorymembers_listing.
    + pose (s_i := on_self (with_cache
                     (Some (first_partitions "categorymembers" categorymembers_defaults))) s).
      pose proof (categorymembers_listing src cat n subcategories fuel s_i
                    Hcat Hn Hlen Hfuel) as Hres.
      pose proof (categorymembers_cache (listing_transport src) fuel (Some cat) (Some n)
                    subcategories s_i) as Hcache.
      destruct (categorymembers (listing_transport src) fuel (Some cat) (Some n)
                  subcategories s_i) as [o s'] eqn:E.
      cbn [fst snd] in Hres, Hcache. subst o. unfold memo_categorymembers.
      destruct (wrapper_fresh "categorymembers" categorymembers_defaults
                  (categorymembers_call (listing_transport src) fuel)
                  [PyStr cat; PyInt n; PyBool subcategories] [] s s' result)
        as (s'' & -> & _); [discriminate | exact Hu | exact Hc | exact E | exact Hcache |].
      reflexivity.
  - pose proof (listed_count prefix subcategories first) as [Hc _].
    + apply Forall_take. apply listed_types.
    + rewrite Hc. unfold first. rewrite length_take_le; lia.
  - intros E. apply (listed_count prefix subcategories first); [|exact E].
    apply Forall_take. apply listed_types.
  - intros. now apply (paging_body_adjusts_limit transport category n p p' s0 s').
Qed.

Lemma categorymembers_returns_first_n_witness :
  (categorymembers (listing_transport fruit) 3 (Some "Fruit") (Some 3) true state0).1
    = Ok (VPair ["Apple"; "Banana"] ["Citrus"]).
Proof.
  assert (H1 : strip "Fruit" ≠ "") by (vm_compute; discriminate).
  assert (H2 : 1 <= 3) by lia.
  assert (H3 : 3 <= Z.of_nat (length (List.filter (requested "page|subcat|file") fruit)))
    by (vm_compute; discriminate).
  assert (H4 : (Z.to_nat 3 <= 3)%nat) by (simpl; lia).
  exact (proj1 (categorymembers_returns_first_n fruit "Fruit" 3 true 3 state0 H1 H2 H3 H4)).
Defined.

(** ** More on memoization *)

Lemma cache_of_entries (name : string) (s : St) (m : gmap string (Z * Value)) :
  own_entries name (self s) = Some (Entries m) ->
  ∃ c, _cache (self s) = Some c ∧ c !! name = Some (Entries m).
Proof.
  unfold own_entries. destruct (_cache (self s)) as [c|]; [|discriminate].
  intros H. now exists c.
Qed.

Section Compute.

Variable name : string.
Variable signature : gmap string PyVal.
Variable func : list PyVal -> list (string * PyVal) -> M St Value.
Variable args : list PyVal.
Variable kwargs : list (string * PyVal).

#[local] Abbreviation op := (wrapper name signature func args kwargs).

Lemma wrapper_young (s : St) (m : gmap string (Z * Value)) (d : gmap string PyVal)
    (t r : Z) (v : Value) :
  _use_cache (self s) = true -> _refresh_interval (self s) = Some r ->
  own_entries name (self s) = Some (Entries m) ->
  own_defaults name (self s) = Some d ->
  m !! make_key d args kwargs = Some (t, v) ->
  clock (world s) - t <= r ->
  op s = (Ok v, s).
Proof.
  intros Hu Hr He Hd Hk Hy.
  destruct (cache_of_entries name s m He) as (c & Hc & Hn).
  unfold wrapper, bind, gets. rewrite (memoized_eq s c Hc), Hu, Hr. simpl.
  rewrite Hn. simpl.
  rewrite (lookup_defaults_eq name s d Hd), (lookup_entries_eq name s m He), Hk. simpl.
  unfold now, gets.
  replace (r <? clock (world s) - t) with false by (symmetry; apply Z.ltb_ge; lia).
  unfold ret at 1.
  rewrite (lookup_entries_eq name s m He). simpl. rewrite Hk. reflexivity.
Qed.

(** The block that calls the function and stores its result. *)
Lemma compute_and_store_eq (key : string) (s : St) (m : gmap string (Z * Value)) :
  own_entries name (self s) = Some (Entries m) ->
  own_entries name (self (func args kwargs s).2) = own_entries name (self s) ->
  match func args kwargs s with
  | (Ok v, s') =>
      ∃ c', _cache (self s') = Some c'
            ∧ compute_and_store name func args kwargs key s
              = (Ok tt, on_self (with_cache
                          (Some (<[name := Entries (<[key := (clock (world s), v)]> m)]> c'))) s')
  | (Raise e, s') => compute_and_store name func args kwargs key s = (Raise e, s')
  | (Diverge, s') => compute_and_store name func args kwargs key s = (Diverge, s')
  end.
Proof.
  intros He Hfr. unfold compute_and_store, bind, now, gets.
  destruct (func args kwargs s) as [[v| |] s'] eqn:Hf; try reflexivity.
  simpl in Hfr. rewrite He in Hfr.
  destruct (cache_of_entries name s' m Hfr) as (c' & Hc' & Hn').
  exists c'. split; [exact Hc'|].
  rewrite (memoized_eq s' c' Hc'), (lookup_entries_eq name s' m Hfr).
  reflexivity.
Qed.

(** A call that has to compute: nothing is stored for it, or what is
    stored is older than the refresh interval. *)
Lemma wrapper_computes (s : St) (m : gmap string (Z * Value)) (d : gmap string PyVal) :
  _use_cache (self s) = true ->
  own_entries name (self s) = Some (Entries m) ->
  own_defaults name (self s) = Some d ->
  (m !! make_key d args kwargs = None
   ∨ ∃ t v r, m !! make_key d args kwargs = Some (t, v)
              ∧ _refresh_interval (self s) = Some r ∧ r < clock (world s) - t) ->
  own_entries name (self (func args kwargs s).2) = own_entries name (self s) ->
  match func args kwargs s with
  | (Ok v', s') =>
      ∃ c', _cache (self s') = Some c'
            ∧ op s = (Ok v', on_self (with_cache
                          (Some (<[name := Entries (<[make_key d args kwargs
                                                       := (clock (world s), v')]> m)]> c'))) s')
  | (Raise e, s') => op s = (Raise e, s')
  | (Diverge, s') => op s = (Diverge, s')
  end.
Proof.
  intros Hu He Hd Hk Hfr.
  destruct (cache_of_entries name s m He) as (c & Hc & Hn).
  pose proof (compute_and_store_eq (make_key d args kwargs) s m He Hfr) as Hcs.
  unfold wrapper, bind, gets. rewrite (memoized_eq s c Hc), Hu. simpl.
  rewrite Hn. simpl.
  rewrite (lookup_defaults_eq name s d Hd), (lookup_entries_eq name s m He).
  assert (Htail : ∀ v' s' c',
            _cache (self s') = Some c' ->
            (let (o, s'0) :=
               lookup_entries name
                 (on_self (with_cache
                    (Some (<[name := Entries (<[make_key d args kwargs
                                                 := (clock (world s), v')]> m)]> c'))) s') in
             match o with
             | Ok a =>
                 let (o0, s'1) := subscript (make_key d args kwargs)
                                    (a !! make_key d args kwargs) s'0 in
                 match o0 with
                 | Ok a0 => ret a0.2 s'1
                 | Raise e => (Raise e, s'1)
                 | Diverge => (Diverge, s'1)
                 end
             | Raise e => (Raise e, s'0)
             | Diverge => (Diverge, s'0)
             end)
            = (Ok v', on_self (with_cache
                 (Some (<[name := Entries (<[make_key d args kwargs
                                              := (clock (world s), v')]> m)]> c'))) s')).
  { intros v' s' c' Hc'.
    rewrite lookup_entries_eq
      with (m := <[make_key d args kwargs := (clock (world s), v')]> m)
      by (unfold own_entries; simpl; now rewrite lookup_insert_eq).
    simpl. now rewrite lookup_insert_eq. }
  destruct Hk as [Hk | (t & v & r & Hk & Hr & Hy)]; rewrite Hk.
  - destruct (func args kwargs s) as [[v'| |] s'] eqn:Hf.
    + destruct Hcs as (c' & Hc' & ->). exists c'. split; [exact Hc'|]. now apply Htail.
    + now rewrite Hcs.
    + now rewrite Hcs.
  - rewrite Hr. unfold now, gets. cbn [fst].
    replace (r <? clock (world s) - t) with true by (symmetry; apply Z.ltb_lt; lia).
    destruct (func args kwargs s) as [[v'| |] s'] eqn:Hf.
    + destruct Hcs as (c' & Hc' & ->). exists c'. split; [exact Hc'|]. now apply Htail.
    + now rewrite Hcs.
    + now rewrite Hcs.
Qed.

(** The first call of the operation on a cache that the wrapper built
    sets up its two partitions and goes on from there. *)
Lemma wrapper_init (s : St) (c : Cache) :
  name ≠ "defaults" ->
  _cache (self s) = Some c -> _use_cache (self s) = true ->
  c !! name = None ->
  (∀ m0, c !! "defaults" ≠ Some (Entries m0)) ->
  ∃ c_i, op s = op (on_self (with_cache (Some c_i)) s)
         ∧ own_entries name (self (on_self (with_cache (Some c_i)) s)) = Some (Entries ∅)
         ∧ own_defaults name (self (on_self (with_cache (Some c_i)) s)) = Some signature.
Proof.
  intros Hname Hc Hu Hn Hdefs.
  destruct (c !! "defaults") as [[m0|d0]|] eqn:Hdef.
  - now contradiction (Hdefs m0).
  - exists (<["defaults" := Defaults (<[name := signature]> d0)]> (<[name := Entries ∅]> c)).
    split_and!.
    + match goal with |- ?l = _ => set (lhs := l) end.
      unfold wrapper, bind at 1 2 3 4, gets, memoized. simpl. rewrite Hu. simpl.
      rewrite lookup_insert_ne by congruence. rewrite lookup_insert_eq.
      subst lhs.
      unfold wrapper at 1. unfold bind at 1 2 3 4. unfold gets.
      rewrite (memoized_eq s c Hc), Hu. simpl. rewrite Hn.
      unfold init_partitions, set_memoized, modify.
      rewrite lookup_insert_ne by congruence. rewrite Hdef.
      rewrite lookup_insert_ne by congruence. rewrite Hdef. reflexivity.
    + unfold own_entries. simpl. rewrite lookup_insert_ne by congruence.
      now rewrite lookup_insert_eq.
    + unfold own_defaults. simpl. rewrite lookup_insert_eq. simpl.
      now rewrite lookup_insert_eq.
  - exists (<["defaults" := Defaults (<[name := signature]> ∅)]>
              (<["defaults" := Defaults ∅]> (<[name := Entries ∅]> c))).
    split_and!.
    + match goal with |- ?l = _ => set (lhs := l) end.
      unfold wrapper, bind at 1 2 3 4, gets, memoized. simpl. rewrite Hu. simpl.
      rewrite lookup_insert_ne by congruence. rewrite lookup_insert_ne by congruence.
      rewrite lookup_insert_eq.
      subst lhs.
      unfold wrapper at 1. unfold bind at 1 2 3 4. unfold gets.
      rewrite (memoized_eq s c Hc), Hu. simpl. rewrite Hn.
      unfold init_partitions, set_memoized, modify.
      rewrite lookup_insert_ne by congruence. rewrite Hdef.
      rewrite lookup_insert_eq. reflexivity.
    + unfold own_entries. simpl. rewrite lookup_insert_ne by congruence.
      rewrite lookup_insert_ne by congruence.
      now rewrite lookup_insert_eq.
    + unfold own_defaults. simpl. rewrite lookup_insert_eq. simpl.
      now rewrite lookup_insert_eq.
Qed.

End Compute.

Section Recompute.

Variable name : string.
Variable signature : gmap string PyVal.
Variable f : list PyVal -> list (string * PyVal) -> M St Value.
Hypothesis Hname : name ≠ "defaults".
Hypothesis Hframe : ∀ a k, keeps_memo_of name (f a k).

#[local] Abbreviation mop := (wrapper name signature (fun a k => counted name (f a k))).

(** X1: the refresh rule of [memoize].  With caching on and a refresh
    interval [r], a call whose value was stored at time [t] returns the
    stored value, without invoking the function and without changing
    the state, as long as the clock has not passed [t + r]; once it has,
    the function is invoked once, its result is returned and replaces
    the stored value, stamped with the time at which the call started.
    When that invocation raises, the exception goes through and the old
    value stays in the cache. *)
Theorem memoize_refresh_policy (args : list PyVal) (kwargs : list (string * PyVal))
    (s : St) (m : gmap string (Z * Value)) (d : gmap string PyVal) (t r : Z) (v : Value) :
  _use_cache (self s) = true -> _refresh_interval (self s) = Some r ->
  own_entries name (self s) = Some (Entries m) ->
  own_defaults name (self s) = Some d ->
  m !! make_key d args kwargs = Some (t, v) ->
  let key := make_key d args kwargs in
  (clock (world s) - t <= r -> mop args kwargs s = (Ok v, s))
  ∧ (r < clock (world s) - t ->
     (∀ v' s', f args kwargs (noted_state name s) = (Ok v', s') ->
        ∃ s1, mop args kwargs s = (Ok v', s1)
              ∧ world s1 = world s'
              ∧ calls name s1 = S (calls name s)
              ∧ own_entries name (self s1)
                = Some (Entries (<[key := (clock (world s), v')]> m)))
     ∧ (∀ e s', f args kwargs (noted_state name s) = (Raise e, s') ->
        mop args kwargs s = (Raise e, s')
        ∧ own_entries name (self s') = Some (Entries m))).
Proof.
  intros Hu Hr He Hd Hk key. split.
  - intros Hy. now apply (wrapper_young name signature _ args kwargs s m d t r v).
  - intros Hy.
    destruct (Hframe args kwargs (noted_state name s)) as (_ & _ & Fe & _ & Fc).
    pose proof (wrapper_computes name signature (fun a k => counted name (f a k))
                  args kwargs s m d Hu He Hd
                  (or_intror (ex_intro _ t (ex_intro _ v (ex_intro _ r
                     (conj Hk (conj Hr Hy))))))) as Hw.
    cbv beta in Hw. rewrite !counted_eq in Hw. specialize (Hw Fe).
    split.
    + intros v' s' Hf. rewrite Hf in Hw, Fe, Fc. simpl in Fe, Fc.
      destruct Hw as (c' & Hc' & Hw). eexists. split; [exact Hw|].
      split_and!; [reflexivity | |].
      * unfold calls in *. simpl. rewrite Fc. apply (calls_noted name s).
      * unfold own_entries. simpl. now rewrite lookup_insert_eq.
    + intros e s' Hf. rewrite Hf in Hw, Fe. simpl in Fe. split; [exact Hw|].
      rewrite Fe. exact He.
Qed.

Lemma wrapper_failure_ready (args : list PyVal) (kwargs : list (string * PyVal))
    (s : St) (m : gmap string (Z * Value)) (d : gmap string PyVal) (e : exn) :
  _use_cache (self s) = true ->
  own_entries name (self s) = Some (Entries m) ->
  own_defaults name (self s) = Some d ->
  m !! make_key d args kwargs = None ->
  (∀ s0, (f args kwargs s0).1 = Raise e) ->
  ∃ s1, mop args kwargs s = (Raise e, s1)
        ∧ own_entries name (self s1) = Some (Entries m)
        ∧ own_defaults name (self s1) = Some d
        ∧ calls name s1 = S (calls name s).
Proof.
  intros Hu He Hd Hk Hf.
  destruct (Hframe args kwargs (noted_state name s)) as (_ & _ & Fe & Fd & Fc).
  pose proof (wrapper_computes name signature (fun a k => counted name (f a k))
                args kwargs s m d Hu He Hd (or_introl Hk)) as Hw.
  cbv beta in Hw. rewrite !counted_eq in Hw. specialize (Hw Fe).
  pose proof (Hf (noted_state name s)) as Hr.
  destruct (f args kwargs (noted_state name s)) as [o s'] eqn:E. simpl in Hr. subst o.
  simpl in Fe, Fd, Fc. exists s'. split_and!.
  - exact Hw.
  - now rewrite Fe.
  - now rewrite Fd.
  - rewrite Fc. apply calls_noted.
Qed.

(** X2: a memoized call whose function raises stores nothing.  The
    exception goes through the wrapper, the call is still not cached
    afterwards (the partitions of the operation are in place), and the
    same call made again invokes the function again. *)
Theorem memoize_failed_call_stores_nothing (args : list PyVal)
    (kwargs : list (string * PyVal)) (s : St) (e : exn) :
  _use_cache (self s) = true ->
  memo_invariant name (self s) ->
  is_cached name args kwargs (self s) = false ->
  (∀ s0, (f args kwargs s0).1 = Raise e) ->
  ∃ s1, mop args kwargs s = (Raise e, s1)
        ∧ is_cached name args kwargs (self s1) = false
        ∧ memo_invariant name (self s1)
        ∧ calls name s1 = S (calls name s)
        ∧ calls name (mop args kwargs s1).2 = S (S (calls name s)).
Proof.
  intros Hu Hinv Hnc Hf.
  assert (Hready : ∀ s0 m d,
            _use_cache (self s0) = true ->
            own_entries name (self s0) = Some (Entries m) ->
            own_defaults name (self s0) = Some d ->
            m !! make_key d args kwargs = None ->
            calls name s0 = calls name s ->
            ∃ s1, mop args kwargs s0 = (Raise e, s1)
                  ∧ is_cached name args kwargs (self s1) = false
                  ∧ memo_invariant name (self s1)
                  ∧ calls name s1 = S (calls name s)
                  ∧ calls name (mop args kwargs s1).2 = S (S (calls name s))).
  { intros s0 m d Hu0 He Hd Hk Hcalls.
    destruct (wrapper_failure_ready args kwargs s0 m d e Hu0 He Hd Hk Hf)
      as (s1 & E1 & He1 & Hd1 & Hc1).
    assert (Hu1 : _use_cache (self s1) = true).
    { destruct (Hframe args kwargs (noted_state name s0)) as (Fu & _).
      pose proof (wrapper_computes name signature (fun a k => counted name (f a k))
                    args kwargs s0 m d Hu0 He Hd (or_introl Hk)) as Hw.
      cbv beta in Hw. rewrite !counted_eq in Hw.
      destruct (Hframe args kwargs (noted_state name s0)) as (_ & _ & Fe & _).
      specialize (Hw Fe). pose proof (Hf (noted_state name s0)) as Hr.
      destruct (f args kwargs (noted_state name s0)) as [o s'] eqn:E. simpl in Hr. subst o.
      rewrite E1 in Hw. injection Hw as <-. simpl in Fu. now rewrite Fu. }
    destruct (wrapper_failure_ready args kwargs s1 m d e Hu1 He1 Hd1 Hk Hf)
      as (s2 & E2 & _ & _ & Hc2).
    exists s1. split_and!.
    - exact E1.
    - unfold is_cached. rewrite He1, Hd1, Hk. apply bool_decide_eq_false. now intros [x Hx].
    - unfold memo_invariant. destruct (cache_of_entries name s1 m He1) as (c1 & -> & ->).
      now rewrite Hd1.
    - now rewrite Hc1, Hcalls.
    - rewrite E2. simpl. now rewrite Hc2, Hc1, Hcalls. }
  unfold memo_invariant in Hinv.
  destruct (_cache (self s)) as [c|] eqn:Hc; [|contradiction].
  destruct (c !! name) as [[m|d0]|] eqn:Hn; [| contradiction |].
  - destruct Hinv as [d Hd].
    assert (He : own_entries name (self s) = Some (Entries m)).
    { unfold own_entries. now rewrite Hc. }
    apply (Hready s m d Hu He Hd); [|reflexivity].
    unfold is_cached in Hnc. rewrite He, Hd in Hnc.
    destruct (m !! make_key d args kwargs) eqn:E; [|reflexivity].
    rewrite bool_decide_eq_false in Hnc. contradiction Hnc. eauto.
  - destruct (wrapper_init name signature (fun a k => counted name (f a k)) args kwargs
                s c Hname Hc Hu Hn) as (c_i & -> & He & Hd).
    { intros m0 E. rewrite E in Hinv. exact Hinv. }
    apply (Hready (on_self (with_cache (Some c_i)) s) ∅ signature Hu He Hd (lookup_empty _)).
    reflexivity.
Qed.

End Recompute.

Lemma raising_op_keeps_memo (name : string) (e : exn) (a : list PyVal)
    (k : list (string * PyVal)) :
  keeps_memo_of name (raising_op e a k).
Proof. intros s. split_and!; reflexivity. Qed.

Lemma memoize_refresh_policy_witness :
  let op := wrapper "summary" ∅ (fun a k => counted "summary" (constant_op (VStr "new") a k)) in
  let young := stored_state "summary" "Paris" 0 (VStr "old") (Some 10) 10 in
  let stale := stored_state "summary" "Paris" 0 (VStr "old") (Some 10) 11 in
  op [PyStr "Paris"] [] young = (Ok (VStr "old"), young)
  ∧ ∃ s1, op [PyStr "Paris"] [] stale = (Ok (VStr "new"), s1)
          ∧ calls "summary" s1 = 1%nat.
Proof.
  cbv zeta.
  pose (m := {["Paris" := (0, VStr "old")]} : gmap string (Z * Value)).
  assert (He : ∀ time, own_entries "summary"
                 (self (stored_state "summary" "Paris" 0 (VStr "old") (Some 10) time))
               = Some (Entries m)) by (intros time; vm_compute; reflexivity).
  assert (Hd : ∀ time, own_defaults "summary"
                 (self (stored_state "summary" "Paris" 0 (VStr "old") (Some 10) time))
               = Some ∅) by (intros time; vm_compute; reflexivity).
  assert (Hk : m !! make_key ∅ [PyStr "Paris"] [] = Some (0, VStr "old"))
    by (vm_compute; reflexivity).
  split.
  - apply (memoize_refresh_policy "summary" ∅ (constant_op (VStr "new"))
             (constant_op_keeps_memo "summary" (VStr "new")) [PyStr "Paris"] []
             (stored_state "summary" "Paris" 0 (VStr "old") (Some 10) 10)
             m ∅ 0 10 (VStr "old") eq_refl eq_refl (He 10) (Hd 10) Hk).
    simpl. lia.
  - assert (Hstale : 10 < clock (world (stored_state "summary" "Paris" 0 (VStr "old")
                                          (Some 10) 11)) - 0) by (simpl; lia).
    destruct (proj1 (proj2 (memoize_refresh_policy "summary" ∅ (constant_op (VStr "new"))
                       (constant_op_keeps_memo "summary" (VStr "new")) [PyStr "Paris"] []
                       (stored_state "summary" "Paris" 0 (VStr "old") (Some 10) 11)
                       m ∅ 0 10 (VStr "old") eq_refl eq_refl (He 11) (Hd 11) Hk)
                     Hstale) (VStr "new") _ eq_refl)
      as (s1 & E & _ & Hc & _).
    exists s1. split; [exact E | exact Hc].
Defined.

Lemma memoize_failed_call_stores_nothing_witness :
  let op := wrapper "summary" ∅
              (fun a k => counted "summary" (raising_op (PageError "Paris") a k)) in
  ∃ s1, op [PyStr "Paris"] [] state0 = (Raise (PageError "Paris"), s1)
        ∧ is_cached "summary" [PyStr "Paris"] [] (self s1) = false
        ∧ calls "summary" (op [PyStr "Paris"] [] s1).2 = 2%nat.
Proof.
  cbv zeta.
  destruct (memoize_failed_call_stores_nothing "summary" ∅ (raising_op (PageError "Paris"))
              ltac:(discriminate) (raising_op_keeps_memo "summary" (PageError "Paris"))
              [PyStr "Paris"] [] state0 (PageError "Paris"))
    as (s1 & E & Hn & _ & _ & Hc).
  - reflexivity.
  - vm_compute. exact I.
  - reflexivity.
  - intros s0. reflexivity.
  - exists s1. split_and!; [exact E | exact Hn | exact Hc].
Defined.

(** ** The cache key *)

Lemma update_all_permutation (kwargs kwargs' : list (string * PyVal)) :
  kwargs ≡ₚ kwargs' -> NoDup kwargs.*1 ->
  ∀ d, update_all d kwargs = update_all d kwargs'.
Proof.
  unfold update_all.
  induction 1 as [|x l l' Hp IH|x y l|l l' l'' Hp1 IH1 Hp2 IH2]; intros Hnd d.
  - reflexivity.
  - simpl. apply IH. rewrite fmap_cons in Hnd. now apply NoDup_cons in Hnd.
  - simpl. rewrite insert_insert_ne; [reflexivity|].
    rewrite !fmap_cons in Hnd. apply NoDup_cons in Hnd. destruct Hnd as [Hnd _].
    intros E. apply Hnd. rewrite E. apply elem_of_cons. now left.
  - rewrite IH1 by assumption. apply IH2.
    assert (Hq : l.*1 ≡ₚ l'.*1) by now apply fmap_Permutation.
    now rewrite <- Hq.
Qed.

(** X3: the cache key does not depend on how the named arguments are
    written: any order of the same keyword arguments gives the same key,
    and a keyword argument that repeats the default of its parameter
    gives the key of the call without it.  So such calls share one
    cache entry. *)
Theorem memoize_key_normalises_keywords (d : gmap string PyVal) (args : list PyVal) :
  (∀ kwargs kwargs', kwargs ≡ₚ kwargs' -> NoDup kwargs.*1 ->
     make_key d args kwargs = make_key d args kwargs')
  ∧ (∀ kwargs k v, d !! k = Some v ->
       make_key d args ((k, v) :: kwargs) = make_key d args kwargs)
  ∧ (∀ name kwargs kwargs' c,
       kwargs ≡ₚ kwargs' -> NoDup kwargs.*1 ->
       is_cached name args kwargs' c = is_cached name args kwargs c).
Proof.
  split_and!.
  - intros kwargs kwargs' Hp Hnd. unfold make_key.
    now rewrite (update_all_permutation kwargs kwargs' Hp Hnd d).
  - intros kwargs k v Hk. unfold make_key, update_all. simpl.
    now rewrite (insert_id d k v Hk).
  - intros name kwargs kwargs' c Hp Hnd. unfold is_cached, make_key.
    destruct (own_entries name c) as [[m|?]|]; try reflexivity.
    destruct (own_defaults name c) as [d'|]; try reflexivity.
    now rewrite (update_all_permutation kwargs kwargs' Hp Hnd d').
Qed.

Lemma memoize_key_normalises_keywords_witness :
  make_key categorymembers_defaults [PyStr "Fruit"]
    [("results", PyInt 3); ("subcategories", PyBool false)]
  = make_key categorymembers_defaults [PyStr "Fruit"]
      [("subcategories", PyBool false); ("results", PyInt 3)]
  ∧ make_key categorymembers_defaults [PyStr "Fruit"] [("results", PyInt 10)]
    = make_key categorymembers_defaults [PyStr "Fruit"] [].
Proof.
  destruct (memoize_key_normalises_keywords categorymembers_defaults [PyStr "Fruit"])
    as (Hperm & Hdef & _).
  split.
  - apply Hperm.
    + apply perm_swap.
    + simpl. apply NoDup_cons. split.
      * rewrite list_elem_of_singleton. discriminate.
      * apply NoDup_singleton.
  - apply Hdef. reflexivity.
Defined.

Lemma append_assoc (a b c : string) : (a +:+ b) +:+ c = a +:+ (b +:+ c).
Proof.
  induction a as [|x a IH]; [reflexivity|].
  change (String x ((a +:+ b) +:+ c) = String x (a +:+ (b +:+ c))). now rewrite IH.
Qed.

Lemma join_separator (sep a b : string) (l : list string) :
  join sep ((a +:+ sep +:+ b) :: l) = join sep (a :: b :: l).
Proof.
  destruct l as [|x l].
  - reflexivity.
  - cbn [join]. now rewrite !append_assoc.
Qed.

(** X4: the cache key is built from [str] of the positional arguments
    joined by [" - "], so different calls can share a key, and with it
    a cache entry: argument lists that print alike (the integer 1 and the
    string "1"), and a string that contains the separator against the
    two strings around it. *)
Theorem memoize_key_collisions (d : gmap string PyVal) (kwargs : list (string * PyVal)) :
  (∀ args args', str <$> args = str <$> args' ->
     make_key d args kwargs = make_key d args' kwargs)
  ∧ (∀ z args, make_key d (PyInt z :: args) kwargs
               = make_key d (PyStr (pretty z) :: args) kwargs)
  ∧ (∀ a b args, make_key d (PyStr (a +:+ " - " +:+ b) :: args) kwargs
                 = make_key d (PyStr a :: PyStr b :: args) kwargs)
  ∧ (∀ name args args' c,
       make_key d args kwargs = make_key d args' kwargs ->
       own_defaults name c = Some d ->
       is_cached name args' kwargs c = is_cached name args kwargs c).
Proof.
  split_and!.
  - intros args args' H. unfold make_key. now rewrite H.
  - intros z args. reflexivity.
  - intros a b args. unfold make_key. rewrite !fmap_cons. cbn [str].
    rewrite <- !app_comm_cons. apply join_separator.
  - intros name args args' c H Hd. unfold is_cached. rewrite Hd.
    destruct (own_entries name c) as [[m|?]|]; try reflexivity. now rewrite H.
Qed.

Lemma memoize_key_collisions_witness :
  make_key categorymembers_defaults [PyBool true] []
  = make_key categorymembers_defaults [PyStr "True"] [].
Proof.
  destruct (memoize_key_collisions categorymembers_defaults []) as (H & _).
  apply H. reflexivity.
Defined.

(** ** Relative and absolute URLs *)

Lemma prefix_app (p s : string) : String.prefix p (p +:+ s) = true.
Proof.
  induction p as [|c p IH]; [now destruct s|].
  change (String.prefix (String c p) (String c (p +:+ s)) = true).
  simpl. destruct (ascii_dec c c); [exact IH | contradiction].
Qed.

Lemma prefix_head (c c' : ascii) (p s : string) :
  c ≠ c' -> String.prefix (String c p) (String c' s) = false.
Proof. intros H. simpl. destruct (ascii_dec c c'); [contradiction | reflexivity]. Qed.

Lemma prefix_split (p s : string) : String.prefix p s = true -> ∃ r, s = p +:+ r.
Proof.
  revert s. induction p as [|c p IH]; intros s H.
  - now exists s.
  - destruct s as [|c' s]; [discriminate|]. simpl in H.
    destruct (ascii_dec c c') as [<-|]; [|discriminate].
    destruct (IH s H) as [r ->]. now exists r.
Qed.

Lemma find_from_range (sub s : string) (i : Z) :
  find_from sub s i = -1 ∨ i <= find_from sub s i.
Proof.
  revert i. induction s as [|c s IH]; intros i; cbn [find_from].
  - destruct (String.eqb sub ""); lia.
  - destruct (String.prefix sub (String c s)); [lia|].
    destruct (IH (i + 1)); lia.
Qed.

Lemma find_from_found (sub a b : string) (i : Z) :
  0 <= i -> 0 <= find_from sub (a +:+ sub +:+ b) i.
Proof.
  revert i. induction a as [|c a IH]; intros i Hi.
  - change ("" +:+ sub +:+ b) with (sub +:+ b).
    destruct (sub +:+ b) as [|c s] eqn:E.
    + destruct sub; [simpl; lia | discriminate].
    + cbn [find_from]. rewrite <- E, prefix_app. lia.
  - change (String c a +:+ sub +:+ b) with (String c (a +:+ sub +:+ b)). cbn [find_from].
    destruct (String.prefix sub (String c (a +:+ sub +:+ b))); [lia|].
    apply IH. lia.
Qed.

Lemma find_from_missing (sub s : string) (i : Z) :
  0 <= i -> (∀ a b, s ≠ a +:+ sub +:+ b) -> find_from sub s i = -1.
Proof.
  revert i. induction s as [|c s IH]; intros i Hi Hno; cbn [find_from].
  - destruct (String.eqb_spec sub "") as [-> | Hne]; [|reflexivity].
    now contradiction (Hno "" "").
  - destruct (String.prefix sub (String c s)) eqn:Hp.
    + destruct (prefix_split _ _ Hp) as [r Hr]. now contradiction (Hno "" r).
    + apply IH; [lia|]. intros a b E. apply (Hno (String c a) b). now rewrite E.
Qed.

(** X5: what [is_relative_url] answers.  [None] for a fragment
    (a leading [#]); [False] for a protocol-relative URL (a leading
    [//]) and for any URL in which [://] occurs after the first
    character; [True] for a URL without [://], and also for one that
    starts with [://]. *)
Theorem is_relative_url_classification :
  (∀ rest, is_relative_url ("#" +:+ rest) = None)
  ∧ (∀ rest, is_relative_url ("//" +:+ rest) = Some false)
  ∧ (∀ a b, let url := a +:+ "://" +:+ b in
       startswith url "#" = false -> startswith url "://" = false ->
       is_relative_url url = Some false)
  ∧ (∀ rest, is_relative_url ("://" +:+ rest) = Some true)
  ∧ (∀ url, startswith url "#" = false -> startswith url "//" = false ->
       (∀ a b, url ≠ a +:+ "://" +:+ b) ->
       is_relative_url url = Some true).
Proof.
  split_and!.
  - intros rest. unfold is_relative_url, startswith. now rewrite (prefix_app "#" rest).
  - intros rest. unfold is_relative_url, startswith.
    rewrite (prefix_app "//" rest). rewrite andb_false_r.
    change ("//" +:+ rest) with (String "/" (String "/" rest)).
    now rewrite prefix_head by discriminate.
  - intros a b url Hh Hs. unfold is_relative_url. rewrite Hh.
    assert (Hpos : 0 < find url "://").
    { unfold find, url. destruct a as [|c a].
      - unfold url in Hs. unfold startswith in Hs.
        change ("" +:+ "://" +:+ b) with ("://" +:+ b) in Hs.
        now rewrite (prefix_app "://" b) in Hs.
      - change (String c a +:+ "://" +:+ b) with (String c (a +:+ "://" +:+ b)) in *.
        unfold url, startswith in Hs. cbn [find_from]. rewrite Hs.
        change (0 + 1) with 1.
        pose proof (find_from_found "://" a b 1).
        pose proof (find_from_range "://" (a +:+ "://" +:+ b) 1). lia. }
    replace (find url "://" <=? 0) with false by (symmetry; apply Z.leb_gt; lia).
    reflexivity.
  - intros rest. unfold is_relative_url, startswith, find.
    change ("://" +:+ rest) with (String ":" ("//" +:+ rest)).
    rewrite !prefix_head by discriminate. cbn [find_from].
    change (String ":" ("//" +:+ rest)) with ("://" +:+ rest).
    now rewrite prefix_app.
  - intros url Hh Hs Hno. unfold is_relative_url. rewrite Hh, Hs.
    unfold find. rewrite (find_from_missing "://" url 0) by (lia || assumption).
    reflexivity.
Qed.

Lemma is_relative_url_classification_witness :
  is_relative_url "https://en.wikipedia.org/wiki/Apple" = Some false
  ∧ is_relative_url "/wiki/Apple" = Some true.
Proof.
  destruct is_relative_url_classification as (_ & _ & Habs & _ & Hrel).
  split.
  - apply (Habs "https" "en.wikipedia.org/wiki/Apple"); reflexivity.
  - apply Hrel; [reflexivity | reflexivity |].
    intros a b E.
    assert (H : find_from "://" "/wiki/Apple" 0 = -1) by reflexivity.
    rewrite E in H. pose proof (find_from_found "://" a b 0). lia.
Defined.

(** ** One request *)

Lemma wiki_request_run (transport : World -> Request -> TransportResult)
    (params : Params) (s : St) :
  let w := waited (self s) (world s) in
  let req := request_of (self s) params in
  wiki_request transport params s
    = match transport w req with
      | Fails e => (Raise e, {| self := self s; world := record_request req w |})
      | NotJson => (Ok (Dict empty_response),
                    {| self := stamped (self s) w; world := record_request req w |})
      | Json b => (Ok b, {| self := stamped (self s) w; world := record_request req w |})
      end.
Proof.
  cbv zeta.
  unfold wiki_request, bind, gets, _get_response, send, now, sleep, modify, ret, gets,
    waited, stamped, request_of, sent_params.
  destruct s as [c w]. cbn [self world on_world on_self].
  destruct (_rate_limit c) eqn:Hrl;
    [destruct (_rate_limit_last_call c) as [last|];
       [destruct (clock w <? last + _min_wait c) eqn:Hw|]|];
    cbn [self world on_world on_self]; rewrite ?Hw;
    cbn [self world on_world on_self];
    match goal with |- context [transport ?w ?r] => destruct (transport w r) end;
    cbn [self world on_world on_self]; rewrite ?Hrl; reflexivity.
Qed.

Lemma sent_params_lookup (params : Params) :
  sent_params params !! "format" = Some (PyStr "json")
  ∧ sent_params params !! "action" = Some (default (PyStr "query") (params !! "action"))
  ∧ ∀ k, k ≠ "format" -> k ≠ "action" -> sent_params params !! k = params !! k.
Proof.
  unfold sent_params. rewrite lookup_insert_ne by discriminate.
  destruct (params !! "action") as [a|] eqn:Ha; split_and!.
  - apply lookup_insert_eq.
  - rewrite lookup_insert_ne by discriminate. now rewrite Ha.
  - intros k H1 H2. now rewrite lookup_insert_ne by congruence.
  - rewrite lookup_insert_ne by discriminate. apply lookup_insert_eq.
  - apply lookup_insert_eq.
  - intros k H1 H2. now rewrite !lookup_insert_ne by congruence.
Qed.

Lemma waited_spec (c : Client) (w : World) :
  sent (waited c w) = sent w ∧ noted (waited c w) = noted w
  ∧ clock w <= clock (waited c w)
  ∧ (∀ last_call, _rate_limit c = true -> _rate_limit_last_call c = Some last_call ->
       clock (waited c w) = Z.max (clock w) (last_call + _min_wait c)
       ∧ slept (waited c w)
         = (slept w ++ (if clock w <? last_call + _min_wait c
                        then [last_call + _min_wait c - clock w] else []))%list)
  ∧ (_rate_limit c = false ∨ _rate_limit_last_call c = None -> waited c w = w).
Proof.
  unfold waited.
  destruct (_rate_limit c); [destruct (_rate_limit_last_call c) as [last|]|].
  - destruct (clock w <? last + _min_wait c) eqn:E.
    + apply Z.ltb_lt in E. cbn [sent noted clock slept].
      split_and!; try reflexivity; try lia.
      * intros l _ [= <-]. rewrite (proj2 (Z.ltb_lt _ _) E). split; [lia | reflexivity].
      * intros [H | H]; discriminate.
    + apply Z.ltb_ge in E. split_and!; try reflexivity; try lia.
      intros l _ [= <-]. rewrite (proj2 (Z.ltb_ge _ _) E), app_nil_r. split; [lia | reflexivity].
  - split_and!; try reflexivity; try lia; intros l _ H; discriminate.
  - split_and!; try reflexivity; try lia; intros l H; discriminate.
Qed.

(** X6: [wiki_request] sends exactly one GET request, to the
    client's API URL.  Its parameters are the caller's with [format] set
    to ["json"] (also when the caller gave another format) and [action]
    set to ["query"] unless the caller gave one.  What the transport
    answers is returned as it is, an undecodable answer as the empty
    dictionary, and an exception of the transport is raised unchanged.
    The cache and the API URL are not touched. *)
Theorem wiki_request_sends_one_get (transport : World -> Request -> TransportResult)
    (params : Params) (s : St) :
  ∃ (req : Request) (w : World),
    sent (world (wiki_request transport params s).2) = (sent (world s) ++ [req])%list
    ∧ req_method req = GET
    ∧ req_url req = _api_url (self s)
    ∧ req_params req !! "format" = Some (PyStr "json")
    ∧ req_params req !! "action" = Some (default (PyStr "query") (params !! "action"))
    ∧ (∀ k, k ≠ "format" -> k ≠ "action" -> req_params req !! k = params !! k)
    ∧ sent w = sent (world s)
    ∧ (wiki_request transport params s).1
      = match transport w req with
        | Fails e => Raise e
        | NotJson => Ok (Dict empty_response)
        | Json b => Ok b
        end
    ∧ _cache (self (wiki_request transport params s).2) = _cache (self s)
    ∧ _api_url (self (wiki_request transport params s).2) = _api_url (self s).
Proof.
  exists (request_of (self s) params), (waited (self s) (world s)).
  rewrite wiki_request_run. cbv zeta.
  destruct (sent_params_lookup params) as (Hf & Ha & Hk).
  destruct (waited_spec (self s) (world s)) as (Hs & _).
  assert (Hst : ∀ w, _cache (stamped (self s) w) = _cache (self s)
                     ∧ _api_url (stamped (self s) w) = _api_url (self s)).
  { intros w. unfold stamped. destruct (_rate_limit (self s)); split; reflexivity. }
  destruct (transport _ _); cbn [fst snd world self record_request sent];
    rewrite Hs; split_and!; try reflexivity; try assumption; apply Hst.
Qed.

(** X7: the rate limiter.  With rate limiting on, the request that
    follows an answered one is not sent before [min_wait] after it: if
    the clock is short of that, [wiki_request] sleeps exactly the
    difference, otherwise it does not sleep.  With rate limiting off a
    request neither sleeps nor records its time.  After the
    minimum wait has been set anew, the next request does not sleep. *)
Theorem rate_limit_spacing (transport : World -> Request -> TransportResult)
    (p1 p2 : Params) (s s1 : St) (b : Body) :
  wiki_request transport p1 s = (Ok b, s1) ->
  (_rate_limit (self s) = true ->
     ∀ s2, self s2 = self s1 ->
       let s3 := (wiki_request transport p2 s2).2 in
       let due := clock (world s1) + _min_wait (self s) in
       due <= clock (world s3)
       ∧ clock (world s3) = Z.max (clock (world s2)) due
       ∧ slept (world s3)
         = (slept (world s2) ++ (if clock (world s2) <? due
                                 then [due - clock (world s2)] else []))%list)
  ∧ (_rate_limit (self s) = false ->
     slept (world s1) = slept (world s) ∧ clock (world s1) = clock (world s)
     ∧ _rate_limit_last_call (self s1) = _rate_limit_last_call (self s))
  ∧ (∀ min_wait s2, self s2 = set_rate_limit_min_wait min_wait (self s1) ->
       slept (world (wiki_request transport p2 s2).2) = slept (world s2)).
Proof.
  intros E. rewrite wiki_request_run in E. cbv zeta in E.
  assert (Hs1 : s1 = {| self := stamped (self s) (waited (self s) (world s));
                        world := record_request (request_of (self s) p1)
                                   (waited (self s) (world s)) |}).
  { destruct (transport _ _); [discriminate | |]; now injection E as _ <-. }
  clear E. split_and!.
  - intros Hrl s2 Hself s3 due.
    assert (Hc1 : _rate_limit (self s2) = true
                  ∧ _rate_limit_last_call (self s2) = Some (clock (world s1))
                  ∧ _min_wait (self s2) = _min_wait (self s)).
    { rewrite Hself, Hs1. unfold stamped. rewrite Hrl. now split_and!. }
    destruct Hc1 as (Hrl2 & Hlast & Hmw).
    destruct (waited_spec (self s2) (world s2)) as (_ & _ & _ & Hw & _).
    destruct (Hw _ Hrl2 Hlast) as [Hclock Hslept]. rewrite Hmw in Hclock, Hslept.
    assert (Hw3 : clock (world s3) = clock (waited (self s2) (world s2))
                  ∧ slept (world s3) = slept (waited (self s2) (world s2))).
    { unfold s3. rewrite wiki_request_run. cbv zeta.
      destruct (transport _ _); split; reflexivity. }
    destruct Hw3 as [-> ->]. fold due in Hclock, Hslept. split_and!; [lia | exact Hclock | exact Hslept].
  - intros Hrl. rewrite Hs1. cbn [world self record_request slept clock].
    destruct (waited_spec (self s) (world s)) as (_ & _ & _ & _ & Hw).
    rewrite (Hw (or_introl Hrl)). unfold stamped. rewrite Hrl. now split_and!.
  - intros min_wait s2 Hself.
    rewrite wiki_request_run. cbv zeta.
    destruct (waited_spec (self s2) (world s2)) as (_ & _ & _ & _ & Hw).
    rewrite Hw by (right; rewrite Hself; reflexivity).
    destruct (transport _ _); reflexivity.
Qed.

Lemma rate_limit_spacing_witness :
  let s := on_self (with_rate_limit true) state0 in
  let once := wiki_request (listing_transport fruit) ∅ s in
  let twice := wiki_request (listing_transport fruit) ∅ once.2 in
  slept (world once.2) = [] ∧ slept (world twice.2) = [50] ∧ clock (world twice.2) = 50.
Proof.
  cbv zeta.
  destruct (wiki_request (listing_transport fruit) ∅ (on_self (with_rate_limit true) state0))
    as [o s1] eqn:E.
  assert (Ho : o = Ok (Dict (listing_answer fruit (sent_params ∅)))).
  { rewrite wiki_request_run in E. cbv zeta in E. unfold listing_transport in E.
    now injection E as <- _. }
  subst o.
  destruct (rate_limit_spacing (listing_transport fruit) ∅ ∅ _ _ _ E) as (Hon & _ & _).
  destruct (Hon eq_refl s1 eq_refl) as (_ & Hclock & Hslept).
  assert (Hs1 : slept (world s1) = [] ∧ clock (world s1) = 0).
  { rewrite wiki_request_run in E. cbv zeta in E. unfold listing_transport in E.
    injection E as <-. split; reflexivity. }
  destruct Hs1 as [Hsl Hcl]. cbn [snd].
  rewrite Hslept, Hclock, Hsl, Hcl. simpl. now split_and!.
Defined.

Lemma wiki_request_constant (a : TransportResult) (params : Params) (s : St) :
  ∃ s', wiki_request (constant_transport a) params s
          = (match a with
             | Fails e => Raise e
             | NotJson => Ok (Dict empty_response)
             | Json b => Ok b
             end, s')
        ∧ sent (world s') = (sent (world s) ++ [request_of (self s) params])%list
        ∧ _cat_prefix (self s') = _cat_prefix (self s).
Proof.
  rewrite wiki_request_run. cbv zeta. unfold constant_transport.
  destruct (waited_spec (self s) (world s)) as (Hs & _).
  assert (Hst : ∀ w, _cat_prefix (stamped (self s) w) = _cat_prefix (self s)).
  { intros w. unfold stamped. now destruct (_rate_limit (self s)). }
  destruct a; eexists; (split; [reflexivity|]); cbn [world self record_request sent];
    rewrite Hs; split; try reflexivity; apply Hst.
Qed.

Lemma check_error_answer {S} (info : string) (query : option string) (s : S) :
  _check_error_response (Dict (error_answer info)) query s
    = (Raise (mapped_error info query), s).
Proof.
  unfold _check_error_response, error_answer, mapped_error, bind, subscript, ret.
  cbn [r_error].
  destruct (str_in info http_error); [reflexivity|].
  destruct (str_in info geo_error); reflexivity.
Qed.

(** X8: how [categorymembers] fails on its first request.  An
    exception of the transport goes through unchanged; an answer that is
    not JSON is read as the empty dictionary and ends in
    [KeyError "query"]; an error object ends in the exception that
    [_check_error_response] maps its message to, carrying the category.
    In each case exactly one request was sent: nothing is retried. *)
Theorem categorymembers_first_answer_failures (fuel : nat) (cat : string)
    (results : option Z) (subcategories : bool) (s : St) :
  strip cat ≠ "" ->
  let run a := categorymembers (constant_transport a) (S fuel) (Some cat) results
                 subcategories s in
  (∀ e, (run (Fails e)).1 = Raise e)
  ∧ (run NotJson).1 = Raise (KeyError "query")
  ∧ (∀ info, (run (Json (Dict (error_answer info)))).1
             = Raise (mapped_error info (Some cat)))
  ∧ (∀ a, (∃ e, a = Fails e) ∨ a = NotJson ∨ (∃ info, a = Json (Dict (error_answer info))) ->
       length (sent (world (run a).2)) = S (length (sent (world s)))).
Proof.
  intros Hcat run.
  assert (Hrun : ∀ a, run a
            = bind (paging_body (constant_transport a) cat results
                      (initial_paging (_cat_prefix (self s)) cat results subcategories))
                (fun '(ctl, p') =>
                   let* p := match ctl with
                             | Break => ret p'
                             | EndOfBody => paging_loop (constant_transport a) fuel cat
                                              results p'
                             end in
                   ret (if subcategories then VPair (pages p) (subcats p)
                        else VList (pages p))) s).
  { intros a. unfold run, categorymembers, bind at 1 2, _check_query.
    rewrite (eqb_false_of_ne (strip cat) "" Hcat). unfold ret at 1. unfold gets at 1.
    cbn [paging_loop initial_paging finished]. unfold bind.
    destruct (paging_body _ _ _ _ _) as [[[[|] p']| |] s1]; reflexivity. }
  assert (Hbody : ∀ a p,
            (∃ e, a = Fails e) ∨ a = NotJson ∨ (∃ info, a = Json (Dict (error_answer info))) ->
            ∃ s', paging_body (constant_transport a) cat results p s
                  = (match a with
                     | Fails e => Raise e
                     | NotJson => Raise (KeyError "query")
                     | Json (Dict r) =>
                         match r_error r with
                         | Some (Some info) => Raise (mapped_error info (Some cat))
                         | _ => Diverge
                         end
                     | _ => Diverge
                     end, s')
                  ∧ sent (world s')
                    = (sent (world s) ++ [request_of (self s) (next_params p)])%list).
  { intros a p Ha. unfold paging_body, bind. fold (next_params p).
    destruct (wiki_request_constant a (next_params p) s) as (s' & -> & Hsent & _).
    exists s'. split; [|exact Hsent].
    destruct Ha as [[e ->] | [-> | [info ->]]].
    - reflexivity.
    - reflexivity.
    - now rewrite check_error_answer. }
  split_and!.
  - intros e. rewrite Hrun. unfold bind at 1.
    destruct (Hbody (Fails e) (initial_paging (_cat_prefix (self s)) cat results subcategories))
      as (s' & -> & _); [left; now exists e | reflexivity].
  - rewrite Hrun. unfold bind at 1.
    destruct (Hbody NotJson (initial_paging (_cat_prefix (self s)) cat results subcategories))
      as (s' & -> & _); [right; now left | reflexivity].
  - intros info. rewrite Hrun. unfold bind at 1.
    destruct (Hbody (Json (Dict (error_answer info)))
                (initial_paging (_cat_prefix (self s)) cat results subcategories))
      as (s' & -> & _); [right; right; now exists info | reflexivity].
  - intros a Ha. rewrite Hrun. unfold bind at 1.
    destruct (Hbody a (initial_paging (_cat_prefix (self s)) cat results subcategories) Ha)
      as (s' & -> & Hsent).
    destruct Ha as [[e ->] | [-> | [info ->]]]; cbn [snd r_error error_answer];
      rewrite Hsent, length_app; simpl; lia.
Qed.

Lemma categorymembers_first_answer_failures_witness :
  (categorymembers not_a_wiki 1 (Some "Fruit") (Some 10) true state0).1
    = Raise (KeyError "query")
  ∧ (categorymembers (constant_transport (Json (Dict (error_answer "Pool queue is full"))))
       1 (Some "Fruit") (Some 10) true state0).1
    = Raise (HTTPTimeoutError (Some "Fruit")).
Proof.
  assert (H : strip "Fruit" ≠ "") by (vm_compute; discriminate).
  destruct (categorymembers_first_answer_failures 0 "Fruit" (Some 10) true state0 H)
    as (_ & Hnj & Herr & _).
  split; [exact Hnj | exact (Herr "Pool queue is full")].
Defined.

(** ** The rows of [opensearch] *)

Section Rows.

Variable answer : Body.
Variables descs urls : list string.
Hypothesis Hdescs : ∀ S (s : S), index answer 2 s = (Ok (IList descs), s).
Hypothesis Hurls : ∀ S (s : S), index answer 3 s = (Ok (IList urls), s).

#[local] Abbreviation row_step :=
  (fun (acc : list (string * string * string)) (it : nat * string) =>
     let* r2 := index answer 2 in
     let* d := elem_at r2 it.1 in
     let* r3 := index answer 3 in
     let* u := elem_at r3 it.1 in
     (ret (acc ++ [(it.2, d, u)])%list : M St _)).

Lemma rows_fold (titles : list string) :
  ∀ (k : nat) (acc : list (string * string * string)) (s : St),
    (k + length titles <= length descs)%nat -> (k + length titles <= length urls)%nat ->
    foldM row_step (imap (fun i x => ((k + i)%nat, x)) titles) acc s
      = (Ok (acc ++ zip (zip titles (drop k descs)) (drop k urls))%list, s).
Proof.
  induction titles as [|t titles IH]; intros k acc s Hd Hu.
  - simpl. unfold ret. now rewrite app_nil_r.
  - cbn [imap foldM length] in *.
    destruct (lookup_lt_is_Some_2 descs k ltac:(lia)) as [d Hdk].
    destruct (lookup_lt_is_Some_2 urls k ltac:(lia)) as [u Huk].
    unfold bind at 1. unfold bind at 1. rewrite Hdescs.
    unfold bind at 1. unfold elem_at at 1. cbn [elems fst snd]. rewrite Nat.add_0_r, Hdk.
    unfold ret at 1. unfold bind at 1. rewrite Hurls.
    unfold bind at 1. unfold elem_at at 1. cbn [elems fst snd]. rewrite Huk.
    unfold ret at 1 2.
    rewrite (imap_ext _ (fun i x => ((S k + i)%nat, x)) titles)
      by (intros i x _; simpl; f_equal; lia).
    rewrite IH by lia.
    rewrite (drop_S descs d k Hdk), (drop_S urls u k Huk). cbn [zip_with].
    now rewrite <- app_assoc.
Qed.

Lemma rows_fold_short (titles : list string) :
  ∀ (k : nat) (acc : list (string * string * string)) (s : St),
    (k <= length descs)%nat -> (k <= length urls)%nat ->
    (length descs < k + length titles)%nat ∨ (length urls < k + length titles)%nat ->
    foldM row_step (imap (fun i x => ((k + i)%nat, x)) titles) acc s = (Raise IndexError, s).
Proof.
  induction titles as [|t titles IH]; intros k acc s Hkd Hku Hshort.
  - simpl in Hshort. lia.
  - cbn [imap foldM length] in *.
    unfold bind at 1. unfold bind at 1. rewrite Hdescs.
    unfold bind at 1. unfold elem_at at 1. cbn [elems fst snd]. rewrite Nat.add_0_r.
    destruct (descs !! k) as [d|] eqn:Hdk; [|reflexivity].
    unfold ret at 1. unfold bind at 1. rewrite Hurls.
    unfold bind at 1. unfold elem_at at 1. cbn [elems fst snd].
    destruct (urls !! k) as [u|] eqn:Huk; [|reflexivity].
    unfold ret at 1 2.
    rewrite (imap_ext _ (fun i x => ((S k + i)%nat, x)) titles)
      by (intros i x _; simpl; f_equal; lia).
    apply lookup_lt_Some in Hdk. apply lookup_lt_Some in Huk.
    apply IH; lia.
Qed.

End Rows.

Lemma rows_fold_state (answer : Body) (l : list (nat * string)) :
  ∀ (acc : list (string * string * string)) (s : St),
    (foldM (fun acc (it : nat * string) =>
              let* r2 := index answer 2 in
              let* d := elem_at r2 it.1 in
              let* r3 := index answer 3 in
              let* u := elem_at r3 it.1 in
              ret (acc ++ [(it.2, d, u)])%list) l acc s).2 = s.
Proof.
  induction l as [|it l IH]; intros acc s; [reflexivity|].
  cbn [foldM]. unfold bind at 1. unfold bind at 1.
  unfold index at 1. destruct answer as [r | items]; [reflexivity|].
  destruct (items !! 2%nat) as [r2|]; [|reflexivity]. unfold ret at 1.
  unfold bind at 1. unfold elem_at at 1.
  destruct (elems r2 !! it.1) as [d|]; [|reflexivity]. unfold ret at 1.
  unfold bind at 1. unfold index at 1.
  destruct (items !! 3%nat) as [r3|]; [|reflexivity]. unfold ret at 1.
  unfold bind at 1. unfold elem_at at 1.
  destruct (elems r3 !! it.1) as [u|]; [|reflexivity]. unfold ret at 1 2.
  apply IH.
Qed.

(** X9: what [opensearch] makes of the answer array
    [[echoed, titles, descriptions, urls]].  When all three lists are at
    least as long as the titles, the result is the list of the triples
    (title, description, url) in the order of the titles; when a
    description or a url is missing for some title, the call raises an
    [IndexError]; and when the first element, the echoed search text, is
    the string ["error"], the membership test of [_check_error_response]
    holds on the list and the call raises a [TypeError].  One request is
    sent; its action is ["opensearch"], not the default, and its limit is
    the requested number capped at 500. *)
Theorem opensearch_rows (q echoed : string) (titles descs urls : list string)
    (results : option Z) (redirect : bool) (s : St) :
  strip q ≠ "" ->
  let answer := Array [IStr echoed; IList titles; IList descs; IList urls] in
  let run := opensearch (constant_transport (Json answer)) (Some q) results redirect s in
  (echoed ≠ "error" ->
     (length titles <= length descs)%nat -> (length titles <= length urls)%nat ->
     run.1 = Ok (VRows (zip (zip titles descs) urls)))
  ∧ (echoed ≠ "error" ->
     (length descs < length titles)%nat ∨ (length urls < length titles)%nat ->
     run.1 = Raise IndexError)
  ∧ (echoed = "error" -> run.1 = Raise TypeError)
  ∧ (∃ req, sent (world run.2) = (sent (world s) ++ [req])%list
            ∧ req_params req !! "action" = Some (PyStr "opensearch")
            ∧ req_params req !! "search" = Some (PyStr q)
            ∧ req_params req !! "limit"
              = Some (PyInt (match results with Some n => Z.min n 500 | None => 500 end))).
Proof.
  intros Hq answer run.
  set (query_params := (<["action" := PyStr "opensearch"]>
        (<["search" := PyStr q]>
        (<["limit" := PyInt (match results with
                             | Some n => Z.min n max_pull
                             | None => max_pull
                             end)]>
        (<["redirects" := PyStr (if redirect then "resolve" else "return")]>
        (<["warningsaserror" := PyBool true]>
        (<["namespace" := PyStr ""]> ∅))))) : Params)).
  destruct (wiki_request_constant (Json answer) query_params s) as (s' & Hreq & Hsent & _).
  assert (Hrun : run
            = bind (_check_error_response answer (Some q))
                (fun _ =>
                   let* rows :=
                     foldM (fun acc (it : nat * string) =>
                              let* r2 := index answer 2 in
                              let* d := elem_at r2 it.1 in
                              let* r3 := index answer 3 in
                              let* u := elem_at r3 it.1 in
                              ret (acc ++ [(it.2, d, u)])%list)
                           (imap (fun i x => ((0 + i)%nat, x)) titles) [] in
                   ret (VRows rows)) s').
  { unfold run, opensearch, bind at 1 2, _check_query.
    rewrite (eqb_false_of_ne (strip q) "" Hq). unfold ret at 1.
    fold query_params. rewrite Hreq. reflexivity. }
  assert (Hcheck : _check_error_response answer (Some q) s'
                   = if String.eqb echoed "error" then (Raise TypeError, s') else (Ok tt, s')).
  { unfold _check_error_response, answer. cbn [existsb item_is]. rewrite !orb_false_r.
    now destruct (String.eqb echoed "error"). }
  assert (Hd : ∀ S (s0 : S), index answer 2 s0 = (Ok (IList descs), s0)) by reflexivity.
  assert (Hu : ∀ S (s0 : S), index answer 3 s0 = (Ok (IList urls), s0)) by reflexivity.
  split_and!.
  - intros Hne Hld Hlu. rewrite Hrun. unfold bind at 1.
    rewrite Hcheck, (eqb_false_of_ne echoed "error" Hne). unfold bind at 1.
    rewrite (rows_fold answer descs urls Hd Hu titles 0 [] s') by (simpl; lia).
    reflexivity.
  - intros Hne Hshort. rewrite Hrun. unfold bind at 1.
    rewrite Hcheck, (eqb_false_of_ne echoed "error" Hne). unfold bind at 1.
    rewrite (rows_fold_short answer descs urls Hd Hu titles 0 [] s') by (simpl; lia).
    reflexivity.
  - intros ->. rewrite Hrun. unfold bind at 1. rewrite Hcheck. reflexivity.
  - exists (request_of (self s) query_params).
    assert (Hst : run.2 = s').
    { rewrite Hrun. unfold bind at 1. rewrite Hcheck.
      destruct (String.eqb echoed "error"); [reflexivity|]. unfold bind.
      pose proof (rows_fold_state answer (imap (fun i x => ((0 + i)%nat, x)) titles) [] s')
        as Hf.
      destruct (foldM _ _ _ _) as [[rows| |] s2]; cbn [snd] in *; exact Hf. }
    rewrite Hst. split; [exact Hsent|].
    unfold request_of. cbn [req_params].
    destruct (sent_params_lookup query_params) as (_ & Ha & Hk).
    unfold query_params in *. split_and!.
    + rewrite Ha. now rewrite lookup_insert_eq.
    + rewrite Hk by discriminate. rewrite lookup_insert_ne by discriminate.
      apply lookup_insert_eq.
    + rewrite Hk by discriminate. rewrite !lookup_insert_ne by discriminate.
      apply lookup_insert_eq.
Qed.

Lemma opensearch_rows_witness :
  let answer titles := Array [IStr "error"; IList titles; IList ["d"]; IList ["u"]] in
  (opensearch (constant_transport (Json (Array [IStr "apple"; IList ["Apple"; "Apple Inc."];
                                                IList ["a fruit"; "a company"];
                                                IList ["/Apple"; "/Apple_Inc."]])))
     (Some "apple") (Some 10) true state0).1
    = Ok (VRows [("Apple", "a fruit", "/Apple"); ("Apple Inc.", "a company", "/Apple_Inc.")])
  ∧ (opensearch (constant_transport (Json (answer ["Error"])))
       (Some "error") (Some 10) true state0).1 = Raise TypeError.
Proof.
  cbv zeta. split.
  - assert (H : strip "apple" ≠ "") by (vm_compute; discriminate).
    apply (opensearch_rows "apple" "apple" ["Apple"; "Apple Inc."] ["a fruit"; "a company"]
             ["/Apple"; "/Apple_Inc."] (Some 10) true state0 H);
      [discriminate | simpl; lia | simpl; lia].
  - assert (H : strip "error" ≠ "") by (vm_compute; discriminate).
    now apply (opensearch_rows "error" "error" ["Error"] ["d"] ["u"] (Some 10) true state0 H).
Defined.

(** ** Logging in *)

Lemma login_run (site : Site) (u p : string) (strict : bool) (s : St) :
  let ok := bool_decide ((u, p) ∈ site_accounts site) in
  let w' := record_request (login_request (self s) u p (site_token site))
              (record_request (token_request (self s)) (world s)) in
  login (site_transport site) u p strict s
    = (if ok then Ok true
       else if strict then Raise (MediaWikiLoginError ("MediaWiki login failure: " +:+ wrong_login))
       else Ok false,
       {| self := with_is_logged_in ok (self s); world := w' |}).
Proof.
  cbv zeta. unfold login, bind, _get_response, _post_response, send, site_transport.
  cbn [req_method req_params on_world self world].
  rewrite decide_True
    by (rewrite lookup_insert_ne by discriminate; apply lookup_insert_eq).
  cbn [token_answer r_query q_tokens subscript ret].
  unfold ret at 1.
  cbn [req_method req_params on_world self world].
  rewrite (lookup_insert_ne _ "action" "lgname") by discriminate.
  rewrite (lookup_insert_eq _ "lgname").
  rewrite (lookup_insert_ne _ "action" "lgpassword") by discriminate.
  rewrite (lookup_insert_ne _ "lgname" "lgpassword") by discriminate.
  rewrite (lookup_insert_eq _ "lgpassword").
  rewrite (lookup_insert_ne _ "action" "lgtoken") by discriminate.
  rewrite (lookup_insert_ne _ "lgname" "lgtoken") by discriminate.
  rewrite (lookup_insert_ne _ "lgpassword" "lgtoken") by discriminate.
  rewrite (lookup_insert_eq _ "lgtoken").
  rewrite String.eqb_refl. cbn [andb].
  destruct (bool_decide ((u, p) ∈ site_accounts site));
    cbn [login_result r_login subscript ret lg_result lg_reason];
    unfold ret, modify; [reflexivity|].
  destruct strict; reflexivity.
Qed.

(** X10: [login] against a site with accounts.  The token that the
    first request fetches is the token that the second request posts.
    With the name and password of an account the call returns [True]
    and the client is logged in; otherwise the client is logged out and
    the call raises [MediaWikiLoginError] with the site's reason when
    [strict], or returns [False] when not.  The two requests do not go
    through the rate limiter (no sleep, no time recorded) and leave the
    cache alone.  Against a host that does not answer JSON the token is
    never bound: the call raises [UnboundLocalError] after one
    request. *)
Theorem login_outcomes (site : Site) (u p : string) (strict : bool) (s : St) :
  let run := login (site_transport site) u p strict s in
  ((u, p) ∈ site_accounts site ->
     run.1 = Ok true ∧ _is_logged_in (self run.2) = true)
  ∧ ((u, p) ∉ site_accounts site ->
     _is_logged_in (self run.2) = false
     ∧ run.1 = if strict
               then Raise (MediaWikiLoginError ("MediaWiki login failure: " +:+ wrong_login))
               else Ok false)
  ∧ sent (world run.2)
    = (sent (world s) ++ [token_request (self s);
                          login_request (self s) u p (site_token site)])%list
  ∧ slept (world run.2) = slept (world s)
  ∧ _rate_limit_last_call (self run.2) = _rate_limit_last_call (self s)
  ∧ _cache (self run.2) = _cache (self s)
  ∧ (login not_a_wiki u p strict s).1 = Raise (UnboundLocalError "token")
  ∧ sent (world (login not_a_wiki u p strict s).2)
    = (sent (world s) ++ [token_request (self s)])%list.
Proof.
  intros run. unfold run. rewrite login_run. cbv zeta. cbn [fst snd self world].
  split_and!.
  - intros Hin. rewrite bool_decide_eq_true_2 by exact Hin. now split.
  - intros Hout. rewrite bool_decide_eq_false_2 by exact Hout. now split.
  - cbn [record_request sent]. now rewrite <- app_assoc.
  - reflexivity.
  - reflexivity.
  - reflexivity.
  - reflexivity.
  - reflexivity.
Qed.

Lemma login_outcomes_witness :
  (login (site_transport wikipedia) "bot" "secret" true state0).1 = Ok true
  ∧ (login (site_transport wikipedia) "bot" "guess" false state0).1 = Ok false.
Proof.
  destruct (login_outcomes wikipedia "bot" "secret" true state0) as ([H1 _] & _).
  { apply elem_of_cons. now left. }
  destruct (login_outcomes wikipedia "bot" "guess" false state0) as (_ & [_ H2] & _).
  { intros H. apply list_elem_of_singleton in H. discriminate. }
  split; [exact H1 | exact H2].
Defined.

(** ** Site information *)

Lemma parse_ints_mapM {S} (l : list string) (zs : list Z) (s : S) :
  mapM parse_int l = Some zs -> parse_ints l s = (Ok zs, s).
Proof.
  revert zs. induction l as [|x l IH]; intros zs H.
  - injection H as <-. reflexivity.
  - cbn [mapM] in H. cbn [parse_ints].
    destruct (parse_int x) as [z|]; [|discriminate]. cbn in H.
    destruct (mapM parse_int l) as [zs'|]; [|discriminate]. injection H as <-.
    unfold bind. now rewrite (IH zs' eq_refl).
Qed.

(** The state in which the answer to [params] arrives. *)
Lemma wiki_request_answer (transport : World -> Request -> TransportResult)
    (params : Params) (s : St) (a : TransportResult) :
  transport (waited (self s) (world s)) (request_of (self s) params) = a ->
  wiki_request transport params s
    = (match a with
       | Fails e => Raise e
       | NotJson => Ok (Dict empty_response)
       | Json b => Ok b
       end,
       {| self := match a with
                  | Fails _ => self s
                  | _ => stamped (self s) (waited (self s) (world s))
                  end;
          world := record_request (request_of (self s) params)
                     (waited (self s) (world s)) |}).
Proof. intros <-. rewrite wiki_request_run. cbv zeta. now destruct (transport _ _). Qed.

Section SiteInfo.

Variable transport : World -> Request -> TransportResult.
Variable s : St.

#[local] Abbreviation w := (waited (self s) (world s)).
#[local] Abbreviation req := (request_of (self s) siteinfo_params).
#[local] Abbreviation answered :=
  {| self := stamped (self s) w; world := record_request req w |}.

Lemma site_info_missing :
  (transport w req = NotJson
   ∨ ∃ r, transport w req = Json (Dict r) ∧ r_query r ≫= q_general = None) ->
  _get_site_info transport s
    = (Raise (MediaWikiException "Missing query in response"), answered).
Proof.
  intros H. unfold _get_site_info, bind. fold siteinfo_params.
  destruct H as [H | (r & H & Hr)]; rewrite (wiki_request_answer _ _ _ _ H).
  - reflexivity.
  - destruct (r_query r) as [q|]; [|reflexivity]. cbn [mbind option_bind] in *.
    destruct (q_general q); [discriminate | reflexivity].
Qed.

Lemma site_info_parsed (r : Response) (q : Query) (gen : General) (g srv : string)
    (exts : list string) (vs : list Z) :
  transport w req = Json (Dict r) ->
  r_query r = Some q -> q_general q = Some gen ->
  g_generator gen = Some g -> version_of g = Some vs ->
  g_server gen = Some srv -> srv ≠ "" ->
  ((startswith srv "http://" || startswith srv "https://")%bool = true
   ∨ is_Some (g_base gen)) ->
  q_extensions q = Some exts ->
  _get_site_info transport s
    = (Ok tt,
       on_self (with_site
         {| _extensions := Some (sorted_set exts);
            _api_version := Some vs;
            _api_version_str := Some (join "." (pretty <$> vs));
            _base_url := Some (base_url_of srv (default "" (g_base gen))) |}) answered).
Proof.
  intros Ht Hq Hgen Hg Hv Hsrv Hne Hbase Hexts.
  unfold _get_site_info, bind at 1. fold siteinfo_params.
  rewrite (wiki_request_answer _ _ _ _ Ht). rewrite Hq. cbn [mbind option_bind fmap option_fmap option_map].
  rewrite Hgen. cbn [fmap option_fmap option_map]. rewrite Hg.
  unfold version_of in Hv.
  destruct (split_on " " g !! 1%nat) as [second|] eqn:Hsec; [|discriminate].
  cbn [mbind option_bind] in Hv.
  unfold bind at 1. unfold subscript at 1. unfold ret at 1.
  unfold bind at 1. rewrite Hsec. unfold ret at 1.
  unfold bind at 1. rewrite (parse_ints_mapM _ vs _ Hv).
  unfold bind at 1. unfold modify at 1.
  rewrite Hsrv. cbn [from_option id]. rewrite (eqb_false_of_ne srv "" Hne).
  unfold bind at 1. unfold base_url_of.
  destruct (startswith srv "http://" || startswith srv "https://")%bool eqn:Hh.
  - unfold ret at 1. unfold bind at 1. unfold modify at 1.
    unfold bind at 1. rewrite Hexts. unfold subscript, ret, modify. reflexivity.
  - destruct Hbase as [Hbase | [base Hb]]; [discriminate|]. rewrite Hb. cbn [from_option id].
    unfold bind at 1. unfold subscript at 1. unfold ret at 1.
    destruct (startswith base "https:");
      unfold ret at 1; unfold bind at 1; unfold modify at 1;
      unfold bind at 1; rewrite Hexts; unfold subscript, ret, modify; reflexivity.
Qed.

Lemma site_info_no_server (r : Response) (q : Query) (gen : General) (g : string)
    (vs : list Z) :
  transport w req = Json (Dict r) ->
  r_query r = Some q -> q_general q = Some gen ->
  g_generator gen = Some g -> version_of g = Some vs ->
  (g_server gen = None ∨ g_server gen = Some "") ->
  _get_site_info transport s
    = (Raise (MediaWikiException "Unable to parse base url"),
       on_self (fun c => with_site
         {| _extensions := _extensions (_site c);
            _api_version := Some vs;
            _api_version_str := Some (join "." (pretty <$> vs));
            _base_url := _base_url (_site c) |} c) answered).
Proof.
  intros Ht Hq Hgen Hg Hv Hsrv.
  unfold _get_site_info, bind at 1. fold siteinfo_params.
  rewrite (wiki_request_answer _ _ _ _ Ht). rewrite Hq. cbn [mbind option_bind fmap option_fmap option_map].
  rewrite Hgen. cbn [fmap option_fmap option_map]. rewrite Hg.
  unfold version_of in Hv.
  destruct (split_on " " g !! 1%nat) as [second|] eqn:Hsec; [|discriminate].
  cbn [mbind option_bind] in Hv.
  unfold bind at 1. unfold subscript at 1. unfold ret at 1.
  unfold bind at 1. rewrite Hsec. unfold ret at 1.
  unfold bind at 1. rewrite (parse_ints_mapM _ vs _ Hv).
  unfold bind at 1. unfold modify at 1.
  destruct Hsrv as [-> | ->]; reflexivity.
Qed.

End SiteInfo.

Lemma site_transport_siteinfo (site : Site) (w0 : World) (c : Client) :
  site_transport site w0 (request_of c siteinfo_params) = Json (Dict (site_answer site)).
Proof.
  unfold site_transport, request_of. cbn [req_method req_params].
  rewrite decide_False; [reflexivity|].
  destruct (sent_params_lookup siteinfo_params) as (_ & _ & Hk).
  rewrite Hk by discriminate. unfold siteinfo_params. rewrite lookup_insert_eq. discriminate.
Qed.

Lemma site_info_answered (site : Site) (s : St) (vs : list Z) :
  version_of (site_generator site) = Some vs -> site_server site ≠ "" ->
  _get_site_info (site_transport site) s
    = (Ok tt,
       on_self (with_site
         {| _extensions := Some (sorted_set (site_extensions site));
            _api_version := Some vs;
            _api_version_str := Some (join "." (pretty <$> vs));
            _base_url := Some (base_url_of (site_server site) (site_base site)) |})
         {| self := stamped (self s) (waited (self s) (world s));
            world := record_request (request_of (self s) siteinfo_params)
                       (waited (self s) (world s)) |}).
Proof.
  intros Hv Hsrv.
  pose proof (site_transport_siteinfo site (waited (self s) (world s)) (self s)) as Ht.
  apply (site_info_parsed (site_transport site) s (site_answer site) _ _ _ _ _ vs Ht
           eq_refl eq_refl eq_refl Hv eq_refl Hsrv); [|reflexivity].
  right. now eexists.
Qed.

Lemma site_info_not_a_wiki (s : St) :
  _get_site_info not_a_wiki s
    = (Raise (MediaWikiException "Missing query in response"),
       {| self := stamped (self s) (waited (self s) (world s));
          world := record_request (request_of (self s) siteinfo_params)
                     (waited (self s) (world s)) |}).
Proof. apply site_info_missing. now left. Qed.

(** X11: what [_get_site_info] reads from the site.  The version is
    the second word of the generator up to the first dash, split at the
    dots and read as integers, and the version string is these joined
    again; the base URL is the server when it names its scheme, and the
    server behind the scheme of the base otherwise; the extensions are
    the sorted set of the names.  Without a server the call raises
    [MediaWikiException] after it has already stored the version (the
    base URL and the extensions keep their old values); a generator of
    one word ends in an [IndexError]; an answer that is not JSON ends in
    [MediaWikiException "Missing query in response"]. *)
Theorem site_info_outcomes (site : Site) (s : St) :
  let w := waited (self s) (world s) in
  let answered :=
    {| self := stamped (self s) w;
       world := record_request (request_of (self s) siteinfo_params) w |} in
  (∀ vs, version_of (site_generator site) = Some vs -> site_server site ≠ "" ->
     _get_site_info (site_transport site) s
       = (Ok tt,
          on_self (with_site
            {| _extensions := Some (sorted_set (site_extensions site));
               _api_version := Some vs;
               _api_version_str := Some (join "." (pretty <$> vs));
               _base_url := Some (base_url_of (site_server site) (site_base site)) |})
            answered))
  ∧ (∀ vs, version_of (site_generator site) = Some vs -> site_server site = "" ->
     ∃ s', _get_site_info (site_transport site) s
             = (Raise (MediaWikiException "Unable to parse base url"), s')
           ∧ _api_version (_site (self s')) = Some vs
           ∧ _base_url (_site (self s')) = _base_url (_site (self s))
           ∧ _extensions (_site (self s')) = _extensions (_site (self s)))
  ∧ (split_on " " (site_generator site) !! 1%nat = None ->
     (_get_site_info (site_transport site) s).1 = Raise IndexError)
  ∧ _get_site_info not_a_wiki s
    = (Raise (MediaWikiException "Missing query in response"), answered).
Proof.
  cbv zeta.
  pose proof (site_transport_siteinfo site (waited (self s) (world s)) (self s)) as Ht.
  split_and!.
  - intros vs Hv Hsrv. now apply site_info_answered.
  - intros vs Hv Hsrv. eexists. split.
    + apply (site_info_no_server (site_transport site) s (site_answer site) _ _ _ vs Ht
               eq_refl eq_refl eq_refl Hv). right. cbn. now rewrite Hsrv.
    + cbn [self on_self]. unfold stamped. destruct (_rate_limit (self s)); now split_and!.
  - intros Hsplit. unfold _get_site_info, bind at 1. fold siteinfo_params.
    rewrite (wiki_request_answer _ _ _ _ Ht).
    cbn [site_answer r_query q_general g_generator mbind option_bind fmap option_fmap
         option_map].
    unfold bind at 1. unfold subscript at 1. unfold ret at 1.
    unfold bind at 1. now rewrite Hsplit.
  - apply site_info_not_a_wiki.
Qed.

Lemma site_info_outcomes_witness :
  ∃ s', _get_site_info (site_transport wikipedia) state0 = (Ok tt, s')
        ∧ _site (self s')
          = {| _extensions := Some ["Cite"; "Math"];
               _api_version := Some [1; 35; 0];
               _api_version_str := Some "1.35.0";
               _base_url := Some "https://en.wikipedia.org" |}.
Proof.
  assert (Hv : version_of (site_generator wikipedia) = Some [1; 35; 0])
    by (vm_compute; reflexivity).
  assert (Hs : site_server wikipedia ≠ "") by discriminate.
  eexists. split.
  - exact (proj1 (site_info_outcomes wikipedia state0) [1; 35; 0] Hv Hs).
  - vm_compute. reflexivity.
Defined.

(** ** A new endpoint that answers *)

Lemma stamped_fields (c : Client) (w0 : World) :
  _lang (stamped c w0) = _lang c ∧ _api_url (stamped c w0) = _api_url c
  ∧ _cat_prefix (stamped c w0) = _cat_prefix c
  ∧ _cache (stamped c w0) = _cache c ∧ _is_logged_in (stamped c w0) = _is_logged_in c
  ∧ _use_cache (stamped c w0) = _use_cache c
  ∧ _refresh_interval (stamped c w0) = _refresh_interval c
  ∧ _rate_limit (stamped c w0) = _rate_limit c ∧ _min_wait (stamped c w0) = _min_wait c
  ∧ _rate_limit_last_call (stamped c w0)
    = (if _rate_limit c then Some (clock w0) else _rate_limit_last_call c).
Proof. unfold stamped. destruct (_rate_limit c) eqn:E; now split_and!. Qed.

Lemma after_validation (c : Client) (w0 : World) (si : SiteInfo) :
  let c' := clear_memoized (with_languages_reset (with_site si (stamped c w0))) in
  _api_url c' = _api_url c ∧ _lang c' = _lang c
  ∧ _cache c' = (fun _ => ∅) <$> _cache c
  ∧ __supported_languages c' = None ∧ __available_languages c' = None
  ∧ _is_logged_in c' = _is_logged_in c ∧ _site c' = si.
Proof.
  cbv zeta. unfold stamped, clear_memoized.
  destruct (_rate_limit c); destruct (_cache c) eqn:E; cbn; rewrite ?E; now split_and!.
Qed.

(** X12: [set_api_url] on an endpoint that answers.  The call returns,
    the API URL is the template with the lower-cased language filled
    in, the language is the lower-cased one, every cached value is
    gone, the two language tables are reset, the site information is
    that of the new site, and the client is logged out; one request was
    sent, to the new URL.  With the name and password of an account the
    client ends logged in, after three requests. *)
Theorem set_api_url_switches_endpoint (derives : exn -> bool) (site : Site)
    (api_url lang : string) (s : St) (vs : list Z) :
  version_of (site_generator site) = Some vs -> site_server site ≠ "" ->
  let new_url := format_lang api_url (lower lang) in
  (∃ s', set_api_url (site_transport site) derives api_url lang None None s = (Ok tt, s')
         ∧ _api_url (self s') = new_url
         ∧ _lang (self s') = lower lang
         ∧ _cache (self s') = (fun _ => ∅) <$> _cache (self s)
         ∧ __supported_languages (self s') = None
         ∧ __available_languages (self s') = None
         ∧ _is_logged_in (self s') = false
         ∧ _api_version (_site (self s')) = Some vs
         ∧ ∃ req, sent (world s') = (sent (world s) ++ [req])%list ∧ req_url req = new_url)
  ∧ (∀ u p, (u, p) ∈ site_accounts site ->
       ∃ s', set_api_url (site_transport site) derives api_url lang (Some u) (Some p) s
               = (Ok tt, s')
             ∧ _api_url (self s') = new_url
             ∧ _is_logged_in (self s') = true
             ∧ _cache (self s') = (fun _ => ∅) <$> _cache (self s)
             ∧ length (sent (world s')) = (length (sent (world s)) + 3)%nat).
Proof.
  intros Hv Hsrv new_url. split.
  - set (s0 := switch_endpoint api_url lang s).
    assert (E : set_api_url (site_transport site) derives api_url lang None None s
                = (Ok tt,
                   {| self := clear_memoized (with_languages_reset (with_site
                        {| _extensions := Some (sorted_set (site_extensions site));
                           _api_version := Some vs;
                           _api_version_str := Some (join "." (pretty <$> vs));
                           _base_url := Some (base_url_of (site_server site) (site_base site)) |}
                        (stamped (self s0) (waited (self s0) (world s0)))));
                      world := record_request (request_of (self s0) siteinfo_params)
                                 (waited (self s0) (world s0)) |})).
    { unfold set_api_url, validate_endpoint. unfold bind at 1 2. unfold ret at 1.
      fold s0. rewrite (site_info_answered site s0 vs Hv Hsrv). reflexivity. }
    eexists. split; [exact E|]. cbn [self world].
    destruct (after_validation (self s0) (waited (self s0) (world s0))
                {| _extensions := Some (sorted_set (site_extensions site));
                   _api_version := Some vs;
                   _api_version_str := Some (join "." (pretty <$> vs));
                   _base_url := Some (base_url_of (site_server site) (site_base site)) |})
      as (F1 & F2 & F3 & F4 & F5 & F6 & F7).
    destruct (waited_spec (self s0) (world s0)) as (Hs & _).
    rewrite F1, F2, F3, F4, F5, F6, F7.
    split_and!; try reflexivity.
    eexists. split; [cbn [record_request sent]; rewrite Hs; reflexivity | reflexivity].
  - intros u p Hin.
    set (s0 := switch_endpoint api_url lang s).
    set (s1 := {| self := with_is_logged_in true (self s0);
                  world := record_request (login_request (self s0) u p (site_token site))
                             (record_request (token_request (self s0)) (world s0)) |}).
    assert (E : set_api_url (site_transport site) derives api_url lang (Some u) (Some p) s
                = (Ok tt,
                   {| self := clear_memoized (with_languages_reset (with_site
                        {| _extensions := Some (sorted_set (site_extensions site));
                           _api_version := Some vs;
                           _api_version_str := Some (join "." (pretty <$> vs));
                           _base_url := Some (base_url_of (site_server site) (site_base site)) |}
                        (stamped (self s1) (waited (self s1) (world s1)))));
                      world := record_request (request_of (self s1) siteinfo_params)
                                 (waited (self s1) (world s1)) |})).
    { unfold set_api_url, validate_endpoint. unfold bind at 1 2 3.
      fold s0. rewrite login_run. cbv zeta. rewrite (bool_decide_eq_true_2 _ Hin).
      unfold ret at 1. fold s1.
      rewrite (site_info_answered site s1 vs Hv Hsrv). reflexivity. }
    eexists. split; [exact E|]. cbn [self world].
    destruct (after_validation (self s1) (waited (self s1) (world s1))
                {| _extensions := Some (sorted_set (site_extensions site));
                   _api_version := Some vs;
                   _api_version_str := Some (join "." (pretty <$> vs));
                   _base_url := Some (base_url_of (site_server site) (site_base site)) |})
      as (F1 & _ & F3 & _ & _ & F6 & _).
    destruct (waited_spec (self s1) (world s1)) as (Hs & _).
    rewrite F1, F3, F6.
    split_and!; try reflexivity.
    cbn [record_request sent]. rewrite Hs. unfold s1. cbn [world record_request sent].
    rewrite !length_app. simpl. lia.
Qed.

Lemma set_api_url_switches_endpoint_witness :
  ∃ s', set_api_url (site_transport wikipedia) (fun _ => false)
          "https://{lang}.wikipedia.org/w/api.php" "FR" None None state0 = (Ok tt, s')
        ∧ _api_url (self s') = "https://fr.wikipedia.org/w/api.php"
        ∧ _lang (self s') = "fr".
Proof.
  assert (Hv : version_of (site_generator wikipedia) = Some [1; 35; 0])
    by (vm_compute; reflexivity).
  assert (Hs : site_server wikipedia ≠ "") by discriminate.
  destruct (proj1 (set_api_url_switches_endpoint (fun _ => false) wikipedia
                     "https://{lang}.wikipedia.org/w/api.php" "FR" state0 [1; 35; 0] Hv Hs))
    as (s' & E & Hu & Hl & _).
  exists s'. split_and!; [exact E | rewrite Hu; vm_compute; reflexivity | exact Hl].
Defined.

(** ** The constructor *)

Section Construct.

Variable derives : exn -> bool.
Variables url lang cat_prefix : string.
Variable rate_limit : bool.
Variable rate_limit_wait : Z.
Variable w0 : World.

(** The object when [__init__] reaches the login. *)
#[local] Abbreviation assigned :=
  {| self :=
       with_is_logged_in false (with_use_cache true (with_refresh_interval None
         (with_cache (Some ∅) (with_languages_reset (with_site no_site
           (with_min_wait rate_limit_wait (with_rate_limit_last_call None
             (set_rate_limit rate_limit (with_is_logged_in false
               (set_category_prefix cat_prefix
                 (with_api_url (format_lang url (lower lang))
                    (with_lang (lower lang) unassigned))))))))))));
     world := w0 |}.

Lemma init_run (transport : World -> Request -> TransportResult)
    (username password : option string) :
  __init__ transport derives url lang rate_limit rate_limit_wait cat_prefix username password
    (new_object w0)
  = match (match password, username with
           | Some p, Some u => let* _ := login transport u p true in ret tt
           | _, _ => ret tt
           end) assigned with
    | (Ok _, s) =>
        match _get_site_info transport s with
        | (Ok _, s') => (Ok tt, s')
        | (Raise e, s') =>
            if caught_by_init derives e then (Raise (MediaWikiAPIURLError url), s')
            else (Raise e, s')
        | (Diverge, s') => (Diverge, s')
        end
    | (Raise e, s) => (Raise e, s)
    | (Diverge, s) => (Diverge, s)
    end.
Proof. reflexivity. Qed.

Lemma assigned_fields :
  _lang (self assigned) = lower lang
  ∧ _api_url (self assigned) = format_lang url (lower lang)
  ∧ _cat_prefix (self assigned)
    = (if String.eqb (last_char cat_prefix) ":" then drop_last cat_prefix else cat_prefix)
  ∧ _rate_limit (self assigned) = rate_limit
  ∧ _rate_limit_last_call (self assigned) = None
  ∧ _min_wait (self assigned) = rate_limit_wait
  ∧ _cache (self assigned) = Some ∅
  ∧ _use_cache (self assigned) = true
  ∧ _refresh_interval (self assigned) = None
  ∧ _is_logged_in (self assigned) = false.
Proof. now split_and!. Qed.

(** X13: the constructor.  Against a site that answers it returns
    with the language lower-cased, the URL template filled in, the
    category prefix without its trailing colon, an empty cache, caching
    on, no refresh interval, logged out, the version of the site
    stored; with rate limiting on, the site-information request has
    already recorded the time of the last call.  A host that does not
    answer JSON ends in [MediaWikiAPIURLError] with the URL template as
    given.  An exception of the transport that is not a
    [MediaWikiException], a connect timeout included, goes through
    unchanged (whereas [set_api_url] turns a connect timeout into
    [MediaWikiAPIURLError]).  A failed login raises
    [MediaWikiLoginError] itself, before the site information is
    requested. *)
Theorem constructor_outcomes :
  (∀ site vs, version_of (site_generator site) = Some vs -> site_server site ≠ "" ->
     ∃ s, __init__ (site_transport site) derives url lang rate_limit rate_limit_wait
            cat_prefix None None (new_object w0) = (Ok tt, s)
          ∧ _lang (self s) = lower lang
          ∧ _api_url (self s) = format_lang url (lower lang)
          ∧ _cat_prefix (self s)
            = (if String.eqb (last_char cat_prefix) ":" then drop_last cat_prefix
               else cat_prefix)
          ∧ _rate_limit (self s) = rate_limit
          ∧ _min_wait (self s) = rate_limit_wait
          ∧ _rate_limit_last_call (self s) = (if rate_limit then Some (clock w0) else None)
          ∧ _cache (self s) = Some ∅
          ∧ _use_cache (self s) = true
          ∧ _refresh_interval (self s) = None
          ∧ _is_logged_in (self s) = false
          ∧ _api_version (_site (self s)) = Some vs
          ∧ world s = record_request (request_of (self assigned) siteinfo_params) w0)
  ∧ (__init__ not_a_wiki derives url lang rate_limit rate_limit_wait cat_prefix None None
       (new_object w0)).1 = Raise (MediaWikiAPIURLError url)
  ∧ (∀ e, caught_by_init derives e = false ->
       (__init__ (constant_transport (Fails e)) derives url lang rate_limit rate_limit_wait
          cat_prefix None None (new_object w0)).1 = Raise e)
  ∧ (∀ site u p, (u, p) ∉ site_accounts site ->
       let run := __init__ (site_transport site) derives url lang rate_limit rate_limit_wait
                    cat_prefix (Some u) (Some p) (new_object w0) in
       run.1 = Raise (MediaWikiLoginError ("MediaWiki login failure: " +:+ wrong_login))
       ∧ sent (world run.2)
         = (sent w0 ++ [token_request (self assigned);
                        login_request (self assigned) u p (site_token site)])%list).
Proof.
  split_and!.
  - intros site vs Hv Hsrv.
    assert (Hw : waited (self assigned) (world assigned) = w0).
    { apply waited_spec. now right. }
    pose proof (site_info_answered site assigned vs Hv Hsrv) as Hsi.
    assert (E : ∀ s, _get_site_info (site_transport site) assigned = (Ok tt, s) ->
                __init__ (site_transport site) derives url lang rate_limit rate_limit_wait
                  cat_prefix None None (new_object w0) = (Ok tt, s)).
    { intros s Hs. rewrite init_run. unfold ret at 1. now rewrite Hs. }
    specialize (E _ Hsi). clear Hsi.
    rewrite Hw in E.
    pose proof assigned_fields as A.
    change (world assigned) with w0 in E.
    set (c := self assigned) in *. clearbody c.
    destruct A as (A1 & A2 & A3 & A4 & A5 & A6 & A7 & A8 & A9 & A10).
    destruct (stamped_fields c w0) as (F1 & F2 & F3 & F4 & F5 & F6 & F7 & F8 & F9 & F10).
    eexists. split; [exact E|].
    cbn [self world on_self].
    split_and!.
    + exact (eq_trans F1 A1).
    + exact (eq_trans F2 A2).
    + exact (eq_trans F3 A3).
    + exact (eq_trans F8 A4).
    + exact (eq_trans F9 A6).
    + refine (eq_trans F10 _). rewrite A4, A5. reflexivity.
    + exact (eq_trans F4 A7).
    + exact (eq_trans F6 A8).
    + exact (eq_trans F7 A9).
    + exact (eq_trans F5 A10).
    + reflexivity.
    + reflexivity.
  - rewrite init_run. unfold ret at 1.
    rewrite (site_info_not_a_wiki assigned). reflexivity.
  - intros e He. rewrite init_run. unfold ret at 1.
    unfold _get_site_info, bind.
    rewrite (wiki_request_answer (constant_transport (Fails e)) _ assigned (Fails e) eq_refl).
    now rewrite He.
  - intros site u p Hout run. unfold run. rewrite init_run. unfold bind.
    rewrite login_run. cbv zeta. rewrite (bool_decide_eq_false_2 _ Hout).
    cbn [fst snd]. split; [reflexivity|].
    cbn [world record_request sent]. rewrite <- app_assoc. reflexivity.
Qed.

End Construct.

Lemma constructor_outcomes_witness :
  ∃ s, __init__ (site_transport wikipedia) (fun _ => false)
         "https://{lang}.wikipedia.org/w/api.php" "EN" true 50 "Category:" None None
         (new_object world0) = (Ok tt, s)
       ∧ _api_url (self s) = "https://en.wikipedia.org/w/api.php"
       ∧ _cat_prefix (self s) = "Category"
       ∧ _cache (self s) = Some ∅
       ∧ _rate_limit_last_call (self s) = Some 0.
Proof.
  assert (Hv : version_of (site_generator wikipedia) = Some [1; 35; 0])
    by (vm_compute; reflexivity).
  assert (Hs : site_server wikipedia ≠ "") by discriminate.
  destruct (proj1 (constructor_outcomes (fun _ => false)
                     "https://{lang}.wikipedia.org/w/api.php" "EN" "Category:" true 50 world0)
              wikipedia [1; 35; 0] Hv Hs)
    as (s & E & _ & Hu & Hp & _ & _ & Hl & Hc & _).
  exists s. split_and!; [exact E | | | exact Hc | exact Hl].
  - rewrite Hu. vm_compute. reflexivity.
  - rewrite Hp. vm_compute. reflexivity.
Defined.

(** ** Sorting the extensions *)

Lemma leb_trans (a b c : string) :
  String.leb a b = true -> String.leb b c = true -> String.leb a c = true.
Proof.
  intros H1 H2. apply Is_true_true.
  apply (transitivity (R := String.le) (y := b)); apply Is_true_true; assumption.
Qed.

Lemma leb_false_flip (a b : string) : String.leb a b = false -> String.leb b a = true.
Proof. intros H. destruct (String.leb_total a b) as [E | E]; [congruence | exact E]. Qed.

Lemma leb_ne_ltb (a b : string) : String.leb a b = true -> a ≠ b -> String.ltb a b = true.
Proof.
  unfold String.leb, String.ltb. intros H Hne.
  destruct (String.compare a b) eqn:E; try reflexivity; try discriminate.
  apply String.compare_eq_iff in E. contradiction.
Qed.

Lemma insert_sorted_elem (x y : string) (l : list string) :
  y ∈ insert_sorted x l ↔ y = x ∨ y ∈ l.
Proof.
  induction l as [|z l IH]; simpl.
  - rewrite list_elem_of_singleton, elem_of_nil. tauto.
  - destruct (String.leb x z).
    + rewrite !elem_of_cons. tauto.
    + rewrite !elem_of_cons, IH. tauto.
Qed.

Lemma sorted_elem (y : string) (l : list string) : y ∈ sorted l ↔ y ∈ l.
Proof.
  induction l as [|x l IH]; simpl; [tauto|].
  rewrite insert_sorted_elem, elem_of_cons, IH. tauto.
Qed.

Lemma insert_sorted_sorted (x : string) (l : list string) :
  StronglySorted (fun a b => String.leb a b = true) l ->
  StronglySorted (fun a b => String.leb a b = true) (insert_sorted x l).
Proof.
  induction 1 as [|z l Hl IH Hz]; simpl.
  - repeat constructor.
  - destruct (String.leb x z) eqn:E.
    + constructor; [now constructor|]. constructor; [exact E|].
      eapply Forall_impl; [exact Hz|]. intros y Hy. now apply (leb_trans x z y).
    + constructor; [exact IH|]. apply Forall_forall. intros y Hy.
      rewrite insert_sorted_elem in Hy. destruct Hy as [-> | Hy].
      * now apply leb_false_flip.
      * rewrite Forall_forall in Hz. now apply Hz.
Qed.

Lemma sorted_sorted (l : list string) :
  StronglySorted (fun a b => String.leb a b = true) (sorted l).
Proof.
  induction l as [|x l IH]; simpl; [constructor | now apply insert_sorted_sorted].
Qed.

Lemma dedup_sorted_elem (l : list string) (y : string) :
  y ∈ dedup_sorted l ↔ y ∈ l.
Proof.
  induction l as [|x l IH]; [reflexivity|].
  destruct l as [|z l]; [reflexivity|].
  change (dedup_sorted (x :: z :: l))
    with (if String.eqb x z then dedup_sorted (z :: l) else x :: dedup_sorted (z :: l)).
  destruct (String.eqb_spec x z) as [-> | Hne].
  - rewrite IH, !elem_of_cons. tauto.
  - rewrite (elem_of_cons (dedup_sorted _)), IH, !elem_of_cons. tauto.
Qed.

Lemma dedup_sorted_strict (l : list string) :
  StronglySorted (fun a b => String.leb a b = true) l ->
  StronglySorted (fun a b => String.ltb a b = true) (dedup_sorted l).
Proof.
  induction 1 as [|x l Hl IH Hx]; [constructor|].
  destruct l as [|z l]; [repeat constructor|].
  change (dedup_sorted (x :: z :: l))
    with (if String.eqb x z then dedup_sorted (z :: l) else x :: dedup_sorted (z :: l)).
  destruct (String.eqb_spec x z) as [-> | Hne]; [exact IH|].
  constructor; [exact IH|]. apply Forall_forall. intros y Hy.
  rewrite dedup_sorted_elem in Hy. rewrite Forall_forall in Hx.
  apply leb_ne_ltb; [now apply Hx|]. intros ->.
  apply Hne. apply String.leb_antisym.
  - apply Hx. apply elem_of_cons. now left.
  - apply elem_of_cons in Hy. destruct Hy as [-> | Hy].
    + now destruct (String.leb_total z z).
    + apply StronglySorted_inv in Hl. destruct Hl as [_ Hz].
      rewrite Forall_forall in Hz. now apply Hz.
Qed.

Lemma ltb_irrefl (a : string) : String.ltb a a = false.
Proof.
  unfold String.ltb.
  assert (H : String.compare a a = Eq).
  { induction a as [|c a IH]; [reflexivity|]. simpl.
    unfold Ascii.compare. now rewrite N.compare_refl. }
  now rewrite H.
Qed.

(** X14: the list of extensions that [_get_site_info] stores,
    [sorted(list(set(names)))]: it holds exactly the names of the
    answer, in strictly increasing order (so each once), and sorting it
    again changes nothing. *)
Theorem extensions_sorted_without_duplicates (l : list string) :
  (∀ x, x ∈ sorted_set l ↔ x ∈ l)
  ∧ StronglySorted (fun a b => String.ltb a b = true) (sorted_set l)
  ∧ NoDup (sorted_set l)
  ∧ sorted_set (sorted_set l) = sorted_set l.
Proof.
  assert (Hs : StronglySorted (fun a b => String.ltb a b = true) (sorted_set l)).
  { apply dedup_sorted_strict, sorted_sorted. }
  assert (Hnd : ∀ k, StronglySorted (fun a b => String.ltb a b = true) k -> NoDup k).
  { induction 1 as [|x k Hk IH Hx]; constructor; [|exact IH].
    intros Hin. rewrite Forall_forall in Hx. specialize (Hx x Hin).
    now rewrite ltb_irrefl in Hx. }
  assert (Hfix : ∀ k, StronglySorted (fun a b => String.ltb a b = true) k ->
                      sorted k = k ∧ dedup_sorted k = k).
  { induction 1 as [|x k Hk [IH1 IH2] Hx]; [split; reflexivity|].
    rewrite Forall_forall in Hx. split.
    - cbn [sorted fold_right]. fold (sorted k). rewrite IH1.
      destruct k as [|z k]; [reflexivity|]. cbn [insert_sorted].
      assert (Hxz : String.ltb x z = true) by (apply Hx, elem_of_cons; now left).
      unfold String.ltb in Hxz. unfold String.leb.
      destruct (String.compare x z); try discriminate. reflexivity.
    - destruct k as [|z k]; [reflexivity|].
      change (dedup_sorted (x :: z :: k))
        with (if String.eqb x z then dedup_sorted (z :: k) else x :: dedup_sorted (z :: k)).
      assert (Hxz : String.ltb x z = true) by (apply Hx, elem_of_cons; now left).
      destruct (String.eqb_spec x z) as [-> | Hne].
      + now rewrite ltb_irrefl in Hxz.
      + now rewrite IH2. }
  split_and!.
  - intros x. unfold sorted_set. now rewrite dedup_sorted_elem, sorted_elem.
  - exact Hs.
  - now apply Hnd.
  - destruct (Hfix _ Hs) as [H1 H2]. unfold sorted_set at 1. now rewrite H1, H2.
Qed.

(** ** The category prefix *)

Lemma last_char_colon (p : string) : last_char (p +:+ ":") = ":".
Proof.
  induction p as [|c p IH]; [reflexivity|].
  change (String c p +:+ ":") with (String c (p +:+ ":")).
  destruct p as [|c' p]; [reflexivity|]. exact IH.
Qed.

Lemma drop_last_colon (p : string) : drop_last (p +:+ ":") = p.
Proof.
  induction p as [|c p IH]; [reflexivity|].
  change (String c p +:+ ":") with (String c (p +:+ ":")).
  destruct p as [|c' p]; [reflexivity|].
  change (drop_last (String c (String c' p +:+ ":")))
    with (String c (drop_last (String c' p +:+ ":"))).
  now rewrite IH.
Qed.

Lemma drop_chars_app (p s : string) (c : ascii) :
  drop_chars (String.length p + 1) (p +:+ String c s) = s.
Proof.
  induction p as [|x p IH]; [reflexivity|]. exact IH.
Qed.

(** X15: the category prefix.  The setter takes the prefix with or
    without its colon and stores it without; it removes one colon only;
    it leaves the cache and the URL alone.  The title that
    [categorymembers] asks for is the prefix, a colon and the name, and a
    subcategory listed under such a title is returned under the name
    alone.  A title that does not start with the prefix is returned
    whole; from one that does, the prefix and the one character after
    it are cut, whatever that character is. *)
Theorem category_prefix_round_trip (p : string) (c : Client) :
  (last_char p ≠ ":" ->
     set_category_prefix (p +:+ ":") c = set_category_prefix p c
     ∧ _cat_prefix (set_category_prefix p c) = p)
  ∧ _cat_prefix (set_category_prefix (p +:+ "::") c) = p +:+ ":"
  ∧ (∀ x, _cache (set_category_prefix x c) = _cache c
          ∧ _api_url (set_category_prefix x c) = _api_url c)
  ∧ (∀ name results subcategories,
       search_params (initial_paging p name results subcategories) !! "cmtitle"
         = Some (PyStr (p +:+ ":" +:+ name))
       ∧ fold_left (collect p) [member "subcat" (p +:+ ":" +:+ name)] ([], [])
         = ([], [name]))
  ∧ (∀ title, startswith title p = false ->
       fold_left (collect p) [member "subcat" title] ([], []) = ([], [title]))
  ∧ (∀ ch rest,
       fold_left (collect p) [member "subcat" (p +:+ String ch rest)] ([], [])
         = ([], [rest])).
Proof.
  assert (Hstrip : ∀ ch rest,
            fold_left (collect p) [member "subcat" (p +:+ String ch rest)] ([], [])
              = ([], [rest])).
  { intros ch rest. cbn [fold_left]. unfold collect, member. cbn [m_type m_title fst snd].
    change (String.eqb "subcat" "page" || String.eqb "subcat" "file")%bool with false.
    change (String.eqb "subcat" "subcat") with true. cbv iota.
    unfold startswith. rewrite prefix_app, drop_chars_app. reflexivity. }
  split_and!.
  - intros Hp. unfold set_category_prefix.
    rewrite last_char_colon, drop_last_colon. change (String.eqb ":" ":") with true.
    rewrite (eqb_false_of_ne _ _ Hp). now split.
  - unfold set_category_prefix.
    change (p +:+ "::") with (p +:+ String ":" ":").
    replace (p +:+ String ":" ":") with ((p +:+ ":") +:+ ":")
      by (rewrite append_assoc; reflexivity).
    rewrite last_char_colon, drop_last_colon. reflexivity.
  - intros x. unfold set_category_prefix. now split.
  - intros name results subcategories. split.
    + unfold initial_paging. cbn [search_params].
      rewrite !lookup_insert_ne by discriminate. apply lookup_insert_eq.
    + apply (Hstrip ":"%char name).
  - intros title Ht. cbn [fold_left]. unfold collect, member. cbn [m_type m_title fst snd].
    change (String.eqb "subcat" "page" || String.eqb "subcat" "file")%bool with false.
    change (String.eqb "subcat" "subcat") with true. cbv iota.
    now rewrite Ht.
  - exact Hstrip.
Qed.

Lemma category_prefix_round_trip_witness :
  set_category_prefix "Kategorie:" client_en = set_category_prefix "Kategorie" client_en
  ∧ _cat_prefix (set_category_prefix "Kategorie" client_en) = "Kategorie".
Proof.
  apply (category_prefix_round_trip "Kategorie" client_en). vm_compute. discriminate.
Defined.

(** ** The language *)

Lemma replace_from_absent (old new s : string) :
  (∀ a b, s ≠ a +:+ old +:+ b) -> replace_from old new s 0 = s.
Proof.
  induction s as [|c s IH]; intros Hno; [reflexivity|].
  cbn [replace_from].
  destruct (String.prefix old (String c s)) eqn:Hp.
  - destruct (prefix_split _ _ Hp) as [r Hr]. now contradiction (Hno "" r).
  - f_equal. apply IH. intros a b E. apply (Hno (String c a) b). now rewrite E.
Qed.

(** X16: the language setter compares and stores the lower-cased
    language, so two spellings of one language are the same
    assignment, and assigning a language twice is assigning it once.
    When the URL does not contain the old language between a slash and
    a dot, a change of language leaves the URL as it is, while the
    language changes and the cache is emptied. *)
Theorem language_setter_properties (c : Client) :
  (∀ l1 l2, lower l1 = lower l2 -> set_language l1 c = set_language l2 c)
  ∧ (∀ l, set_language l (set_language l c) = set_language l c)
  ∧ (∀ l, lower l ≠ _lang c ->
       (∀ a b, _api_url c ≠ a +:+ ("/" +:+ _lang c +:+ ".") +:+ b) ->
       _api_url (set_language l c) = _api_url c
       ∧ _lang (set_language l c) = lower l
       ∧ _cache (set_language l c) = (fun _ => ∅) <$> _cache c).
Proof.
  split_and!.
  - intros l1 l2 H. unfold set_language. now rewrite H.
  - intros l.
    assert (H : _lang (set_language l c) = lower l).
    { unfold set_language. destruct (String.eqb_spec (_lang c) (lower l)) as [E | E];
        [exact E|]. unfold clear_memoized. cbn. now destruct (_cache c). }
    unfold set_language at 1. cbv zeta. rewrite H. now rewrite String.eqb_refl.
  - intros l Hl Hno. unfold set_language.
    rewrite (eqb_false_of_ne (_lang c) (lower l)) by congruence.
    rewrite clear_memoized_cache. unfold clear_memoized. cbn [_cache with_lang with_api_url].
    assert (Hr : replace (_api_url c) ("/" +:+ _lang c +:+ ".") ("/" +:+ lower l +:+ ".")
                 = _api_url c).
    { unfold replace. change ("/" +:+ _lang c +:+ ".") with (String "/" (_lang c +:+ ".")).
      apply replace_from_absent. exact Hno. }
    destruct (_cache c); cbn [_api_url _lang with_cache with_lang with_api_url];
      rewrite Hr; now split_and!.
Qed.

Lemma language_setter_properties_witness :
  set_language "FR" client_en = set_language "fr" client_en
  ∧ _api_url (set_language "fr" (with_api_url "https://wiki.example.org/w/api.php" client_en))
    = "https://wiki.example.org/w/api.php".
Proof.
  split.
  - now apply (proj1 (language_setter_properties client_en)).
  - apply (proj2 (proj2 (language_setter_properties
                           (with_api_url "https://wiki.example.org/w/api.php" client_en)))).
    + discriminate.
    + intros a b E.
      assert (H : find_from "/en." "https://wiki.example.org/w/api.php" 0 = -1)
        by reflexivity.
      change (_api_url (with_api_url "https://wiki.example.org/w/api.php" client_en))
        with "https://wiki.example.org/w/api.php" in E.
      change ("/" +:+ _lang (with_api_url "https://wiki.example.org/w/api.php" client_en)
              +:+ ".") with "/en." in E.
      rewrite E in H. pose proof (find_from_found "/en." a b 0). lia.
Defined.

(** ** A category whose page is missing, and failures that pass *)

Section Fetching.

Variable Page : Type.
Variable page : string -> M St Page.
Variable page_categories : Page -> M St (list string).
Variable categorymembers_all : string -> M St (list string * list string).

#[local] Abbreviation tree_run :=
  (categorytree_run Page page page_categories categorymembers_all).

(** X17: a category whose page does not exist.  When the page
    operation raises a page-not-found error for the prefixed name of
    the root, [categorytree] raises a page-not-found error that carries
    the prefixed name (whatever title the original error carried), in
    the state that the failed fetch left: one fetch, no sleep, no
    retry. *)
Theorem categorytree_missing_page (fuel : nat) (cat title : string) (depth : option Z)
    (s s1 : St) :
  cat ≠ "" -> (depth = None ∨ ∃ d, depth = Some d ∧ 1 <= d) ->
  page (_cat_prefix (self s) +:+ ":" +:+ cat) s = (Raise (PageError title), s1) ->
  categorytree Page page page_categories categorymembers_all (S fuel) (One (Some cat)) depth s
    = (Raise (PageError (_cat_prefix (self s1) +:+ ":" +:+ cat)), s1)
  ∧ fetches Page (tree_run (S fuel) (One (Some cat)) depth (new_run Page s)).2 = [cat].
Proof.
  intros Hcat Hd Hp.
  assert (E : tree_run (S fuel) (One (Some cat)) depth (new_run Page s)
              = (Raise (PageError (_cat_prefix (self s1) +:+ ":" +:+ cat)),
                 {| st := s1; categories := ∅; run_links := ∅; fetches := [cat] |})).
  { unfold categorytree_run, bind at 1.
    rewrite (verification_accepts cat depth _ _ Hcat Hd).
    rewrite (non_empty_single cat Hcat). cbn [foldM __cat_tree_rec].
    unfold bind at 1. unfold bind at 1. unfold gets at 1. cbn [new_run categories].
    rewrite lookup_empty. unfold bind at 1.
    cbn [fetch_loop]. change (10 <? 0) with false. cbv iota.
    unfold attempt, bind at 1, note_fetch, modify. unfold bind at 1. unfold prefixed, gets.
    unfold bind at 1. unfold lift at 1. cbn [st categories run_links fetches].
    unfold new_run. cbn [st categories run_links fetches].
    rewrite Hp. cbn [is_PageError]. reflexivity. }
  split.
  - unfold categorytree. fold tree_run. now rewrite E.
  - now rewrite E.
Qed.

End Fetching.

Lemma categorytree_missing_page_witness :
  categorytree string (failing_page (PageError "Fruit")) (wiki_page_categories chain_wiki)
    (wiki_members chain_wiki) 1 (One (Some "Fruit")) (Some 5) state0
  = (Raise (PageError "Category:Fruit"), state0).
Proof.
  apply (categorytree_missing_page string (failing_page (PageError "Fruit"))
           (wiki_page_categories chain_wiki) (wiki_members chain_wiki) 0 "Fruit" "Fruit"
           (Some 5) state0 state0).
  - discriminate.
  - right. exists 5. split; [reflexivity | lia].
  - reflexivity.
Defined.

Section Flaky.

Variable w : Wiki.
Variable n : nat.
Variable e : exn.
Variable cat : string.
Hypothesis Hpage : is_PageError e = false.
Hypothesis Hint : e ≠ KeyboardInterrupt.

#[local] Abbreviation flaky_loop :=
  (fetch_loop string (flaky_page n e) (wiki_page_categories w) (wiki_members w)).
#[local] Abbreviation flaky_attempt :=
  (attempt string (flaky_page n e) (wiki_page_categories w) (wiki_members w)).

Lemma flaky_attempt_fails (r : Run string) :
  (length (slept (world (st string r))) < n)%nat ->
  flaky_attempt cat r
    = (Raise e, {| st := st string r; categories := categories string r;
                   run_links := run_links string r;
                   fetches := (fetches string r ++ [cat])%list |}).
Proof.
  intros H. unfold attempt, bind at 1, note_fetch, modify. unfold bind at 1.
  unfold prefixed, gets. unfold bind at 1. unfold lift at 1.
  cbn [st categories run_links fetches]. unfold flaky_page.
  now rewrite (proj2 (Nat.ltb_lt _ _) H).
Qed.

Lemma flaky_attempt_succeeds (r : Run string) :
  (n <= length (slept (world (st string r))))%nat ->
  flaky_attempt cat r
    = (Ok (parents_of w (_cat_prefix (self (st string r)) +:+ ":" +:+ cat)),
       fetched w cat r).
Proof.
  intros H. unfold attempt, bind at 1, note_fetch, modify. unfold bind at 1.
  unfold prefixed, gets. unfold bind at 1. unfold lift at 1.
  cbn [st categories run_links fetches]. unfold flaky_page.
  now rewrite (proj2 (Nat.ltb_ge _ _) H).
Qed.

Lemma flaky_loop_recovers (m : nat) :
  ∀ (fuel : nat) (tries : Z) (r : Run string),
    (length (slept (world (st string r))) + m = n)%nat ->
    tries + Z.of_nat m <= 10 -> (m < fuel)%nat ->
    ∃ r', flaky_loop fuel cat tries r
            = (Ok (parents_of w (_cat_prefix (self (st string r)) +:+ ":" +:+ cat)), r')
          ∧ slept (world (st string r')) = (slept (world (st string r)) ++ repeat 1 m)%list
          ∧ fetches string r' = (fetches string r ++ repeat cat (S m))%list
          ∧ run_links string r' !! cat = Some (pages_of w cat, subcats_of w cat)
          ∧ self (st string r') = self (st string r).
Proof.
  induction m as [|m IH]; intros fuel tries r Hlen Htries Hfuel.
  - destruct fuel as [|fuel]; [lia|]. exists (fetched w cat r).
    cbn [fetch_loop].
    replace (10 <? tries) with false by (symmetry; apply Z.ltb_ge; lia).
    rewrite flaky_attempt_succeeds by lia.
    split_and!; try reflexivity.
    + cbn [repeat]. now rewrite app_nil_r.
    + cbn [fetched run_links]. apply lookup_insert_eq.
  - destruct fuel as [|fuel]; [lia|].
    rewrite (loop_retry string (flaky_page n e) (wiki_page_categories w) (wiki_members w)
               fuel cat tries r _ e ltac:(lia) (flaky_attempt_fails r ltac:(lia)) Hpage Hint).
    destruct (IH fuel (tries + 1)
                (slept_one {| st := st string r; categories := categories string r;
                              run_links := run_links string r;
                              fetches := (fetches string r ++ [cat])%list |}))
      as (r' & E & Hs & Hf & Hl & Hself).
    + cbn [slept_one st on_world world slept]. rewrite length_app. simpl. lia.
    + lia.
    + lia.
    + exists r'. cbn [slept_one st on_world world slept self fetches] in *.
      split_and!.
      * exact E.
      * rewrite Hs. rewrite <- app_assoc. reflexivity.
      * rewrite Hf. rewrite <- app_assoc. reflexivity.
      * exact Hl.
      * exact Hself.
Qed.

(** X18: failures that pass.  When the page fetch of a category fails
    [n] times, with [n] at most ten and an exception that is neither a
    page-not-found error nor a keyboard interrupt, and then succeeds,
    the loop returns what a fetch without failures returns, after
    [n + 1] fetches and [n] sleeps of one time unit. *)
Theorem category_fetch_recovers (r : Run string) :
  (n <= 10)%nat -> slept (world (st string r)) = [] ->
  ∃ r', flaky_loop 12 cat 0 r
          = (Ok (parents_of w (_cat_prefix (self (st string r)) +:+ ":" +:+ cat)), r')
        ∧ slept (world (st string r')) = repeat 1 n
        ∧ fetches string r' = (fetches string r ++ repeat cat (S n))%list
        ∧ run_links string r' !! cat = Some (pages_of w cat, subcats_of w cat).
Proof.
  intros Hn Hs.
  destruct (flaky_loop_recovers n 12 0 r) as (r' & E & Hs' & Hf & Hl & _).
  - now rewrite Hs.
  - lia.
  - lia.
  - exists r'. rewrite Hs in Hs'. now split_and!.
Qed.

End Flaky.

Lemma category_fetch_recovers_witness :
  ∃ r', fetch_loop string (flaky_page 10 ReadTimeout) (wiki_page_categories chain_wiki)
          (wiki_members chain_wiki) 12 "A" 0 (new_run string state0) = (Ok [], r')
        ∧ slept (world (st string r')) = repeat 1 10%nat
        ∧ fetches string r' = repeat "A" 11.
Proof.
  destruct (category_fetch_recovers chain_wiki 10 ReadTimeout "A" eq_refl
              ltac:(discriminate) (new_run string state0) ltac:(lia) eq_refl)
    as (r' & E & Hs & Hf & _).
  exists r'. split_and!; [exact E | exact Hs | exact Hf].
Defined.

(** ** The whole tree *)

Section WholeTree.

Variable w : Wiki.
Variable s : St.

#[local] Abbreviation prefix := (_cat_prefix (self s)).
#[local] Abbreviation rec :=
  (__cat_tree_rec string wiki_page (wiki_page_categories w) (wiki_members w)).
#[local] Abbreviation consistent := (consistent_run w s).

(** In a run over a wiki whose fetches succeed nothing is raised. *)
Lemma rec_static (fuel : nat) :
  ∀ (cat : string) (depth : option Z) (tree : Tree) (level : Z) (r : Run string),
    consistent r ->
    ∃ r', consistent r'
          ∧ ((∃ t, rec fuel cat depth tree level r = (Ok t, r'))
             ∨ rec fuel cat depth tree level r = (Diverge, r')).
Proof.
  induction fuel as [|fuel IH]; intros cat depth tree level r Hr.
  - exists r. split; [exact Hr | now right].
  - destruct (resolve w s cat r Hr) as (r1 & Hr1 & _ & Hrec). rewrite Hrec.
    destruct (at_depth_limit depth level).
    + exists r1. split; [exact Hr1|]. left. eexists. reflexivity.
    + assert (Hfold : ∀ (l : list string) (t : Tree) (r2 : Run string),
                consistent r2 ->
                ∃ r', consistent r'
                      ∧ ((∃ t', foldM (fun t ctg => rec fuel ctg depth t (level + 1)) l t r2
                                  = (Ok t', r'))
                         ∨ foldM (fun t ctg => rec fuel ctg depth t (level + 1)) l t r2
                           = (Diverge, r'))).
      { induction l as [|ctg l IHl]; intros t r2 Hr2.
        - exists r2. split; [exact Hr2|]. left. eexists. reflexivity.
        - destruct (IH ctg depth t (level + 1) r2 Hr2) as (r3 & Hr3 & [[t3 E3] | E3]).
          + destruct (IHl t3 r3 Hr3) as (r4 & Hr4 & H4). exists r4. split; [exact Hr4|].
            cbn [foldM]. unfold bind. rewrite E3. exact H4.
          + exists r3. split; [exact Hr3|]. right. cbn [foldM]. unfold bind. now rewrite E3. }
      destruct (Hfold (subcats_of w cat) ∅ r1 Hr1) as (r2 & Hr2 & [[t2 E2] | E2]);
        exists r2; (split; [exact Hr2|]); unfold bind; rewrite E2.
      * left. eexists. reflexivity.
      * now right.
Qed.

(** *** A wiki with a cycle *)

Variable on_cycle : string -> Prop.
Hypothesis Hcycle : ∀ c, on_cycle c -> ∃ sub, sub ∈ subcats_of w c ∧ on_cycle sub.

Lemma rec_diverges (fuel : nat) :
  ∀ (cat : string) (tree : Tree) (level : Z) (r : Run string),
    consistent r -> on_cycle cat ->
    ∃ r', rec fuel cat None tree level r = (Diverge, r').
Proof.
  induction fuel as [|fuel IH]; intros cat tree level r Hr Hc.
  - exists r. reflexivity.
  - destruct (resolve w s cat r Hr) as (r1 & Hr1 & _ & Hrec). rewrite Hrec.
    cbn [at_depth_limit].
    destruct (Hcycle cat Hc) as (sub & Hsub & Hsc).
    assert (Hfold : ∀ (l : list string) (t : Tree) (r2 : Run string),
              consistent r2 -> sub ∈ l ->
              ∃ r', foldM (fun t ctg => rec fuel ctg None t (level + 1)) l t r2
                    = (Diverge, r')).
    { induction l as [|ctg l IHl]; intros t r2 Hr2 Hin.
      - now apply elem_of_nil in Hin.
      - cbn [foldM]. unfold bind.
        destruct (decide (ctg = sub)) as [-> | Hne].
        + destruct (IH sub t (level + 1) r2 Hr2 Hsc) as (r3 & ->). now exists r3.
        + destruct (rec_static fuel ctg None t (level + 1) r2 Hr2)
            as (r3 & Hr3 & [[t3 ->] | ->]); [|now exists r3].
          apply IHl; [exact Hr3|]. apply elem_of_cons in Hin.
          destruct Hin as [-> | Hin]; [contradiction | exact Hin]. }
    destruct (Hfold (subcats_of w cat) ∅ r1 Hr1 Hsub) as (r2 & E).
    exists r2. unfold bind. now rewrite E.
Qed.

End WholeTree.

(** X19: the whole tree ([depth = None]) of a hierarchy with a cycle.
    The dictionaries that remember the fetched categories save the
    fetches, not the recursion: from a category that lies on a cycle
    (each category of the set has a subcategory in the set) the
    recursion never comes back, whatever the fuel.  With a depth limit
    the same call returns the tree of that depth. *)
Theorem full_tree_never_ends_on_a_cycle (w : Wiki) (on_cycle : string -> Prop) (s : St)
    (root : string) :
  (∀ c, on_cycle c -> ∃ sub, sub ∈ subcats_of w c ∧ on_cycle sub) ->
  root ≠ "" -> on_cycle root ->
  (∀ fuel, (wiki_tree_run w fuel (One (Some root)) None (new_run string s)).1 = Diverge)
  ∧ (∀ d, 1 <= d ->
       (wiki_tree_run w (S (Z.to_nat d)) (One (Some root)) (Some d) (new_run string s)).1
         = Ok {[root := Some (expanded w (_cat_prefix (self s)) (Z.to_nat d) 0 root)]}).
Proof.
  intros Hcycle Hroot Hon. split.
  - intros fuel. unfold wiki_tree_run, categorytree_run, bind.
    rewrite (verification_accepts root None _ _ Hroot (or_introl eq_refl)).
    rewrite (non_empty_single root Hroot). cbn [foldM]. unfold bind.
    destruct (rec_diverges w s on_cycle Hcycle fuel root ∅ 0 (new_run string s)
                (consistent_new w s) Hon) as (r' & ->).
    reflexivity.
  - intros d Hd. unfold wiki_tree_run, categorytree_run, bind.
    rewrite (verification_accepts root (Some d) _ _ Hroot
               (or_intror (ex_intro _ d (conj eq_refl Hd)))).
    rewrite (non_empty_single root Hroot). cbn [foldM]. unfold bind.
    destruct (rec_expands w s d Hd (Z.to_nat d) (S (Z.to_nat d)) root ∅ 0
                (new_run string s) (consistent_new w s)) as (r' & -> & _); [lia | lia |].
    unfold ret. cbn [fst]. now rewrite insert_empty.
Qed.

Lemma full_tree_never_ends_on_a_cycle_witness :
  (wiki_tree_run loop_wiki 1000 (One (Some "A")) None (new_run string state0)).1 = Diverge.
Proof.
  refine (proj1 (full_tree_never_ends_on_a_cycle loop_wiki (fun c => c = "A" ∨ c = "B")
                   state0 "A" _ _ _) 1000%nat).
  - intros c [-> | ->].
    + exists "B". split; [apply elem_of_cons; now left | now right].
    + exists "A". split; [apply elem_of_cons; now left | now left].
  - discriminate.
  - now left.
Defined.

Section Ranked.

Variable w : Wiki.
Variable s : St.
Variable rank : string -> nat.
Hypothesis Hrank : ∀ c sub, sub ∈ subcats_of w c -> (rank sub < rank c)%nat.

#[local] Abbreviation prefix := (_cat_prefix (self s)).
#[local] Abbreviation rec :=
  (__cat_tree_rec string wiki_page (wiki_page_categories w) (wiki_members w)).
#[local] Abbreviation consistent := (consistent_run w s).

Lemma rec_full (n : nat) :
  ∀ (fuel : nat) (cat : string) (tree : Tree) (level : Z) (r : Run string),
    consistent r -> (n < fuel)%nat -> (rank cat <= n)%nat ->
    ∃ r', rec fuel cat None tree level r
            = (Ok (<[cat := Some (full w prefix n level cat)]> tree), r')
          ∧ consistent r'.
Proof.
  induction n as [|n IH]; intros fuel cat tree level r Hr Hfuel Hcat.
  - destruct fuel as [|fuel]; [lia|].
    destruct (resolve w s cat r Hr) as (r1 & Hr1 & _ & Hrec).
    exists r1. split; [|exact Hr1]. rewrite Hrec. cbn [at_depth_limit].
    destruct (subcats_of w cat) as [|sub l] eqn:E; [reflexivity|].
    assert (Hsub : sub ∈ subcats_of w cat) by (rewrite E; apply elem_of_cons; now left).
    specialize (Hrank cat sub Hsub). lia.
  - destruct fuel as [|fuel]; [lia|].
    destruct (resolve w s cat r Hr) as (r1 & Hr1 & _ & Hrec).
    assert (Hfold : ∀ (l : list string) (t : Tree) (r2 : Run string),
              consistent r2 -> (∀ sub, sub ∈ l -> (rank sub <= n)%nat) ->
              ∃ r', foldM (fun t ctg => rec fuel ctg None t (level + 1)) l t r2
                      = (Ok (fold_left
                               (fun t ctg => <[ctg := Some (full w prefix n (level + 1) ctg)]> t)
                               l t), r')
                    ∧ consistent r').
    { induction l as [|ctg l IHl]; intros t r2 Hr2 Hl.
      - exists r2. split; [reflexivity | exact Hr2].
      - destruct (IH fuel ctg t (level + 1) r2 Hr2) as (r3 & E3 & Hr3); [lia | |].
        { apply Hl. apply elem_of_cons. now left. }
        destruct (IHl (<[ctg := Some (full w prefix n (level + 1) ctg)]> t) r3 Hr3)
          as (r4 & E4 & Hr4).
        { intros sub Hsub. apply Hl. apply elem_of_cons. now right. }
        exists r4. split; [|exact Hr4].
        cbn [foldM fold_left]. unfold bind. rewrite E3. exact E4. }
    destruct (Hfold (subcats_of w cat) ∅ r1 Hr1) as (r2 & E2 & Hr2).
    { intros sub Hsub. specialize (Hrank cat sub Hsub). lia. }
    exists r2. split; [|exact Hr2]. rewrite Hrec. cbn [at_depth_limit].
    unfold bind. rewrite E2. reflexivity.
Qed.

(** X20: the whole tree ([depth = None]) of a finite hierarchy.  When
    every subcategory ranks below its category, the recursion ends
    (more fuel than the rank of the root is enough), no category is
    fetched twice, and the tree is expanded all the way down: every
    subcategory is mapped to its own node one level further, none to the
    null placeholder. *)
Theorem full_tree_of_a_finite_hierarchy (fuel : nat) (root : string) :
  root ≠ "" -> (rank root < fuel)%nat ->
  (∃ r', wiki_tree_run w fuel (One (Some root)) None (new_run string s)
           = (Ok {[root := Some (full w prefix (rank root) 0 root)]}, r')
         ∧ NoDup (fetches string r'))
  ∧ (∀ n level cat sub, sub ∈ subcats_of w cat -> (rank cat <= S n)%nat ->
       sub_categories (full w prefix (S n) level cat) !! sub
         = Some (Some (full w prefix n (level + 1) sub)))
  ∧ (∀ n level cat sub,
       sub_categories (full w prefix n level cat) !! sub ≠ Some None).
Proof.
  intros Hroot Hfuel. split_and!.
  - destruct (rec_full (rank root) fuel root ∅ 0 (new_run string s) (consistent_new w s)
                Hfuel (le_n _)) as (r' & E & (_ & Hnd & _)).
    exists r'. split; [| exact Hnd].
    unfold wiki_tree_run, categorytree_run, bind.
    rewrite (verification_accepts root None _ _ Hroot (or_introl eq_refl)).
    rewrite (non_empty_single root Hroot). cbn [foldM]. unfold bind. rewrite E.
    unfold ret. now rewrite insert_empty.
  - intros n level cat sub Hsub _. cbn [full node_of sub_categories].
    rewrite (fold_insert_lookup (fun c => Some (full w prefix n (level + 1) c))).
    now rewrite decide_True.
  - intros n level cat sub. destruct n as [|n]; cbn [full node_of sub_categories].
    + now rewrite lookup_empty.
    + rewrite (fold_insert_lookup (fun c => Some (full w prefix n (level + 1) c))).
      destruct (decide (sub ∈ subcats_of w cat)); [discriminate|]. now rewrite lookup_empty.
Qed.

End Ranked.

Lemma full_tree_of_a_finite_hierarchy_witness :
  ∃ r', wiki_tree_run chain_wiki 3 (One (Some "A")) None (new_run string state0)
          = (Ok {["A" := Some (full chain_wiki "Category" 2 0 "A")]}, r')
        ∧ NoDup (fetches string r').
Proof.
  pose (rank := fun c : string =>
          if String.eqb c "A" then 2%nat else if String.eqb c "B" then 1%nat else 0%nat).
  assert (Hrank : ∀ c sub, sub ∈ subcats_of chain_wiki c -> (rank sub < rank c)%nat).
  { intros c sub. unfold chain_wiki, rank. cbn [subcats_of].
    destruct (String.eqb_spec c "A") as [-> | Ha].
    - intros H. apply list_elem_of_singleton in H. subst sub. clear rank. simpl. lia.
    - destruct (String.eqb_spec c "B") as [-> | Hb].
      + intros H. apply list_elem_of_singleton in H. subst sub. clear rank. simpl. lia.
      + intros H. now apply elem_of_nil in H. }
  assert (Hroot : "A" ≠ "") by discriminate.
  assert (Hfuel : (rank "A" < 3)%nat) by (subst rank; simpl; lia).
  exact (proj1 (full_tree_of_a_finite_hierarchy chain_wiki state0 rank Hrank 3 "A"
                  Hroot Hfuel)).
Defined.

(** ** Several roots *)

Lemma verification_accepts_list {S} (l : list (option string)) (d : Z) (shown : string)
    (s : S) :
  1 <= d -> (∀ c0, l = [c0] -> is_none_or_empty c0 = false) ->
  __category_parameter_verification l (Some d) shown s = (Ok tt, s).
Proof.
  intros Hd Hl. unfold __category_parameter_verification.
  replace (d <? 1) with false by (symmetry; apply Z.ltb_ge; lia).
  destruct l as [|c0 [|c1 l]]; try reflexivity.
  now rewrite (Hl c0 eq_refl).
Qed.

(** X21: [categorytree] on a list of categories.  Unless the list is a
    single name that is [None] or empty, the names that are [None] or
    empty are skipped without an error, the result has exactly one entry
    for every other name, the tree of that root to the given depth, and
    the roots share the fetched categories: all the categories within
    [depth] steps of some root are fetched, each once. *)
Theorem categorytree_of_a_list (w : Wiki) (s : St) (fuel : nat) (l : list (option string))
    (d : Z) :
  1 <= d -> (Z.to_nat d < fuel)%nat ->
  (∀ c0, l = [c0] -> is_none_or_empty c0 = false) ->
  let prefix := _cat_prefix (self s) in
  let node c := Some (expanded w prefix (Z.to_nat d) 0 c) in
  ∃ tree r',
    wiki_tree_run w fuel (Many l) (Some d) (new_run string s) = (Ok tree, r')
    ∧ tree = fold_left (fun t c => <[c := node c]> t) (non_empty l) ∅
    ∧ (∀ c, tree !! c = if decide (c ∈ non_empty l) then Some (node c) else None)
    ∧ st string r' = s
    ∧ NoDup (fetches string r')
    ∧ ∀ c, c ∈ fetches string r'
           ↔ ∃ root, root ∈ non_empty l ∧ c ∈ within w (Z.to_nat d) root.
Proof.
  intros Hd Hfuel Hl prefix node.
  assert (Hfold : ∀ (roots : list string) (t : Tree) (r : Run string),
            consistent_run w s r ->
            ∃ r', foldM (fun results cat =>
                           __cat_tree_rec string wiki_page (wiki_page_categories w)
                             (wiki_members w) fuel cat (Some d) results 0) roots t r
                    = (Ok (fold_left (fun t c => <[c := node c]> t) roots t), r')
                  ∧ consistent_run w s r'
                  ∧ ∀ c, c ∈ fetches string r'
                         ↔ c ∈ fetches string r
                           ∨ ∃ root, root ∈ roots ∧ c ∈ within w (Z.to_nat d) root).
  { induction roots as [|root roots IH]; intros t r Hr.
    - exists r. split_and!; [reflexivity | exact Hr |].
      intros c. split; [tauto|]. intros [H | (x & H & _)]; [exact H|].
      now apply elem_of_nil in H.
    - destruct (rec_expands w s d Hd (Z.to_nat d) fuel root t 0 r Hr Hfuel)
        as (r1 & E1 & Hr1 & Hf1); [lia|].
      destruct (IH (<[root := node root]> t) r1 Hr1) as (r2 & E2 & Hr2 & Hf2).
      exists r2. split_and!; [| exact Hr2 |].
      + cbn [foldM fold_left]. unfold bind. rewrite E1. exact E2.
      + intros c. rewrite Hf2, Hf1. split.
        * intros [[H | H] | (x & Hx & H)]; [tauto | |].
          -- right. exists root. split; [apply elem_of_cons; tauto | exact H].
          -- right. exists x. split; [apply elem_of_cons; tauto | exact H].
        * intros [H | (x & Hx & H)]; [tauto|].
          apply elem_of_cons in Hx. destruct Hx as [-> | Hx]; [tauto|].
          right. exists x. tauto. }
  destruct (Hfold (non_empty l) ∅ (new_run string s) (consistent_new w s))
    as (r' & E & (Hs & Hnd & _) & Hf).
  eexists _, r'. split_and!.
  - unfold wiki_tree_run, categorytree_run, bind.
    rewrite (verification_accepts_list l d _ _ Hd Hl). exact E.
  - reflexivity.
  - intros c. rewrite (fold_insert_lookup node). now rewrite lookup_empty.
  - exact Hs.
  - exact Hnd.
  - intros c. rewrite Hf. cbn [new_run fetches]. rewrite elem_of_nil. tauto.
Qed.

Lemma categorytree_of_a_list_witness :
  ∃ tree r',
    wiki_tree_run chain_wiki 3 (Many [Some "B"; Some ""; None; Some "C"]) (Some 2)
      (new_run string state0) = (Ok tree, r')
    ∧ tree = <["C" := Some (expanded chain_wiki "Category" 2 0 "C")]>
               (<["B" := Some (expanded chain_wiki "Category" 2 0 "B")]> ∅)
    ∧ NoDup (fetches string r').
Proof.
  destruct (categorytree_of_a_list chain_wiki state0 3 [Some "B"; Some ""; None; Some "C"] 2)
    as (tree & r' & E & Ht & _ & _ & Hnd & _).
  - lia.
  - simpl. lia.
  - intros c0 H. discriminate.
  - exists tree, r'. split_and!; [exact E | exact Ht | exact Hnd].
Defined.

(** ** Listings of any length *)

Lemma wiki_request_listing_sent (src : list Member) (params : Params) (s : St) :
  ∃ s', wiki_request (listing_transport src) params s
          = (Ok (Dict (listing_answer src params)), s')
        ∧ _cat_prefix (self s') = _cat_prefix (self s)
        ∧ length (sent (world s')) = S (length (sent (world s))).
Proof.
  rewrite wiki_request_run. cbv zeta. unfold listing_transport.
  eexists. split_and!.
  - unfold request_of, sent_params. cbn [req_params].
    now rewrite listing_answer_inject.
  - cbn [self]. apply stamped_fields.
  - cbn [world record_request sent]. rewrite length_app.
    destruct (waited_spec (self s) (world s)) as (-> & _). simpl. lia.
Qed.

Section AnyLength.

Variable src : list Member.
Variable types : string.
Variable prefix : string.
Variable category : string.
Variable results : option Z.

#[local] Abbreviation visible := (List.filter (requested types) src).
#[local] Abbreviation progress := (listing_progress src types prefix results).
#[local] Abbreviation limit_at off :=
  (match results with
   | Some n => Z.min (n - Z.of_nat off) 500
   | None => 500
   end).

Lemma progress_params (off : nat) (p : Paging) :
  progress off p ->
  next_params p !! "cmcontinue" = (if off is O then None else Some (PyInt (Z.of_nat off)))
  ∧ next_params p !! "cmlimit" = Some (PyInt (limit_at off))
  ∧ next_params p !! "cmtype" = Some (PyStr types).
Proof.
  intros (_ & _ & _ & _ & Hl & Hlim & Hty & Hc & _). unfold next_params. rewrite Hl.
  destruct off as [|off].
  - rewrite !lookup_union_r by apply lookup_empty. now split_and!.
  - destruct (offset_token_lookup (S off)) as (T1 & T2 & T3).
    rewrite (lookup_union_Some_l _ _ _ _ T1), !lookup_union_r by assumption.
    now split_and!.
Qed.

Lemma paging_body_progress (off : nat) (p : Paging) (s : St) :
  progress off p ->
  (∀ n, results = Some n -> 1 <= n) ->
  _cat_prefix (self s) = prefix ->
  let off' := Nat.min (off + Z.to_nat (limit_at off)) (length visible) in
  ∃ s' ctl p',
    paging_body (listing_transport src) category results p s = (Ok (ctl, p'), s')
    ∧ _cat_prefix (self s') = prefix
    ∧ length (sent (world s')) = S (length (sent (world s)))
    ∧ pages p' = page_titles (take off' visible)
    ∧ subcats p' = subcat_names prefix (take off' visible)
    ∧ match ctl with
      | Break => off' = wanted results (length visible)
      | EndOfBody =>
          (off' = wanted results (length visible) ∧ finished p' = true)
          ∨ (progress off' p' ∧ off' = (off + 500)%nat
             ∧ (off' < wanted results (length visible))%nat)
      end.
Proof.
  intros Hinv Hres Hpre off'.
  destruct (progress_params off p Hinv) as (Pc & Pl & Pt).
  destruct Hinv as (Hf & Hret & Hlt & Hoff & Hl & Hlim & Hty & Hc & Hpages & Hsubs).
  destruct (wiki_request_listing_sent src (next_params p) s) as (s' & E & Hpre' & Hsent).
  rewrite (listing_answer_eq src _ off _ types Pc Pl Pt) in E.
  replace (Z.to_nat (Z.min (limit_at off) 500)) with (Z.to_nat (limit_at off)) in E
    by (destruct results; lia).
  set (lim := Z.to_nat (limit_at off)) in *.
  assert (Hlim1 : (1 <= lim)%nat).
  { unfold lim. destruct results as [n|]; [|lia]. specialize (Hlt n eq_refl). lia. }
  assert (Hlen : (off + length (take lim (drop off visible)))%nat = off').
  { rewrite length_take, length_drop. unfold off'. lia. }
  assert (Htake : ∀ f : list Member -> list string,
             (∀ a b : list Member, f (a ++ b)%list = (f a ++ f b)%list) ->
             (f (take off visible) ++ f (take lim (drop off visible)))%list
               = f (take off' visible)).
  { intros f Hfapp. rewrite <- Hfapp. rewrite take_take_drop. unfold off'.
    destruct (Nat.le_gt_cases (off + lim) (length visible)) as [Hle | Hgt].
    - now rewrite Nat.min_l by lia.
    - rewrite Nat.min_r by lia. rewrite !take_ge by lia. reflexivity. }
  unfold paging_body, bind. fold (next_params p). rewrite E.
  unfold _check_error_response, listing_page. cbn [r_error r_query ret].
  unfold subscript, ret. cbn [q_categorymembers]. unfold gets.
  rewrite collect_all. cbn [fst snd]. rewrite Hpre', Hpre, Hpages, Hsubs.
  rewrite (Htake page_titles page_titles_app).
  rewrite (Htake (subcat_names prefix) (subcat_names_app prefix)).
  unfold next_cont. cbn [r_query_continue r_continue]. rewrite Hlen.
  destruct (Nat.ltb off' (length visible)) eqn:Hmore.
  - apply Nat.ltb_lt in Hmore.
    assert (Hstep : off' = (off + lim)%nat) by (unfold off' in *; lia).
    destruct (decide (last_cont p = offset_token off')) as [Heq | Hne].
    { exfalso. rewrite Hl in Heq. destruct off as [|off].
      - now apply offset_token_not_empty in Heq.
      - apply offset_token_inj in Heq. lia. }
    eexists s', _, _. split; [reflexivity|].
    cbn [pages subcats finished returned_results last_cont search_params].
    split_and!; [congruence | exact Hsent | reflexivity | reflexivity |].
    rewrite Hret.
    assert (Hoff' : Z.of_nat off + Z.of_nat (length (take lim (drop off visible)))
                    = Z.of_nat off') by lia.
    rewrite Hoff'.
    destruct results as [n|].
    + specialize (Hlt n eq_refl).
      destruct (0 <? n - Z.of_nat off') eqn:Hgo.
      * right. apply Z.ltb_lt in Hgo.
        assert (Hpos : off' ≠ O) by lia.
        assert (H500 : lim = 500%nat) by (unfold lim in *; lia).
        split_and!; [|lia | unfold wanted; lia].
        unfold listing_progress.
        cbn [pages subcats finished returned_results last_cont search_params].
        split_and!; try reflexivity; try assumption; try lia.
        -- intros n' [= <-]. lia.
        -- destruct off'; [contradiction | reflexivity].
        -- unfold max_pull. destruct (n - Z.of_nat off' <? 500) eqn:Hsmall.
           ++ apply Z.ltb_lt in Hsmall. rewrite lookup_insert_eq. do 2 f_equal. lia.
           ++ apply Z.ltb_ge in Hsmall. rewrite Hlim. do 2 f_equal. unfold lim in *. lia.
        -- destruct (n - Z.of_nat off' <? max_pull);
             [rewrite lookup_insert_ne by discriminate|]; exact Hty.
        -- destruct (n - Z.of_nat off' <? max_pull);
             [rewrite lookup_insert_ne by discriminate|]; exact Hc.
      * left. apply Z.ltb_ge in Hgo. split; [|reflexivity].
        unfold wanted, lim in *. lia.
    + right.
      assert (Hpos : off' ≠ O) by lia.
      assert (H500 : lim = 500%nat) by (unfold lim; lia).
      split_and!; [|lia | unfold wanted; lia].
      unfold listing_progress.
      cbn [pages subcats finished returned_results last_cont search_params].
      split_and!; try reflexivity; try assumption; try lia.
      * intros n' H. discriminate.
      * destruct off'; [contradiction | reflexivity].
  - apply Nat.ltb_ge in Hmore.
    eexists s', _, _. split; [reflexivity|].
    cbn [pages subcats]. split_and!; [congruence | exact Hsent | reflexivity | reflexivity |].
    unfold wanted, off', lim in *. destruct results as [n|]; [|lia].
    specialize (Hlt n eq_refl). lia.
Qed.

Lemma requests_for_last (m : nat) : (m <= 500)%nat -> requests_for m = 1%nat.
Proof.
  intros H. unfold requests_for.
  assert ((Z.of_nat m + 499) / 500 < 2).
  { apply Z.div_lt_upper_bound; lia. }
  lia.
Qed.

Lemma requests_for_more (m : nat) :
  (500 < m)%nat -> requests_for m = S (requests_for (m - 500)).
Proof.
  intros H. unfold requests_for.
  replace (Z.of_nat m + 499) with ((Z.of_nat (m - 500) + 499) + 1 * 500) by lia.
  rewrite Z.div_add by lia.
  assert (1 <= (Z.of_nat (m - 500) + 499) / 500).
  { apply Z.div_le_lower_bound; lia. }
  lia.
Qed.

Lemma paging_loop_progress (fuel : nat) :
  ∀ (off : nat) (p : Paging) (s : St),
    progress off p ->
    (∀ n, results = Some n -> 1 <= n) ->
    _cat_prefix (self s) = prefix ->
    (wanted results (length visible) - off < fuel)%nat ->
    ∃ s' p',
      paging_loop (listing_transport src) fuel category results p s = (Ok p', s')
      ∧ pages p' = page_titles (take (wanted results (length visible)) visible)
      ∧ subcats p' = subcat_names prefix (take (wanted results (length visible)) visible)
      ∧ length (sent (world s'))
        = (length (sent (world s))
           + requests_for (wanted results (length visible) - off))%nat.
Proof.
  induction fuel as [|fuel IH]; intros off p s Hinv Hres Hpre Hfuel; [lia|].
  pose proof Hinv as (Hf & _).
  rewrite (paging_loop_step (listing_transport src) fuel category results p s Hf).
  destruct (paging_body_progress off p s Hinv Hres Hpre)
    as (s' & ctl & p' & -> & Hpre' & Hsent & Hp & Hs & Hctl).
  set (off' := Nat.min (off + Z.to_nat (limit_at off)) (length visible)) in *.
  assert (Hnear : (off' <= off + 500)%nat) by (unfold off'; destruct results; lia).
  destruct ctl.
  - exists s', p'. rewrite <- Hctl. split_and!; [reflexivity | exact Hp | exact Hs |].
    rewrite Hsent, requests_for_last by lia. lia.
  - destruct Hctl as [[Hend Hfin] | (Hinv' & Hstep & Hless)].
    + exists s', p'. rewrite <- Hend. split_and!; [| exact Hp | exact Hs |].
      * destruct fuel; simpl; rewrite Hfin; reflexivity.
      * rewrite Hsent, requests_for_last by lia. lia.
    + destruct (IH off' p' s' Hinv' Hres Hpre') as (s'' & p'' & E & Hp'' & Hs'' & Hsent'');
        [lia|].
      exists s'', p''. split_and!; [exact E | exact Hp'' | exact Hs'' |].
      rewrite Hsent'', Hsent.
      rewrite (requests_for_more (wanted results (length visible) - off)) by lia.
      replace (wanted results (length visible) - off - 500)%nat
        with (wanted results (length visible) - off')%nat by lia.
      lia.
Qed.

End AnyLength.

(** X22: [categorymembers] against a category listing of any length,
    for [results = None] or any [results >= 1].  It returns the titles
    of the first [results] records of the requested types, or of all of
    them when [results] is [None] or exceeds what the listing holds (an
    empty listing gives empty lists), in the order of the listing; and
    it sends one request for every 500 records returned, rounded up, and
    one request when there is nothing to return: no request is sent
    that is not needed. *)
Theorem categorymembers_returns_what_is_there (src : list Member) (cat : string)
    (results : option Z) (subcategories : bool) (fuel : nat) (s : St) :
  strip cat ≠ "" -> (∀ n, results = Some n -> 1 <= n) ->
  let visible :=
    List.filter (requested (if subcategories then "page|subcat|file" else "page|file")) src in
  let count := wanted results (length visible) in
  (count < fuel)%nat ->
  let first := take count visible in
  let prefix := _cat_prefix (self s) in
  let run := categorymembers (listing_transport src) fuel (Some cat) results subcategories s in
  run.1 = Ok (if subcategories then VPair (page_titles first) (subcat_names prefix first)
              else VList (page_titles first))
  ∧ length (sent (world run.2)) = (length (sent (world s)) + requests_for count)%nat
  ∧ (results = None -> first = visible)
  ∧ (length (page_titles first)
     + (if subcategories then length (subcat_names prefix first) else 0) = count)%nat.
Proof.
  intros Hcat Hres visible count Hfuel first prefix run.
  destruct (paging_loop_progress src
              (if subcategories then "page|subcat|file" else "page|file")
              prefix cat results fuel 0%nat
              (initial_paging prefix cat results subcategories) s)
    as (s' & p' & E & Hp & Hs & Hsent); [| exact Hres | reflexivity | fold visible; lia |].
  - unfold listing_progress, initial_paging.
    cbn [finished returned_results last_cont search_params pages subcats].
    split_and!; try reflexivity; try lia.
    + intros n Hn. specialize (Hres n Hn). lia.
    + rewrite !lookup_insert_ne by discriminate. rewrite lookup_insert_eq.
      unfold max_pull. destruct results as [n|]; [|reflexivity]. do 2 f_equal. lia.
  - fold visible in Hp, Hs, Hsent. fold count in Hp, Hs, Hsent. fold first in Hp, Hs.
    assert (Hrun : run = (Ok (if subcategories then VPair (pages p') (subcats p')
                              else VList (pages p')), s')).
    { unfold run, categorymembers, bind, _check_query.
      rewrite (eqb_false_of_ne (strip cat) "" Hcat). unfold ret at 1. unfold gets at 1.
      fold prefix. rewrite E. reflexivity. }
    rewrite Hrun. cbn [fst snd]. rewrite Hp, Hs. split_and!.
    + reflexivity.
    + rewrite Hsent. now rewrite Nat.sub_0_r.
    + intros ->. unfold first, count, wanted. now rewrite take_ge by lia.
    + pose proof (listed_count prefix subcategories first) as [Hc _].
      * apply Forall_take. apply listed_types.
      * rewrite Hc. unfold first. rewrite length_take. unfold count, wanted.
        destruct results; lia.
Qed.

Lemma categorymembers_returns_what_is_there_witness :
  (categorymembers (listing_transport fruit) 6 (Some "Fruit") None true state0).1
    = Ok (VPair ["Apple"; "Banana"; "File:Fruit.png"; "Cherry"] ["Citrus"])
  ∧ (categorymembers (listing_transport fruit) 6 (Some "Fruit") (Some 50) false state0).1
    = Ok (VList ["Apple"; "Banana"; "File:Fruit.png"; "Cherry"]).
Proof.
  assert (H1 : strip "Fruit" ≠ "") by (vm_compute; discriminate).
  split.
  - refine (proj1 (categorymembers_returns_what_is_there fruit "Fruit" None true 6 state0
                     H1 _ _)).
    + intros n H. discriminate.
    + vm_compute. lia.
  - refine (proj1 (categorymembers_returns_what_is_there fruit "Fruit" (Some 50) false 6
                     state0 H1 _ _)).
    + intros n [= <-]. lia.
    + vm_compute. lia.
Defined.

(** ** Titles: [random], [allpages], [prefixsearch] *)

Section TitleFacts.

Variable titles_of : string -> Query -> option (list string).

Lemma titles_state {S} (response : Body) (key : string) (s : S) :
  (titles titles_of response key s).2 = s.
Proof.
  unfold titles. destruct response as [r | items]; [|reflexivity].
  unfold bind, subscript. destruct (r_query r) as [q|]; [|reflexivity].
  unfold ret. destruct (titles_of key q); reflexivity.
Qed.

Lemma check_error_state {S} (response : Body) (query : option string) (s : S) :
  (_check_error_response response query s).2 = s.
Proof.
  destruct response as [r | items].
  - destruct (check_error_cases r query s) as [[_ ->] | [e ->]]; reflexivity.
  - unfold _check_error_response. destruct (existsb _ _); reflexivity.
Qed.

(** X23: the limit of [prefixsearch].  With [results = None] the
    comparison [results > 500] is evaluated before the test for [None]
    and raises a [TypeError]: the call fails before anything is sent,
    also through the memoized operation.  With a number, one request
    is sent whose limit is ["max"] above 500 and the number itself
    otherwise, and the titles of the answer are returned. *)
Theorem prefixsearch_limit (transport : World -> Request -> TransportResult)
    (pre : string) (s : St) :
  strip pre ≠ "" ->
  prefixsearch transport titles_of (Some pre) None s = (Raise TypeError, s)
  ∧ ((_use_cache (self s) = false ∧ is_Some (_cache (self s)))
     ∨ (_use_cache (self s) = true ∧ _cache (self s) = Some ∅) ->
     ∃ s', memo_prefixsearch transport titles_of [PyStr pre] [("results", PyNone)] s
             = (Raise TypeError, s')
           ∧ world s' = world s)
  ∧ (∀ n, ∃ req,
       sent (world (prefixsearch transport titles_of (Some pre) (Some n) s).2)
         = (sent (world s) ++ [req])%list
       ∧ req_params req !! "pssearch" = Some (PyStr pre)
       ∧ req_params req !! "pslimit" = Some (if 500 <? n then PyStr "max" else PyInt n))
  ∧ (∀ n q l, titles_of "prefixsearch" q = Some l ->
       (prefixsearch (constant_transport (Json (Dict (query_answer q)))) titles_of
          (Some pre) (Some n) s).1 = Ok (VList l)).
Proof.
  intros Hpre.
  assert (Hnone : ∀ s0, prefixsearch transport titles_of (Some pre) None s0
                        = (Raise TypeError, s0)).
  { intros s0. unfold prefixsearch, bind, _check_query.
    now rewrite (eqb_false_of_ne (strip pre) "" Hpre). }
  split_and!.
  - apply Hnone.
  - intros Hs. apply wrapper_raises; [discriminate | | exact Hs].
    intros s0. apply Hnone.
  - intros n.
    set (query_params := (<["list" := PyStr "prefixsearch"]> (<["pssearch" := PyStr pre]>
           (<["pslimit" := if 500 <? n then PyStr "max" else PyInt n]>
           (<["psnamespace" := PyInt 0]> (<["psoffset" := PyInt 0]> ∅)))) : Params)).
    exists (request_of (self s) query_params).
    assert (Hrun : (prefixsearch transport titles_of (Some pre) (Some n) s).2
                   = (wiki_request transport query_params s).2).
    { unfold prefixsearch, bind at 1 2, _check_query.
      rewrite (eqb_false_of_ne (strip pre) "" Hpre). unfold ret at 1 2.
      fold query_params. unfold bind at 1.
      destruct (wiki_request transport query_params s) as [[b| |] s1]; try reflexivity.
      unfold bind at 1. pose proof (check_error_state b (Some pre) s1) as Hc.
      destruct (_check_error_response b (Some pre) s1) as [[[]| |] s2]; cbn [snd] in Hc;
        subst s2; try reflexivity.
      unfold bind. pose proof (titles_state b "prefixsearch" s1) as Ht.
      destruct (titles titles_of b "prefixsearch" s1) as [[l| |] s2]; cbn [snd] in Ht;
        subst s2; reflexivity. }
    rewrite Hrun, wiki_request_run. cbv zeta.
    destruct (waited_spec (self s) (world s)) as (Hsent & _).
    destruct (sent_params_lookup query_params) as (_ & _ & Hk).
    split_and!.
    + destruct (transport _ _); cbn [snd world record_request sent]; now rewrite Hsent.
    + unfold request_of. cbn [req_params]. rewrite Hk by discriminate.
      unfold query_params. rewrite lookup_insert_ne by discriminate. apply lookup_insert_eq.
    + unfold request_of. cbn [req_params]. rewrite Hk by discriminate.
      unfold query_params. rewrite !lookup_insert_ne by discriminate. apply lookup_insert_eq.
  - intros n q l Hl. unfold prefixsearch, bind at 1 2, _check_query.
    rewrite (eqb_false_of_ne (strip pre) "" Hpre). unfold ret at 1 2.
    unfold bind at 1.
    match goal with
    | |- context [wiki_request _ ?p s] =>
        destruct (wiki_request_constant (Json (Dict (query_answer q))) p s) as (s' & -> & _)
    end.
    unfold bind, _check_error_response, titles, query_answer, subscript, ret.
    cbn [r_error r_query]. unfold bind, ret. now rewrite Hl.
Qed.


(** X24: [random].  Without a number of pages, or with one below 1,
    it raises a [ValueError] and sends nothing.  Otherwise it sends one
    request for that number of titles (the number is not capped).  What
    it returns depends on the answer, not on the number asked for: the
    title itself when the answer holds exactly one title, the list of
    titles otherwise.  An answer that is not JSON ends in
    [KeyError "query"]. *)
Theorem random_titles (transport : World -> Request -> TransportResult) (s : St) :
  (∀ pages, pages = None ∨ (∃ n, pages = Some n ∧ n < 1) ->
     random transport titles_of pages s
       = (Raise (ValueError "Number of pages must be greater than 0"), s))
  ∧ (∀ n, 1 <= n ->
       ∃ req, sent (world (random transport titles_of (Some n) s).2)
                = (sent (world s) ++ [req])%list
              ∧ req_params req !! "list" = Some (PyStr "random")
              ∧ req_params req !! "rnlimit" = Some (PyInt n))
  ∧ (∀ n q l, 1 <= n -> titles_of "random" q = Some l ->
       (random (constant_transport (Json (Dict (query_answer q)))) titles_of (Some n) s).1
         = Ok (match l with [title] => VStr title | _ => VList l end))
  ∧ (∀ n, 1 <= n -> (random not_a_wiki titles_of (Some n) s).1 = Raise (KeyError "query")).
Proof.
  split_and!.
  - intros pages [-> | (n & -> & Hn)]; [reflexivity|]. unfold random.
    now rewrite (proj2 (Z.ltb_lt n 1) Hn).
  - intros n Hn.
    set (query_params := (<["list" := PyStr "random"]> (<["rnnamespace" := PyInt 0]>
           (<["rnlimit" := PyInt n]> ∅)) : Params)).
    exists (request_of (self s) query_params).
    assert (Hrun : (random transport titles_of (Some n) s).2
                   = (wiki_request transport query_params s).2).
    { unfold random. rewrite (proj2 (Z.ltb_ge n 1)) by lia. fold query_params.
      unfold bind at 1.
      destruct (wiki_request transport query_params s) as [[b| |] s1]; try reflexivity.
      unfold bind. pose proof (titles_state b "random" s1) as Ht.
      destruct (titles titles_of b "random" s1) as [[l| |] s2]; cbn [snd] in Ht;
        subst s2; try reflexivity.
      destruct l as [|t [|t' l]]; reflexivity. }
    rewrite Hrun, wiki_request_run. cbv zeta.
    destruct (waited_spec (self s) (world s)) as (Hsent & _).
    destruct (sent_params_lookup query_params) as (_ & _ & Hk).
    split_and!.
    + destruct (transport _ _); cbn [snd world record_request sent]; now rewrite Hsent.
    + unfold request_of. cbn [req_params]. rewrite Hk by discriminate.
      unfold query_params. apply lookup_insert_eq.
    + unfold request_of. cbn [req_params]. rewrite Hk by discriminate.
      unfold query_params. rewrite !lookup_insert_ne by discriminate. apply lookup_insert_eq.
  - intros n q l Hn Hl. unfold random. rewrite (proj2 (Z.ltb_ge n 1)) by lia.
    unfold bind at 1.
    match goal with
    | |- context [wiki_request _ ?p s] =>
        destruct (wiki_request_constant (Json (Dict (query_answer q))) p s) as (s' & -> & _)
    end.
    unfold bind, titles, query_answer, subscript, ret.
    cbn [r_query]. unfold bind, ret. rewrite Hl.
    destruct l as [|t [|t' l]]; reflexivity.
  - intros n Hn. unfold random. rewrite (proj2 (Z.ltb_ge n 1)) by lia.
    unfold bind at 1.
    match goal with
    | |- context [wiki_request _ ?p s] =>
        destruct (wiki_request_constant NotJson p s) as (s' & E & _)
    end.
    unfold not_a_wiki. unfold constant_transport in E. rewrite E. reflexivity.
Qed.


(** X25: [allpages].  Any query text is accepted, the empty one
    included; one request is sent, from that text on, whose limit is the
    requested number capped at 500 (500 for [None]); the titles of the
    answer are returned, and an error object ends in the exception that
    [_check_error_response] maps its message to. *)
Theorem allpages_limit (transport : World -> Request -> TransportResult)
    (query : string) (results : option Z) (s : St) :
  (∃ req, sent (world (allpages transport titles_of query results s).2)
            = (sent (world s) ++ [req])%list
          ∧ req_params req !! "apfrom" = Some (PyStr query)
          ∧ req_params req !! "aplimit"
            = Some (PyInt (match results with Some n => Z.min n 500 | None => 500 end)))
  ∧ (∀ q l, titles_of "allpages" q = Some l ->
       (allpages (constant_transport (Json (Dict (query_answer q)))) titles_of query
          results s).1 = Ok (VList l))
  ∧ (∀ info,
       (allpages (constant_transport (Json (Dict (error_answer info)))) titles_of query
          results s).1 = Raise (mapped_error info (Some query))).
Proof.
  set (query_params := (<["list" := PyStr "allpages"]>
         (<["aplimit" := PyInt (match results with
                                | Some n => Z.min n max_pull
                                | None => max_pull
                                end)]>
         (<["apfrom" := PyStr query]> ∅)) : Params)).
  split_and!.
  - exists (request_of (self s) query_params).
    assert (Hrun : (allpages transport titles_of query results s).2
                   = (wiki_request transport query_params s).2).
    { unfold allpages. fold query_params. unfold bind at 1.
      destruct (wiki_request transport query_params s) as [[b| |] s1]; try reflexivity.
      unfold bind at 1. pose proof (check_error_state b (Some query) s1) as Hc.
      destruct (_check_error_response b (Some query) s1) as [[[]| |] s2]; cbn [snd] in Hc;
        subst s2; try reflexivity.
      unfold bind. pose proof (titles_state b "allpages" s1) as Ht.
      destruct (titles titles_of b "allpages" s1) as [[l| |] s2]; cbn [snd] in Ht;
        subst s2; reflexivity. }
    rewrite Hrun, wiki_request_run. cbv zeta.
    destruct (waited_spec (self s) (world s)) as (Hsent & _).
    destruct (sent_params_lookup query_params) as (_ & _ & Hk).
    split_and!.
    + destruct (transport _ _); cbn [snd world record_request sent]; now rewrite Hsent.
    + unfold request_of. cbn [req_params]. rewrite Hk by discriminate.
      unfold query_params. rewrite !lookup_insert_ne by discriminate. apply lookup_insert_eq.
    + unfold request_of. cbn [req_params]. rewrite Hk by discriminate.
      unfold query_params. rewrite lookup_insert_ne by discriminate. apply lookup_insert_eq.
  - intros q l Hl. unfold allpages. fold query_params. unfold bind at 1.
    destruct (wiki_request_constant (Json (Dict (query_answer q))) query_params s)
      as (s' & -> & _).
    unfold bind, _check_error_response, titles, query_answer, subscript, ret.
    cbn [r_error r_query]. unfold bind, ret. now rewrite Hl.
  - intros info. unfold allpages. fold query_params. unfold bind at 1.
    destruct (wiki_request_constant (Json (Dict (error_answer info))) query_params s)
      as (s' & -> & _).
    unfold bind. now rewrite check_error_answer.
Qed.

End TitleFacts.

Lemma prefixsearch_limit_witness :
  prefixsearch not_a_wiki (fun _ _ => None) (Some "Ap") None state0
    = (Raise TypeError, state0)
  ∧ ∃ s', memo_prefixsearch not_a_wiki (fun _ _ => None) [PyStr "Ap"] [("results", PyNone)]
            state0 = (Raise TypeError, s')
          ∧ world s' = world state0.
Proof.
  assert (H : strip "Ap" ≠ "") by (vm_compute; discriminate).
  destruct (prefixsearch_limit (fun _ _ => None) not_a_wiki "Ap" state0 H) as (H1 & H2 & _).
  split; [exact H1|]. apply H2. right. split; reflexivity.
Defined.

Lemma random_titles_witness :
  random not_a_wiki (fun _ _ => None) (Some 0) state0
    = (Raise (ValueError "Number of pages must be greater than 0"), state0)
  ∧ (random (constant_transport (Json (Dict (query_answer no_query))))
       (fun _ _ => Some ["Apple"]) (Some 5) state0).1 = Ok (VStr "Apple").
Proof.
  split.
  - apply (proj1 (random_titles (fun _ _ => None) not_a_wiki state0)). right. exists 0. split; [reflexivity | lia].
  - apply (proj1 (proj2 (proj2 (random_titles (fun _ _ => Some ["Apple"]) not_a_wiki
                                  state0))) 5 no_query ["Apple"]);
      [lia | reflexivity].
Defined.

Lemma allpages_limit_witness :
  (allpages (constant_transport (Json (Dict (query_answer no_query))))
     (fun _ _ => Some ["Apple"; "Apricot"]) "" (Some 1000) state0).1
    = Ok (VList ["Apple"; "Apricot"]).
Proof.
  apply (proj1 (proj2 (allpages_limit (fun _ _ => Some ["Apple"; "Apricot"]) not_a_wiki ""
                         (Some 1000) state0)) no_query).
  reflexivity.
Defined.

(** ** The version of the site *)

Lemma append_empty (a : string) : a +:+ "" = a.
Proof.
  induction a as [|c a IH]; [reflexivity|].
  change (String c a +:+ "") with (String c (a +:+ "")). now rewrite IH.
Qed.

Lemma split_on_cons (sep : ascii) (s : string) : ∃ w ws, split_on sep s = w :: ws.
Proof.
  induction s as [|c s (w & ws & IH)]; [now eexists _, _|].
  cbn [split_on]. destruct (Ascii.eqb c sep); [now eexists _, _|].
  rewrite IH. now eexists _, _.
Qed.

Lemma split_on_free (sep : ascii) (a b : string) :
  free_of sep a = true ->
  split_on sep (a +:+ b)
    = match split_on sep b with
      | w :: ws => (a +:+ w) :: ws
      | [] => [a]
      end.
Proof.
  induction a as [|c a IH]; intros Ha.
  - change ("" +:+ b) with b. destruct (split_on_cons sep b) as (w & ws & ->).
    reflexivity.
  - cbn [free_of] in Ha. apply andb_true_iff in Ha. destruct Ha as [Hc Ha].
    apply negb_true_iff in Hc.
    change (String c a +:+ b) with (String c (a +:+ b)). cbn [split_on]. rewrite Hc.
    rewrite (IH Ha). destruct (split_on_cons sep b) as (w & ws & ->). reflexivity.
Qed.

Lemma split_on_none (sep : ascii) (a : string) :
  free_of sep a = true -> split_on sep a = [a].
Proof.
  intros Ha. rewrite <- (append_empty a) at 1. rewrite (split_on_free sep a "" Ha).
  cbn. now rewrite append_empty.
Qed.

Lemma split_on_first (sep : ascii) (a b : string) :
  free_of sep a = true -> split_on sep (a +:+ String sep b) = a :: split_on sep b.
Proof.
  intros Ha. rewrite (split_on_free sep a _ Ha). cbn [split_on].
  rewrite Ascii.eqb_refl. now rewrite append_empty.
Qed.

Lemma digit_of_char (d : N) : (d < 10)%N -> digit_of (pretty_N_char d) = Some (Z.of_N d).
Proof.
  intros H.
  assert (d = 0 ∨ d = 1 ∨ d = 2 ∨ d = 3 ∨ d = 4 ∨ d = 5 ∨ d = 6 ∨ d = 7 ∨ d = 8 ∨ d = 9)%N
    as Hd by lia.
  repeat (destruct Hd as [-> | Hd]; [reflexivity|]). now subst.
Qed.

Lemma digits_of_go (x : N) :
  ∃ k, ∀ acc s, digits_from acc (pretty_N_go x s) = digits_from (acc * k + Z.of_N x) s.
Proof.
  induction (N.lt_wf_0 x) as [x _ IH].
  assert (x = 0 ∨ 0 < x)%N as [-> | Hx] by lia.
  - exists 1. intros acc s. rewrite pretty_N_go_0. f_equal. lia.
  - destruct (IH (x `div` 10)%N) as (k & Hk); [now apply N.div_lt|].
    exists (10 * k). intros acc s. rewrite (pretty_N_go_step x s Hx), Hk.
    cbn [digits_from]. rewrite digit_of_char by (apply N.mod_lt; lia).
    f_equal. rewrite (N.div_mod x 10) at 3 by lia.
    rewrite N2Z.inj_add, N2Z.inj_mul. change (Z.of_N 10) with 10. lia.
Qed.

Lemma parse_int_pretty (v : Z) : 0 <= v -> parse_int (pretty v) = Some v.
Proof.
  intros Hv. destruct v as [|p|p]; [reflexivity | | lia].
  change (pretty (Z.pos p)) with (pretty_N_go (N.pos p) "").
  destruct (digits_of_go (N.pos p)) as (k & Hk).
  assert (E : digits_from 0 (pretty_N_go (N.pos p) "") = Some (Z.pos p)).
  { rewrite Hk. cbn [digits_from]. f_equal. }
  unfold parse_int. destruct (pretty_N_go (N.pos p) "") eqn:Es; [discriminate | exact E].
Qed.

Lemma free_of_go (c : ascii) (x : N) (s : string) :
  digit_of c = None -> free_of c s = true -> free_of c (pretty_N_go x s) = true.
Proof.
  intros Hc. revert s. induction (N.lt_wf_0 x) as [x _ IH]; intros s Hs.
  assert (x = 0 ∨ 0 < x)%N as [-> | Hx] by lia.
  - now rewrite pretty_N_go_0.
  - rewrite (pretty_N_go_step x s Hx). apply IH; [now apply N.div_lt|].
    cbn [free_of]. rewrite Hs, andb_true_r. apply negb_true_iff.
    destruct (Ascii.eqb_spec (pretty_N_char (x `mod` 10)) c) as [E | E]; [|reflexivity].
    rewrite <- E, digit_of_char in Hc by (apply N.mod_lt; lia). discriminate.
Qed.

Lemma free_of_pretty (c : ascii) (v : Z) :
  digit_of c = None -> 0 <= v -> free_of c (pretty v) = true.
Proof.
  intros Hc Hv. destruct v as [|p|p]; [| | lia].
  - change (pretty 0) with "0". cbn [free_of]. rewrite andb_true_r. apply negb_true_iff.
    destruct (Ascii.eqb_spec "0" c) as [<- | E]; [discriminate | reflexivity].
  - change (pretty (Z.pos p)) with (pretty_N_go (N.pos p) ""). now apply free_of_go.
Qed.

Lemma free_of_app (c : ascii) (a b : string) :
  free_of c (a +:+ b) = (free_of c a && free_of c b)%bool.
Proof.
  induction a as [|x a IH]; [reflexivity|].
  change (String x a +:+ b) with (String x (a +:+ b)). cbn [free_of].
  now rewrite IH, andb_assoc.
Qed.

Lemma free_of_version (c : ascii) (vs : list Z) :
  digit_of c = None -> c ≠ "."%char -> Forall (fun v => 0 <= v) vs ->
  free_of c (join "." (pretty <$> vs)) = true.
Proof.
  intros Hc Hdot. induction 1 as [|v vs Hv Hvs IH]; [reflexivity|].
  destruct vs as [|v' vs].
  - cbn. now apply free_of_pretty.
  - change (join "." (pretty <$> v :: v' :: vs))
      with (pretty v +:+ String "." (join "." (pretty <$> v' :: vs))).
    rewrite free_of_app, (free_of_pretty c v Hc Hv). cbn [free_of andb].
    rewrite IH, andb_true_r. apply negb_true_iff. apply Ascii.eqb_neq. congruence.
Qed.

Lemma split_version (vs : list Z) :
  vs ≠ [] -> Forall (fun v => 0 <= v) vs ->
  split_on "." (join "." (pretty <$> vs)) = pretty <$> vs.
Proof.
  intros Hne. induction 1 as [|v vs Hv Hvs IH]; [contradiction|].
  assert (Hfree : free_of "." (pretty v) = true) by now apply free_of_pretty.
  destruct vs as [|v' vs].
  - cbn. now apply split_on_none.
  - change (join "." (pretty <$> v :: v' :: vs))
      with (pretty v +:+ String "." (join "." (pretty <$> v' :: vs))).
    rewrite (split_on_first "." _ _ Hfree). rewrite IH by discriminate. reflexivity.
Qed.

Lemma parse_version (vs : list Z) :
  Forall (fun v => 0 <= v) vs -> mapM parse_int (pretty <$> vs) = Some vs.
Proof.
  induction 1 as [|v vs Hv Hvs IH]; [reflexivity|].
  rewrite fmap_cons. cbn [mapM]. rewrite (parse_int_pretty v Hv). cbn. now rewrite IH.
Qed.

Lemma version_of_generator (name suffix : string) (vs : list Z) (tail : string) :
  free_of " " name = true -> vs ≠ [] -> Forall (fun v => 0 <= v) vs ->
  tail = "" ∨ tail = String "-" suffix ->
  version_of (name +:+ String " " (join "." (pretty <$> vs) +:+ tail)) = Some vs.
Proof.
  intros Hname Hne Hvs Htail. unfold version_of.
  rewrite (split_on_first " " name _ Hname).
  assert (Hsp : free_of " " (join "." (pretty <$> vs)) = true)
    by (apply free_of_version; [reflexivity | discriminate | exact Hvs]).
  assert (Hda : free_of "-" (join "." (pretty <$> vs)) = true)
    by (apply free_of_version; [reflexivity | discriminate | exact Hvs]).
  assert (Hsecond : ∃ rest ws,
            split_on " " (join "." (pretty <$> vs) +:+ tail)
              = (join "." (pretty <$> vs) +:+ rest) :: ws
            ∧ (rest = "" ∨ ∃ r, rest = String "-" r)).
  { rewrite (split_on_free " " _ tail Hsp).
    destruct Htail as [-> | ->].
    - cbn [split_on]. eexists _, _. split; [reflexivity | now left].
    - cbn [split_on]. change (Ascii.eqb "-" " ") with false. cbv iota.
      destruct (split_on_cons " " suffix) as (w & ws & ->).
      eexists _, _. split; [reflexivity|]. right. now eexists. }
  destruct Hsecond as (rest & ws & -> & Hrest).
  cbn [lookup list_lookup mbind option_bind].
  assert (Hhead : head (split_on "-" (join "." (pretty <$> vs) +:+ rest))
                  = Some (join "." (pretty <$> vs))).
  { rewrite (split_on_free "-" _ rest Hda).
    destruct Hrest as [-> | [r ->]].
    - cbn. now rewrite append_empty.
    - cbn [split_on]. rewrite Ascii.eqb_refl. cbn. now rewrite append_empty. }
  rewrite Hhead. cbn [from_option id]. rewrite (split_version vs Hne Hvs).
  now apply parse_version.
Qed.

(** X26: the version of the site.  For a generator string made of a
    name without a space, one space, and a version written as
    non-negative numbers joined by dots, optionally followed by a dash
    and anything at all, [_get_site_info] succeeds and stores exactly
    those numbers as [_api_version] and the dotted text, without the
    dash part, as [_api_version_str]. *)
Theorem site_version_round_trip (site : Site) (s : St) (name suffix tail : string)
    (vs : list Z) :
  site_generator site = name +:+ String " " (join "." (pretty <$> vs) +:+ tail) ->
  free_of " " name = true -> vs ≠ [] -> Forall (fun v => 0 <= v) vs ->
  tail = "" ∨ tail = String "-" suffix ->
  site_server site ≠ "" ->
  ∃ s', _get_site_info (site_transport site) s = (Ok tt, s')
        ∧ _api_version (_site (self s')) = Some vs
        ∧ _api_version_str (_site (self s')) = Some (join "." (pretty <$> vs)).
Proof.
  intros Hg Hname Hne Hvs Htail Hsrv.
  assert (Hv : version_of (site_generator site) = Some vs).
  { rewrite Hg. now apply (version_of_generator name suffix vs tail). }
  eexists. split; [exact (site_info_answered site s vs Hv Hsrv)|].
  split; reflexivity.
Qed.

Lemma site_version_round_trip_witness :
  ∃ s', _get_site_info (site_transport wikipedia) state0 = (Ok tt, s')
        ∧ _api_version (_site (self s')) = Some [1; 35; 0]
        ∧ _api_version_str (_site (self s')) = Some (join "." (pretty <$> [1; 35; 0])).
Proof.
  destruct (site_version_round_trip wikipedia state0 "MediaWiki" "wmf.5" "-wmf.5" [1; 35; 0])
    as (s' & E & H1 & H2).
  - reflexivity.
  - reflexivity.
  - discriminate.
  - repeat constructor; lia.
  - now right.
  - discriminate.
  - exists s'. now split_and!.
Defined.

(** ** A blank category name *)

Lemma wrapper_raises_fresh (name : string) (signature : gmap string PyVal)
    (func : list PyVal -> list (string * PyVal) -> M St Value)
    (args : list PyVal) (kwargs : list (string * PyVal)) (e : exn) (s : St) :
  name ≠ "defaults" ->
  (∀ s0, func args kwargs s0 = (Raise e, s0)) ->
  _use_cache (self s) = true -> _cache (self s) = Some ∅ ->
  wrapper name signature func args kwargs s = (Raise e, primed name signature s).
Proof.
  intros Hname Hf Hu Hc.
  unfold wrapper, bind, memoized, gets. rewrite Hc, Hu. simpl.
  rewrite lookup_empty.
  unfold init_partitions, set_memoized, modify.
  rewrite lookup_insert_ne by congruence. rewrite lookup_empty.
  rewrite lookup_insert_eq. simpl.
  unfold lookup_defaults, lookup_entries, bind, memoized, subscript, ret. simpl.
  rewrite lookup_insert_eq. simpl. rewrite lookup_insert_eq. simpl.
  rewrite lookup_insert_ne by congruence. rewrite lookup_insert_ne by congruence.
  rewrite lookup_insert_eq. simpl. rewrite lookup_empty.
  unfold compute_and_store, bind, now, gets. simpl. rewrite Hf.
  reflexivity.
Qed.

Lemma wrapper_raises_primed (name : string) (signature : gmap string PyVal)
    (func : list PyVal -> list (string * PyVal) -> M St Value)
    (args : list PyVal) (kwargs : list (string * PyVal)) (e : exn) (s : St) :
  name ≠ "defaults" ->
  (∀ s0, func args kwargs s0 = (Raise e, s0)) ->
  _use_cache (self s) = true ->
  _cache (self s) = Some (first_partitions name signature) ->
  wrapper name signature func args kwargs s = (Raise e, s).
Proof.
  intros Hname Hf Hu Hc.
  assert (H1 : first_partitions name signature !! name = Some (Entries ∅)).
  { unfold first_partitions. rewrite lookup_insert_ne by congruence.
    rewrite lookup_insert_ne by congruence. apply lookup_insert_eq. }
  assert (H2 : first_partitions name signature !! "defaults"
               = Some (Defaults (<[name := signature]> ∅))).
  { unfold first_partitions. apply lookup_insert_eq. }
  unfold wrapper, bind, memoized, gets. rewrite Hc, Hu. simpl.
  rewrite H1. unfold ret.
  unfold lookup_defaults, lookup_entries, bind, memoized, subscript, ret. rewrite Hc. simpl.
  rewrite H2. simpl. rewrite lookup_insert_eq. simpl. rewrite Hc. simpl. rewrite H1. simpl.
  rewrite lookup_empty.
  unfold compute_and_store, bind, now, gets. simpl. rewrite Hf.
  reflexivity.
Qed.

Section BlankName.

Variable w : Wiki.
Variable transport : World -> Request -> TransportResult.
Variable mfuel : nat.
Variable name : string.
Hypothesis Hblank : strip name = "".

#[local] Abbreviation members := (categorymembers_all_of transport mfuel).
#[local] Abbreviation blank_attempt :=
  (attempt string wiki_page (wiki_page_categories w) members).
#[local] Abbreviation blank_loop :=
  (fetch_loop string wiki_page (wiki_page_categories w) members).
#[local] Abbreviation refused := (ValueError "Category must be specified").
#[local] Abbreviation first_call := (primed "categorymembers" categorymembers_defaults).

Lemma blank_call (s0 : St) :
  categorymembers_call transport mfuel [PyStr name]
    [("results", PyNone); ("subcategories", PyBool true)] s0 = (Raise refused, s0).
Proof.
  change (categorymembers_call transport mfuel [PyStr name]
            [("results", PyNone); ("subcategories", PyBool true)] s0)
    with (categorymembers transport mfuel (Some name) None true s0).
  apply categorymembers_blank. right. now exists name.
Qed.

Lemma blank_members_fresh (s : St) :
  _use_cache (self s) = true -> _cache (self s) = Some ∅ ->
  members name s = (Raise refused, first_call s).
Proof.
  intros Hu Hc. unfold categorymembers_all_of, memo_categorymembers, bind.
  rewrite (wrapper_raises_fresh "categorymembers" categorymembers_defaults _ _ _ refused s
             ltac:(discriminate) blank_call Hu Hc).
  reflexivity.
Qed.

Lemma blank_members_ready (s : St) : ready s -> members name s = (Raise refused, s).
Proof.
  intros [Hu Hc]. unfold categorymembers_all_of, memo_categorymembers, bind.
  rewrite (wrapper_raises_primed "categorymembers" categorymembers_defaults _ _ _ refused s
             ltac:(discriminate) blank_call Hu Hc).
  reflexivity.
Qed.

Lemma blank_attempt_fresh (r : Run string) :
  _use_cache (self (st string r)) = true -> _cache (self (st string r)) = Some ∅ ->
  blank_attempt name r = (Raise refused, page_noted name (first_call (st string r)) r).
Proof.
  intros Hu Hc. unfold attempt, bind at 1, note_fetch, modify. unfold bind at 1.
  unfold prefixed, gets. unfold bind at 1. unfold lift at 1.
  cbn [st categories run_links fetches]. unfold wiki_page at 1, ret at 1.
  unfold bind at 1, set_category, modify. unfold bind at 1. unfold lift at 1.
  cbn [st categories run_links fetches]. unfold wiki_page_categories at 1, ret at 1.
  unfold bind at 1. unfold lift at 1. cbn [st categories run_links fetches].
  rewrite (blank_members_fresh _ Hu Hc). reflexivity.
Qed.

Lemma blank_attempt_ready (r : Run string) :
  ready (st string r) -> blank_attempt name r = (Raise refused, page_noted name (st string r) r).
Proof.
  intros Hr. unfold attempt, bind at 1, note_fetch, modify. unfold bind at 1.
  unfold prefixed, gets. unfold bind at 1. unfold lift at 1.
  cbn [st categories run_links fetches]. unfold wiki_page at 1, ret at 1.
  unfold bind at 1, set_category, modify. unfold bind at 1. unfold lift at 1.
  cbn [st categories run_links fetches]. unfold wiki_page_categories at 1, ret at 1.
  unfold bind at 1. unfold lift at 1. cbn [st categories run_links fetches].
  rewrite (blank_members_ready _ Hr). reflexivity.
Qed.

Lemma blank_loop_gives_up (m : nat) :
  ∀ (fuel : nat) (tries : Z) (r : Run string),
    ready (st string r) -> tries = 11 - Z.of_nat m -> (m < fuel)%nat ->
    ∃ r', blank_loop fuel name tries r = (Raise (MediaWikiCategoryTreeError name), r')
          ∧ fetches string r' = (fetches string r ++ repeat name m)%list
          ∧ slept (world (st string r')) = (slept (world (st string r)) ++ repeat 1 m)%list
          ∧ sent (world (st string r')) = sent (world (st string r)).
Proof.
  induction m as [|m IH]; intros fuel tries r Hr Ht Hfuel.
  - destruct fuel as [|fuel]; [lia|]. exists r. cbn [fetch_loop].
    replace (10 <? tries) with true by (symmetry; apply Z.ltb_lt; lia).
    cbn [repeat]. rewrite !app_nil_r. now split_and!.
  - destruct fuel as [|fuel]; [lia|].
    rewrite (loop_retry string wiki_page (wiki_page_categories w) members fuel name tries r
               _ refused ltac:(lia) (blank_attempt_ready r Hr) eq_refl ltac:(discriminate)).
    destruct (IH fuel (tries + 1) (slept_one (page_noted name (st string r) r)))
      as (r' & E & Hf & Hs & Hq); [exact Hr | lia | lia |].
    exists r'. cbn [slept_one page_noted st on_world world slept sent fetches] in *.
    split_and!.
    + exact E.
    + rewrite Hf, <- app_assoc. reflexivity.
    + rewrite Hs, <- app_assoc. reflexivity.
    + exact Hq.
Qed.

(** C8: the input on which the code breaks the claim.  A category name
    made of whitespace only is blank for [_check_query], so
    [categorymembers] refuses it with a [ValueError] before anything is
    sent; the check of [categorytree] compares the name with the empty
    string without stripping it and lets it through.  On a client with
    a fresh cache the page of the category is then fetched, the member
    fetch raises that [ValueError] inside the [try], the handler of
    [Exception] takes it for a failed fetch, and after eleven fetches and
    eleven sleeps of one time unit the call ends in
    [MediaWikiCategoryTreeError], not in a validation error. *)
Theorem categorytree_blank_name_is_fetched (fuel : nat) (depth : option Z) (s : St) :
  name ≠ "" -> (depth = None ∨ ∃ d, depth = Some d ∧ 1 <= d) ->
  _use_cache (self s) = true -> _cache (self s) = Some ∅ ->
  categorymembers transport mfuel (Some name) None true s = (Raise refused, s)
  ∧ ∃ r', client_tree_run w transport mfuel (S fuel) (One (Some name)) depth
            (new_run string s) = (Raise (MediaWikiCategoryTreeError name), r')
          ∧ fetches string r' = repeat name 11
          ∧ slept (world (st string r')) = (slept (world s) ++ repeat 1 11)%list.
Proof.
  intros Hname Hd Hu Hc. split.
  { apply categorymembers_blank. right. now exists name. }
  assert (Hfirst : ready (st string (slept_one
            (page_noted name (first_call (st string (new_run string s))) (new_run string s))))).
  { split; [exact Hu | reflexivity]. }
  destruct (blank_loop_gives_up 10 11 1 _ Hfirst eq_refl ltac:(lia))
    as (r' & E & Hf & Hs & _).
  exists r'. split_and!.
  - unfold client_tree_run, categorytree_run, bind at 1.
    rewrite (verification_accepts name depth _ _ Hname Hd).
    rewrite (non_empty_single name Hname). cbn [foldM __cat_tree_rec].
    unfold bind at 1. unfold bind at 1. unfold gets at 1. cbn [new_run categories].
    rewrite lookup_empty. unfold bind at 1.
    rewrite (loop_retry string wiki_page (wiki_page_categories w) members 11 name 0
               (new_run string s) _ refused ltac:(lia)
               (blank_attempt_fresh (new_run string s) Hu Hc) eq_refl ltac:(discriminate)).
    change (0 + 1) with 1. unfold bind in E |- *. now rewrite E.
  - rewrite Hf. reflexivity.
  - rewrite Hs. cbn [slept_one page_noted st on_world world slept primed on_self].
    rewrite <- app_assoc. reflexivity.
Qed.

End BlankName.

Lemma categorytree_blank_name_is_fetched_witness :
  categorymembers (listing_transport fruit) 10 (Some " ") None true state0
    = (Raise (ValueError "Category must be specified"), state0)
  ∧ ∃ r', client_tree_run chain_wiki (listing_transport fruit) 10 1 (One (Some " "))
            (Some 5) (new_run string state0)
          = (Raise (MediaWikiCategoryTreeError " "), r')
        ∧ fetches string r' = repeat " " 11
        ∧ slept (world (st string r')) = repeat 1 11.
Proof.
  apply (categorytree_blank_name_is_fetched chain_wiki (listing_transport fruit) 10 " "
           eq_refl 0 (Some 5) state0).
  - discriminate.
  - right. exists 5. split; [reflexivity | lia].
  - reflexivity.
  - reflexivity.
Defined.
